(** * Document management system: admission control, routing, retries and
      the deletion life cycle

    A shallow embedding of the TypeScript sources; several files of the
    source tree hold more than one module, one after the other:

      - [src/shared/concurrency.ts]: the tenant concurrency slots;
      - [src/shared/task-routing.ts]: Lambda / Fargate routing;
      - [src/shared/s3.ts], second module: the timeouts of the workers;
      - [src/shared/auth.ts]: tokens and scopes;
      - [src/unnamed/part_008]: the idempotency checks and, behind them,
        retries with backoff;
      - [src/workers/processing-orchestrator.ts]: the orchestrator and,
        behind it, the retention enforcement job;
      - [src/workers/processing-failure.ts], second module: the job that
        schedules hard deletes;
      - [src/workers/hard-delete-worker.ts]: the worker and, behind it, the
        SQL pool ([db]) and the audit log ([audit]);
      - [src/workers/generate-thumbnail.ts]: the thumbnail worker;
      - [src/api/legal-hold.ts]: [setLegalHold] and, behind it, the
        delete-document handler;
      - [src/unnamed/part_001]: the permanent delete handler;
      - [src/web-ui/README.md], third part: the SQL schema, for the columns
        of [documents] and the check on [audit_logs.action].

    Asynchronous functions become computations in a state-and-exception
    monad over a [World]: the DynamoDB table, the SQL tables, the S3 bucket
    and the SQS queue.  Every call that leaves the process ([dynamodb.send],
    [pool.query], [s3Client.send], [sqsClient.send]) first consults a fault
    script, so that the [catch] and [finally] blocks of the sources are
    reachable.  Calls to [logger] have no effect on any store and are left
    out.  A row of [documents] reaches the handlers and the scheduling job
    as [pg] delivers it, an object keyed by column name.  Counts, limits, sizes, page counts and attempt numbers are
    integers; durations and delays are rationals.

    The first part holds the definitions, the second the properties. *)

From Stdlib Require Import ZArith QArith Qminmax Qround Qpower String Ascii
  List Bool Lia OrderedTypeEx.
From stdpp Require Import gmap strings pretty sorting.

Local Open Scope string_scope.
Local Open Scope Z_scope.

(** ** Errors *)

(** A JavaScript exception.  [JsError] stands for [Error] and for the
    exceptions of the AWS SDK and of [pg]; [AppError] for the subclasses of
    [src/shared/errors.ts], whose [name] is the name of the subclass. *)
Inductive Error : Type :=
| JsError (name message : string)
| AppError (name : string) (statusCode : Z) (code message : string)
| ConditionalCheckFailedException
| ConcurrencyLimitExceededError
    (message tenantId : string) (currentCount limit : Z).

Definition error_name (e : Error) : string :=
  match e with
  | JsError n _ => n
  | AppError n _ _ _ => n
  | ConditionalCheckFailedException => "ConditionalCheckFailedException"
  | ConcurrencyLimitExceededError _ _ _ _ => "ConcurrencyLimitExceededError"
  end.

Definition error_message (e : Error) : string :=
  match e with
  | JsError _ m => m
  | AppError _ _ _ m => m
  | ConditionalCheckFailedException => "The conditional request failed"
  | ConcurrencyLimitExceededError m _ _ _ => m
  end.

Definition NotFoundError (resource : string) : Error :=
  AppError "NotFoundError" 404 "NOT_FOUND" (resource ++ " not found").
Definition ForbiddenError (message : string) : Error :=
  AppError "ForbiddenError" 403 "FORBIDDEN" message.
Definition ConflictError (message : string) : Error :=
  AppError "ConflictError" 409 "CONFLICT" message.
Definition InternalServerError : Error :=
  AppError "InternalServerError" 500 "INTERNAL_SERVER_ERROR"
           "Internal server error".

(** ** Data model (the types module, [src/unnamed/part_000]) *)

(** [DOC_FAILED] is the document status ['FAILED'], which shares its name
    with a job status. *)
Inductive DocumentStatus : Type :=
| UPLOADING | UPLOADED | PROCESSING | READY | DOC_FAILED | DELETED | DELETING.

Inductive JobType : Type := OCR | THUMBNAIL | PDF_SPLIT | MALWARE_SCAN.

Inductive JobStatus : Type := PENDING | RUNNING | COMPLETED | FAILED.

Inductive AuditAction : Type :=
| UPLOAD | DOWNLOAD | DELETE | PROCESS_START | PROCESS_COMPLETE
| PROCESS_FAILED | LEGAL_HOLD_SET | LEGAL_HOLD_REMOVED | PERMANENT_DELETE.

#[global] Instance DocumentStatus_eq_dec : EqDecision DocumentStatus.
Proof. solve_decision. Defined.
#[global] Instance JobType_eq_dec : EqDecision JobType.
Proof. solve_decision. Defined.
#[global] Instance JobStatus_eq_dec : EqDecision JobStatus.
Proof. solve_decision. Defined.

(** Timestamps are milliseconds since the epoch. *)
Record Document : Type := mkDocument {
  doc_id : string;
  doc_tenantId : string;
  doc_name : string;
  doc_ownerId : string;
  doc_status : DocumentStatus;
  doc_legalHold : bool;
  doc_deletedAt : option Z;
  doc_retentionDays : Z;
  doc_createdAt : Z;
  doc_updatedAt : Z
}.

Record DocumentVersion : Type := mkDocumentVersion {
  ver_id : string;
  ver_documentId : string;
  ver_versionNumber : Z;
  ver_s3Key : string;
  ver_s3Bucket : string
}.

Record ProcessingJob : Type := mkProcessingJob {
  job_id : string;
  job_documentId : string;
  job_versionId : string;
  job_jobType : JobType;
  job_status : JobStatus;
  job_attempts : Z;
  job_errorMessage : option string;
  job_startedAt : option Z;
  job_completedAt : option Z
}.

(** A row of [audit_logs]; [None] is SQL's [NULL], and [log_metadata] is
    the object that goes through [JSON.stringify]. *)
Record AuditLog : Type := mkAuditLog {
  log_tenantId : string;
  log_userId : option string;
  log_action : AuditAction;
  log_documentId : option string;
  log_ipAddress : option string;
  log_metadata : option (list (string * string))
}.

(** An item of the DynamoDB table [dms-tenant-concurrency]; an attribute
    that the item does not carry is [None]. *)
Record Item : Type := mkItem {
  current_count : option Z;
  concurrency_limit : option Z;
  updated_at : option Z
}.

(** A work item as the hard delete worker reads it. *)
Record HardDeleteMessage : Type := mkHardDeleteMessage {
  msg_documentId : string;
  msg_tenantId : string
}.

(** ** JavaScript values and objects *)

(** The values that rows and message bodies hold; a [Date] is shown by its
    milliseconds. *)
Inductive JsValue : Type :=
| JsString (s : string)
| JsBoolean (b : bool)
| JsNumber (n : Z)
| JsDate (ms : Z)
| JsNull.

#[global] Instance JsValue_eq_dec : EqDecision JsValue.
Proof. solve_decision. Defined.

(** An object: a property that the object does not carry is [None], which
    is what reading it gives, [undefined]. *)
Definition JsObject : Type := gmap string JsValue.

(** [a === b], where a [Date] is equal to nothing but itself. *)
Definition js_strict_equal (a b : option JsValue) : bool :=
  match a, b with
  | Some (JsDate _), _ | _, Some (JsDate _) => false
  | _, _ => bool_decide (a = b)
  end.

(** The truth value that [if (v)] and [!v] test. *)
Definition js_truthy (v : option JsValue) : bool :=
  match v with
  | Some (JsString s) => negb (String.eqb s "")
  | Some (JsBoolean b) => b
  | Some (JsNumber n) => negb (n =? 0)
  | Some (JsDate _) => true
  | Some JsNull | None => false
  end.

(** [JSON.stringify] of an object literal and [JSON.parse] of the text:
    the properties that are [undefined] are gone. *)
Definition json_object (properties : list (string * option JsValue))
  : JsObject :=
  list_to_map (omap (fun '(key, v) => pair key <$> v) properties).

(** The input of a [SendMessageCommand]: [MessageBody] is the object whose
    [JSON.stringify] text the message carries, [MessageAttributes] the
    [StringValue] of each attribute of data type [String]. *)
Record SendMessageInput : Type := mkSendMessageInput {
  MessageBody : JsObject;
  MessageAttributes : list (string * option JsValue)
}.

(** ** The world *)

(** [hard_delete_queue] holds the messages that the queue took, oldest
    first. *)
Record Stores : Type := mkStores {
  dynamo : gmap string Item;
  documents : list Document;
  document_versions : list DocumentVersion;
  processing_jobs : list ProcessingJob;
  audit_logs : list AuditLog;
  bucket : list string;
  hard_delete_queue : list SendMessageInput
}.

(** [faults] scripts the outcome of the next calls that leave the process:
    [None] lets the call through, [Some e] makes it throw [e]; an exhausted
    script lets every call through.  [page_sizes] scripts how many keys the
    next S3 listings return at most.  [timers] holds the delays handed to
    [setTimeout], latest first, and [sql_log] the texts of the SQL
    statements that the database ran, latest first. *)
Record World : Type := mkWorld {
  stores : Stores;
  now : Z;
  faults : list (option Error);
  page_sizes : list nat;
  timers : list Q;
  sql_log : list string
}.

Definition set_stores (w : World) (s : Stores) : World :=
  mkWorld s (now w) (faults w) (page_sizes w) (timers w) (sql_log w).
Definition set_now (w : World) (t : Z) : World :=
  mkWorld (stores w) t (faults w) (page_sizes w) (timers w) (sql_log w).
Definition set_faults (w : World) (f : list (option Error)) : World :=
  mkWorld (stores w) (now w) f (page_sizes w) (timers w) (sql_log w).
Definition set_page_sizes (w : World) (p : list nat) : World :=
  mkWorld (stores w) (now w) (faults w) p (timers w) (sql_log w).
Definition set_timers (w : World) (t : list Q) : World :=
  mkWorld (stores w) (now w) (faults w) (page_sizes w) t (sql_log w).
Definition set_sql_log (w : World) (l : list string) : World :=
  mkWorld (stores w) (now w) (faults w) (page_sizes w) (timers w) l.

Definition set_dynamo (s : Stores) (d : gmap string Item) : Stores :=
  mkStores d (documents s) (document_versions s) (processing_jobs s)
           (audit_logs s) (bucket s) (hard_delete_queue s).
Definition set_documents (s : Stores) (d : list Document) : Stores :=
  mkStores (dynamo s) d (document_versions s) (processing_jobs s)
           (audit_logs s) (bucket s) (hard_delete_queue s).
Definition set_document_versions (s : Stores) (v : list DocumentVersion)
  : Stores :=
  mkStores (dynamo s) (documents s) v (processing_jobs s)
           (audit_logs s) (bucket s) (hard_delete_queue s).
Definition set_processing_jobs (s : Stores) (j : list ProcessingJob)
  : Stores :=
  mkStores (dynamo s) (documents s) (document_versions s) j
           (audit_logs s) (bucket s) (hard_delete_queue s).
Definition set_audit_logs (s : Stores) (a : list AuditLog) : Stores :=
  mkStores (dynamo s) (documents s) (document_versions s) (processing_jobs s)
           a (bucket s) (hard_delete_queue s).
Definition set_bucket (s : Stores) (b : list string) : Stores :=
  mkStores (dynamo s) (documents s) (document_versions s) (processing_jobs s)
           (audit_logs s) b (hard_delete_queue s).
Definition set_hard_delete_queue (s : Stores) (q : list SendMessageInput)
  : Stores :=
  mkStores (dynamo s) (documents s) (document_versions s) (processing_jobs s)
           (audit_logs s) (bucket s) q.

(** ** The monad of asynchronous functions *)

Definition M (A : Type) : Type := World -> (Error + A) * World.

Definition ret {A} (a : A) : M A := fun w => (inr a, w).

Definition throw {A} (e : Error) : M A := fun w => (inl e, w).

Definition bind {A B} (m : M A) (k : A -> M B) : M B :=
  fun w =>
    match m w with
    | (inr a, w') => k a w'
    | (inl e, w') => (inl e, w')
    end.

Notation "'let*' x ':=' m 'in' k" := (bind m (fun x => k))
  (at level 10, x name, m at level 100, k at level 200).
Notation "m ';;' k" := (bind m (fun _ => k))
  (at level 100, k at level 200, right associativity).

(** [try { body } catch (error) { handler error }] *)
Definition try_catch {A} (body : M A) (handler : Error -> M A) : M A :=
  fun w =>
    match body w with
    | (inr a, w') => (inr a, w')
    | (inl e, w') => handler e w'
    end.

(** [try { body } finally { fin }]: an exception of [fin] replaces the
    outcome of [body]. *)
Definition try_finally {A} (body : M A) (fin : M unit) : M A :=
  fun w =>
    match body w with
    | (r, w') =>
        match fin w' with
        | (inr _, w'') => (r, w'')
        | (inl e, w'') => (inl e, w'')
        end
    end.

Definition get_stores : M Stores := fun w => (inr (stores w), w).
Definition put_stores (s : Stores) : M unit :=
  fun w => (inr tt, set_stores w s).
Definition get_now : M Z := fun w => (inr (now w), w).

(** A call that leaves the process: it throws when the fault script says
    so. *)
Definition external : M unit :=
  fun w =>
    match faults w with
    | [] => (inr tt, w)
    | None :: f => (inr tt, set_faults w f)
    | Some e :: f => (inl e, set_faults w f)
    end.

(** JavaScript's [x || d] on an optional number: [undefined] and [0] are
    falsy. *)
Definition js_or (x : option Z) (d : Z) : Z :=
  match x with
  | Some v => if v =? 0 then d else v
  | None => d
  end.

(** ** Tenant concurrency slots ([src/shared/concurrency.ts]) *)

Definition DEFAULT_CONCURRENCY_LIMIT : Z := 10.

Record ConcurrencyStatus : Type := mkConcurrencyStatus {
  cs_tenantId : string;
  cs_currentCount : Z;
  cs_limit : Z;
  cs_available : Z
}.

(** [dynamodb.send(new GetItemCommand {Key: {tenant_id}})] *)
Definition dynamodb_GetItem (tenantId : string) : M (option Item) :=
  external ;;
  let* s := get_stores in
  ret (dynamo s !! tenantId).

(** [dynamodb.send(new UpdateItemCommand {..., ReturnValues: 'ALL_NEW'})].
    [update] is the condition expression and the update expression in one:
    on the item stored for the key (if any) and the current time it gives
    the new item, or [None] when the condition fails, in which case nothing
    is written and the SDK throws [ConditionalCheckFailedException]. *)
Definition dynamodb_UpdateItem (tenantId : string)
    (update : option Item -> Z -> option Item) : M Item :=
  external ;;
  let* s := get_stores in
  let* t := get_now in
  match update (dynamo s !! tenantId) t with
  | Some item' =>
      put_stores (set_dynamo s (<[tenantId := item']> (dynamo s))) ;;
      ret item'
  | None => throw ConditionalCheckFailedException
  end.

(** Condition
    [attribute_not_exists(current_count) OR current_count < concurrency_limit]
    (a comparison with a missing attribute is false); update
    [SET current_count = if_not_exists(current_count, :zero) + :inc,
         concurrency_limit = if_not_exists(concurrency_limit, :limit),
         updated_at = :now]. *)
Definition increment_expression (limit : Z) (item : option Item) (t : Z)
  : option Item :=
  let count := item ≫= current_count in
  let stored := item ≫= concurrency_limit in
  let condition :=
    match count with
    | None => true
    | Some c => match stored with Some l => c <? l | None => false end
    end in
  if condition
  then Some (mkItem (Some (default 0 count + 1))
                    (Some (default limit stored))
                    (Some t))
  else None.

(** Condition [current_count > :zero]; update
    [SET current_count = if_not_exists(current_count, :zero) - :dec,
         updated_at = :now]. *)
Definition decrement_expression (item : option Item) (t : Z) : option Item :=
  match item with
  | Some it =>
      match current_count it with
      | Some c =>
          if 0 <? c
          then Some (mkItem (Some (c - 1)) (concurrency_limit it) (Some t))
          else None
      | None => None
      end
  | None => None
  end.

Definition getCurrentConcurrency (tenantId : string) : M ConcurrencyStatus :=
  try_catch
    (let* response := dynamodb_GetItem tenantId in
     let currentCount := default 0 (response ≫= current_count) in
     let limit :=
       default DEFAULT_CONCURRENCY_LIMIT (response ≫= concurrency_limit) in
     ret (mkConcurrencyStatus tenantId currentCount limit
            (Z.max 0 (limit - currentCount))))
    (fun error => throw error).

Definition limit_reached_message (tenantId : string) (limit : Z) : string :=
  "Tenant " ++ tenantId ++ " has reached concurrency limit of " ++ pretty limit.

Definition incrementConcurrency (tenantId : string)
    (concurrencyLimit : option Z) : M ConcurrencyStatus :=
  let limit := js_or concurrencyLimit DEFAULT_CONCURRENCY_LIMIT in
  try_catch
    (let* response :=
       dynamodb_UpdateItem tenantId (increment_expression limit) in
     let currentCount := default 1 (current_count response) in
     let actualLimit := default limit (concurrency_limit response) in
     ret (mkConcurrencyStatus tenantId currentCount actualLimit
            (Z.max 0 (actualLimit - currentCount))))
    (fun error =>
       match error with
       | ConditionalCheckFailedException =>
           let* status := getCurrentConcurrency tenantId in
           throw (ConcurrencyLimitExceededError
                    (limit_reached_message tenantId (cs_limit status))
                    tenantId (cs_currentCount status) (cs_limit status))
       | _ => throw error
       end).

Definition decrementConcurrency (tenantId : string) : M ConcurrencyStatus :=
  try_catch
    (let* response := dynamodb_UpdateItem tenantId decrement_expression in
     let currentCount := default 0 (current_count response) in
     let limit :=
       default DEFAULT_CONCURRENCY_LIMIT (concurrency_limit response) in
     ret (mkConcurrencyStatus tenantId currentCount limit
            (Z.max 0 (limit - currentCount))))
    (fun error =>
       match error with
       | ConditionalCheckFailedException =>
           ret (mkConcurrencyStatus tenantId 0 DEFAULT_CONCURRENCY_LIMIT
                  DEFAULT_CONCURRENCY_LIMIT)
       | _ => throw error
       end).

Definition acquireConcurrencySlot (tenantId : string)
    (concurrencyLimit : option Z) : M ConcurrencyStatus :=
  incrementConcurrency tenantId concurrencyLimit.

Definition releaseConcurrencySlot (tenantId : string) : M ConcurrencyStatus :=
  decrementConcurrency tenantId.

(** [withConcurrencyControl]: the [acquired] flag of the source is [true]
    exactly when the acquisition returned, so the [finally] block is
    written out on the two paths. *)
Definition withConcurrencyControl {T} (tenantId : string) (operation : M T)
    (concurrencyLimit : option Z) : M T :=
  fun w =>
    match acquireConcurrencySlot tenantId concurrencyLimit w with
    | (inl e, w1) => (inl e, w1)
    | (inr _, w1) =>
        try_finally operation
          (try_catch (releaseConcurrencySlot tenantId ;; ret tt)
                     (fun _ => ret tt)) w1
    end.

(** A caller of the admission controller, and a history of calls; every
    call happens at its own time. *)
Inductive Call : Type :=
| Acquire (tenantId : string) (concurrencyLimit : option Z)
| Release (tenantId : string).

Definition perform (c : Call) : M ConcurrencyStatus :=
  match c with
  | Acquire tenantId concurrencyLimit =>
      acquireConcurrencySlot tenantId concurrencyLimit
  | Release tenantId => releaseConcurrencySlot tenantId
  end.

Fixpoint run (calls : list (Z * Call)) (w : World) : World :=
  match calls with
  | [] => w
  | (t, c) :: rest => run rest (snd (perform c (set_now w t)))
  end.

(** The slot of a tenant, as [getCurrentConcurrency] reads it. *)
Definition currentCount_of (w : World) (tenantId : string) : Z :=
  default 0 ((dynamo (stores w) !! tenantId) ≫= current_count).
Definition limit_of (w : World) (tenantId : string) : Z :=
  default DEFAULT_CONCURRENCY_LIMIT
          ((dynamo (stores w) !! tenantId) ≫= concurrency_limit).

(** ** The SQL pool (module [db], in [src/workers/hard-delete-worker.ts]) *)

(** One SQL statement with its parameters bound: its text (white space
    normalised), and its meaning from the tables and [NOW()] to the rows it
    returns and the tables it leaves.  A row is a record of the types
    module where the caller reads only properties that are named as their
    columns ([id], [status]), and an object keyed by column name
    ([JsObject]) where it reads others. *)
Record Statement (R : Type) : Type := mkStatement {
  sql : string;
  execute : Stores -> Z -> list R * Stores
}.
Arguments mkStatement {R} _ _.
Arguments sql {R} _.
Arguments execute {R} _ _ _.

Definition log_statement (text : string) : M unit :=
  fun w => (inr tt, set_sql_log w (text :: sql_log w)).

(** [pool.query(text, params)] and [client.query(text, params)]: the call
    may throw; otherwise the statement runs. *)
Definition query {R} (statement : Statement R) : M (list R) :=
  external ;;
  log_statement (sql statement) ;;
  let* s := get_stores in
  let* t := get_now in
  let (rows, s') := execute statement s t in
  put_stores s' ;;
  ret rows.

(** [queryOne]: [rows[0] || null]. *)
Definition queryOne {R} (statement : Statement R) : M (option R) :=
  let* rows := query statement in
  ret (head rows).

(** [withTransaction(callback)]: [pool.connect()], then [BEGIN], the
    callback, [COMMIT]; when one of these three throws, [ROLLBACK] gives
    the tables back as they were at [BEGIN] and the error is thrown again.
    If [ROLLBACK] itself throws, its error is the one thrown; the database
    then aborts the open transaction when the client is released. *)
Definition withTransaction {T} (callback : M T) : M T :=
  external ;;
  let* snapshot := get_stores in
  try_catch
    (external ;; log_statement "BEGIN" ;;
     let* result := callback in
     external ;; log_statement "COMMIT" ;;
     ret result)
    (fun error =>
       let* current := get_stores in
       put_stores
         (set_documents
            (set_document_versions
               (set_processing_jobs
                  (set_audit_logs current (audit_logs snapshot))
                  (processing_jobs snapshot))
               (document_versions snapshot))
            (documents snapshot)) ;;
       external ;; log_statement "ROLLBACK" ;;
       throw error).

(** ** The processing orchestrator
       ([src/workers/processing-orchestrator.ts]) *)

Record ProcessingRequest : Type := mkProcessingRequest {
  req_documentId : string;
  req_versionId : string;
  req_tenantId : string;
  req_jobType : JobType;
  req_concurrencyLimit : option Z
}.

Inductive ResponseStatus : Type := ACCEPTED | QUEUED | REJECTED.

Record ProcessingResponse : Type := mkProcessingResponse {
  resp_documentId : string;
  resp_versionId : string;
  resp_status : ResponseStatus;
  resp_concurrencyStatus : option ConcurrencyStatus;
  resp_reason : option string
}.

(** [WHERE document_id = $1 AND version_id = $2 AND job_type = $3] *)
Definition job_matches (documentId versionId : string) (jobType : JobType)
    (j : ProcessingJob) : bool :=
  bool_decide (job_documentId j = documentId) &&
  bool_decide (job_versionId j = versionId) &&
  bool_decide (job_jobType j = jobType).

Definition update_jobs (where_ : ProcessingJob -> bool)
    (set : ProcessingJob -> ProcessingJob) (s : Stores)
  : list unit * Stores :=
  ([], set_processing_jobs s
         (map (fun j => if where_ j then set j else j)
              (processing_jobs s))).

Definition sql_job_running (documentId versionId : string)
    (jobType : JobType) : Statement unit :=
  mkStatement
    "UPDATE processing_jobs SET status = 'RUNNING', started_at = NOW() WHERE document_id = $1 AND version_id = $2 AND job_type = $3"
    (fun s t =>
       update_jobs (job_matches documentId versionId jobType)
         (fun j => mkProcessingJob (job_id j) (job_documentId j)
                     (job_versionId j) (job_jobType j) RUNNING
                     (job_attempts j) (job_errorMessage j) (Some t)
                     (job_completedAt j)) s).

Definition sql_job_pending (documentId versionId : string)
    (jobType : JobType) : Statement unit :=
  mkStatement
    "UPDATE processing_jobs SET status = 'PENDING', attempts = attempts + 1 WHERE document_id = $1 AND version_id = $2 AND job_type = $3"
    (fun s _ =>
       update_jobs (job_matches documentId versionId jobType)
         (fun j => mkProcessingJob (job_id j) (job_documentId j)
                     (job_versionId j) (job_jobType j) PENDING
                     (job_attempts j + 1) (job_errorMessage j)
                     (job_startedAt j) (job_completedAt j)) s).

Definition sql_job_completed (newStatus : JobStatus)
    (documentId versionId : string) (jobType : JobType) : Statement unit :=
  mkStatement
    "UPDATE processing_jobs SET status = $1, completed_at = NOW() WHERE document_id = $2 AND version_id = $3 AND job_type = $4"
    (fun s t =>
       update_jobs (job_matches documentId versionId jobType)
         (fun j => mkProcessingJob (job_id j) (job_documentId j)
                     (job_versionId j) (job_jobType j) newStatus
                     (job_attempts j) (job_errorMessage j) (job_startedAt j)
                     (Some t)) s).

Definition sql_job_failed (errorMessage : string)
    (documentId versionId : string) (jobType : JobType) : Statement unit :=
  mkStatement
    "UPDATE processing_jobs SET status = 'FAILED', error_message = $1, completed_at = NOW() WHERE document_id = $2 AND version_id = $3 AND job_type = $4"
    (fun s t =>
       update_jobs (job_matches documentId versionId jobType)
         (fun j => mkProcessingJob (job_id j) (job_documentId j)
                     (job_versionId j) (job_jobType j) FAILED
                     (job_attempts j) (Some errorMessage) (job_startedAt j)
                     (Some t)) s).

Definition queued_reason (limit : Z) : string :=
  "Tenant concurrency limit reached (" ++ pretty limit
    ++ "). Task will retry.".

Definition enforceAndStartProcessing (request : ProcessingRequest)
  : M ProcessingResponse :=
  let documentId := req_documentId request in
  let versionId := req_versionId request in
  let tenantId := req_tenantId request in
  let jobType := req_jobType request in
  let concurrencyLimit := req_concurrencyLimit request in
  try_catch
    (let* concurrencyStatus :=
       acquireConcurrencySlot tenantId concurrencyLimit in
     query (sql_job_running documentId versionId jobType) ;;
     ret (mkProcessingResponse documentId versionId ACCEPTED
            (Some concurrencyStatus) None))
    (fun error =>
       match error with
       | ConcurrencyLimitExceededError _ _ _ limit =>
           query (sql_job_pending documentId versionId jobType) ;;
           ret (mkProcessingResponse documentId versionId QUEUED None
                  (Some (queued_reason limit)))
       | _ => throw error
       end).

Definition completeProcessing (documentId versionId tenantId : string)
    (jobType : JobType) (success : bool) : M unit :=
  try_catch
    (let* concurrencyStatus := releaseConcurrencySlot tenantId in
     let newStatus := if success then COMPLETED else FAILED in
     query (sql_job_completed newStatus documentId versionId jobType) ;;
     ret tt)
    (fun error => throw error).

Definition handleProcessingFailure (documentId versionId tenantId : string)
    (jobType : JobType) (error : Error) : M unit :=
  try_catch
    (releaseConcurrencySlot tenantId ;;
     query (sql_job_failed (error_message error) documentId versionId
              jobType) ;;
     ret tt)
    (fun err => throw err).

(** [s || d] on an optional string: [undefined] and the empty string are
    falsy. *)
Definition js_or_string (x : option string) (d : string) : string :=
  match x with
  | Some "" => d
  | Some s => s
  | None => d
  end.

Definition executeWithConcurrencyEnforcement {T}
    (wrapper : ProcessingRequest) (operation : M T) : M T :=
  let documentId := req_documentId wrapper in
  let versionId := req_versionId wrapper in
  let tenantId := req_tenantId wrapper in
  let jobType := req_jobType wrapper in
  let concurrencyLimit := req_concurrencyLimit wrapper in
  let* response :=
    enforceAndStartProcessing
      (mkProcessingRequest documentId versionId tenantId jobType
         concurrencyLimit) in
  match resp_status response with
  | QUEUED =>
      throw (ConcurrencyLimitExceededError
               (js_or_string (resp_reason response)
                  "Concurrency limit exceeded")
               tenantId
               (js_or (cs_currentCount <$> resp_concurrencyStatus response) 0)
               (js_or (cs_limit <$> resp_concurrencyStatus response) 0))
  | _ =>
      try_catch
        (let* result := operation in
         completeProcessing documentId versionId tenantId jobType true ;;
         ret result)
        (fun error =>
           handleProcessingFailure documentId versionId tenantId jobType
             error ;;
           throw error)
  end.

(** ** Task routing ([src/shared/task-routing.ts]) *)

(** Durations are JavaScript numbers; sizes and page counts are integers,
    and the quotients and products below are rationals.  The division by
    [1024 * 1024] is exact in binary floating point, and the products stay
    far below 2^53 wherever an estimate is near the threshold it is
    compared with. *)

Inductive WorkerType : Type := LAMBDA | FARGATE.

Record TaskRoutingDecision : Type := mkTaskRoutingDecision {
  workerType : WorkerType;
  estimatedDurationMs : Q;
  reason : string
}.

(** [jobType] is the string that arrives at run time; the type [JobType]
    names four of them. *)
Record TaskMetadata : Type := mkTaskMetadata {
  md_jobType : string;
  md_fileSizeBytes : option Z;
  md_pageCount : option Z
}.

Definition JobType_name (j : JobType) : string :=
  match j with
  | OCR => "OCR"
  | THUMBNAIL => "THUMBNAIL"
  | PDF_SPLIT => "PDF_SPLIT"
  | MALWARE_SCAN => "MALWARE_SCAN"
  end.

Definition LAMBDA_TIMEOUT_MS : Q := inject_Z (15 * 60 * 1000).
Definition FARGATE_TIMEOUT_MS : Q := inject_Z (60 * 60 * 1000).

Definition THUMBNAIL_TIME_PER_MB : Q := 2000.
Definition OCR_TIME_PER_PAGE : Q := 5000.
Definition PDF_SPLIT_TIME_PER_PAGE : Q := 1000.
Definition MALWARE_SCAN_TIME_PER_MB : Q := 3000.

Definition LARGE_FILE_THRESHOLD_BYTES : Z := 50 * 1024 * 1024.
Definition LARGE_PAGE_COUNT_THRESHOLD : Z := 100.

(** [x < y] on numbers. *)
Definition Qltb (x y : Q) : bool :=
  match (x ?= y)%Q with Lt => true | _ => false end.

(** [Math.round]: the nearest integer, halves upwards. *)
Definition Math_round (x : Q) : Z := Qfloor (x + (1 # 2))%Q.

Definition estimateTaskDuration (metadata : TaskMetadata) : Q :=
  let jobType := md_jobType metadata in
  let fileSizeBytes := default 0 (md_fileSizeBytes metadata) in
  let pageCount := default 0 (md_pageCount metadata) in
  if String.eqb jobType "THUMBNAIL" then
    let fileSizeMB := (inject_Z fileSizeBytes / inject_Z (1024 * 1024))%Q in
    Qmax 5000 (fileSizeMB * THUMBNAIL_TIME_PER_MB)
  else if String.eqb jobType "OCR" then
    Qmax 10000 (inject_Z pageCount * OCR_TIME_PER_PAGE)
  else if String.eqb jobType "PDF_SPLIT" then
    Qmax 5000 (inject_Z pageCount * PDF_SPLIT_TIME_PER_PAGE)
  else if String.eqb jobType "MALWARE_SCAN" then
    let scanSizeMB := (inject_Z fileSizeBytes / inject_Z (1024 * 1024))%Q in
    Qmax 10000 (scanSizeMB * MALWARE_SCAN_TIME_PER_MB)
  else inject_Z (5 * 60 * 1000).

Definition routeTask (metadata : TaskMetadata) : TaskRoutingDecision :=
  let estimatedDurationMs := estimateTaskDuration metadata in
  let jobType := md_jobType metadata in
  let fileSizeBytes := default 0 (md_fileSizeBytes metadata) in
  let pageCount := default 0 (md_pageCount metadata) in
  (* Rule 1 *)
  let '(workerType, reason) :=
    if Qltb estimatedDurationMs LAMBDA_TIMEOUT_MS
    then (LAMBDA,
          "Estimated duration "
            ++ pretty (Math_round (estimatedDurationMs / 1000))
            ++ "s is under Lambda timeout")
    else (FARGATE,
          "Estimated duration "
            ++ pretty (Math_round (estimatedDurationMs / 1000))
            ++ "s exceeds Lambda timeout") in
  (* Rule 2 *)
  let '(workerType, reason) :=
    if LARGE_FILE_THRESHOLD_BYTES <? fileSizeBytes
    then (FARGATE,
          "Large file size "
            ++ pretty (Math_round
                         (inject_Z fileSizeBytes / inject_Z (1024 * 1024)))
            ++ "MB requires Fargate")
    else (workerType, reason) in
  (* Rule 3 *)
  let '(workerType, reason) :=
    if LARGE_PAGE_COUNT_THRESHOLD <? pageCount
    then (FARGATE,
          "Large page count " ++ pretty pageCount ++ " requires Fargate")
    else (workerType, reason) in
  (* Rule 4 *)
  let '(workerType, reason) :=
    if String.eqb jobType "MALWARE_SCAN"
    then (FARGATE,
          "Malware scanning requires Fargate with ClamAV container")
    else (workerType, reason) in
  mkTaskRoutingDecision workerType estimatedDurationMs reason.

Definition getWorkerTimeout (workerType : WorkerType) : Q :=
  match workerType with
  | LAMBDA => LAMBDA_TIMEOUT_MS
  | FARGATE => FARGATE_TIMEOUT_MS
  end.

(** ** Retries with exponential backoff ([src/unnamed/part_008]) *)

Record RetryConfig : Type := mkRetryConfig {
  maxAttempts : Z;
  baseDelayMs : Q;
  maxDelayMs : option Q;
  retryableErrors : option (list string)
}.

(** [Partial<RetryConfig>]: a property that the object does not carry is
    [None]. *)
Record PartialRetryConfig : Type := mkPartialRetryConfig {
  p_maxAttempts : option Z;
  p_baseDelayMs : option Q;
  p_maxDelayMs : option Q;
  p_retryableErrors : option (list string)
}.

Definition DEFAULT_RETRY_CONFIG : RetryConfig :=
  mkRetryConfig 5 1000 (Some 16000%Q)
    (Some ["NetworkError"; "TimeoutError"; "ServiceUnavailable";
           "ThrottlingException"; "TooManyRequestsException";
           "InternalServerError"]).

(** [{...DEFAULT_RETRY_CONFIG, ...config}] *)
Definition merge_config (config : PartialRetryConfig) : RetryConfig :=
  mkRetryConfig
    (default (maxAttempts DEFAULT_RETRY_CONFIG) (p_maxAttempts config))
    (default (baseDelayMs DEFAULT_RETRY_CONFIG) (p_baseDelayMs config))
    (match p_maxDelayMs config with
     | Some m => Some m
     | None => maxDelayMs DEFAULT_RETRY_CONFIG
     end)
    (match p_retryableErrors config with
     | Some l => Some l
     | None => retryableErrors DEFAULT_RETRY_CONFIG
     end).

(** [baseDelayMs * Math.pow(2, attempt - 1)], capped by a [maxDelayMs] that
    is present and not zero. *)
Definition calculateExponentialBackoff (attempt : Z) (baseDelayMs : Q)
    (maxDelayMs : option Q) : Q :=
  let delay := (baseDelayMs * 2 ^ (attempt - 1))%Q in
  match maxDelayMs with
  | Some m => if Qeq_bool m 0 then delay else Qmin delay m
  | None => delay
  end.

(** [hay.includes(needle)] *)
Fixpoint includes (hay needle : string) : bool :=
  String.prefix needle hay ||
  match hay with
  | EmptyString => false
  | String _ rest => includes rest needle
  end.

Definition isRetryableError (error : Error)
    (retryableErrors_ : option (list string)) : bool :=
  let errors :=
    match retryableErrors_ with
    | Some l => l
    | None => default [] (retryableErrors DEFAULT_RETRY_CONFIG)
    end in
  existsb (fun errorType =>
             includes (error_name error) errorType ||
             includes (error_message error) errorType) errors.

(** [sleep(ms)]: the delay goes to [setTimeout], and the clock moves on by
    its whole milliseconds. *)
Definition sleep (ms : Q) : M unit :=
  fun w =>
    (inr tt,
     set_now (set_timers w (ms :: timers w)) (now w + Z.max 0 (Qfloor ms))).

(** The loop [for (attempt = 1; attempt <= maxAttempts; attempt++)], entered
    at [attempt] with [remaining] iterations to go;
    [remaining = maxAttempts - attempt + 1] throughout, so that
    [remaining = 0] is the exit of the loop. *)
Fixpoint retry_from {T} (operation : M T) (finalConfig : RetryConfig)
    (remaining : nat) (attempt : Z) (lastError : option Error) : M T :=
  match remaining with
  | O =>
      throw (default (JsError "Error" "Retry failed with unknown error")
                     lastError)
  | S remaining' =>
      try_catch operation
        (fun error =>
           let isRetryable :=
             isRetryableError error (retryableErrors finalConfig) in
           let isLastAttempt := attempt =? maxAttempts finalConfig in
           if isLastAttempt || negb isRetryable
           then throw error
           else
             let delayMs :=
               calculateExponentialBackoff attempt
                 (baseDelayMs finalConfig) (maxDelayMs finalConfig) in
             sleep delayMs ;;
             retry_from operation finalConfig remaining' (attempt + 1)
               (Some error))
  end.

Definition retryWithExponentialBackoff {T} (operation : M T)
    (config : PartialRetryConfig) : M T :=
  let finalConfig := merge_config config in
  retry_from operation finalConfig (Z.to_nat (maxAttempts finalConfig)) 1
    None.

Definition no_config : PartialRetryConfig :=
  mkPartialRetryConfig None None None None.
(** ** Rows as [pg] returns them (module [db]) *)

Definition DocumentStatus_name (s : DocumentStatus) : string :=
  match s with
  | UPLOADING => "UPLOADING"
  | UPLOADED => "UPLOADED"
  | PROCESSING => "PROCESSING"
  | READY => "READY"
  | DOC_FAILED => "FAILED"
  | DELETED => "DELETED"
  | DELETING => "DELETING"
  end.

(** The columns of a row of [documents] with their values. *)
Definition document_columns (d : Document) : list (string * JsValue) :=
  [("id", JsString (doc_id d));
   ("tenant_id", JsString (doc_tenantId d));
   ("name", JsString (doc_name d));
   ("owner_id", JsString (doc_ownerId d));
   ("status", JsString (DocumentStatus_name (doc_status d)));
   ("legal_hold", JsBoolean (doc_legalHold d));
   ("deleted_at", from_option JsDate JsNull (doc_deletedAt d));
   ("retention_days", JsNumber (doc_retentionDays d));
   ("created_at", JsDate (doc_createdAt d));
   ("updated_at", JsDate (doc_updatedAt d))].

(** [query] and [queryOne] hand on [result.rows] as they are: an object
    per row whose properties are the selected columns, under the names of
    the columns. *)
Definition pg_row (columns : list string) (d : Document) : JsObject :=
  list_to_map
    (List.filter (fun column => bool_decide (column.1 ∈ columns))
                 (document_columns d)).

(** The text that a value has in a template and in the metadata of an
    audit entry. *)
Definition js_text (v : JsValue) : string :=
  match v with
  | JsString s => s
  | JsBoolean b => if b then "true" else "false"
  | JsNumber n => pretty n
  | JsDate ms => pretty ms
  | JsNull => "null"
  end.

(** The metadata of an audit entry, from an object literal: properties
    that are [undefined] do not reach [JSON.stringify]'s text. *)
Definition json_properties (properties : list (string * option JsValue))
  : list (string * string) :=
  omap (fun '(key, v) => pair key <$> (js_text <$> v)) properties.

(** ** Audit log (module [audit], in [src/workers/hard-delete-worker.ts]) *)

(** The schema's [CHECK (action IN ('UPLOAD', 'DOWNLOAD', 'DELETE',
    'PROCESS_START', 'PROCESS_COMPLETE', 'PROCESS_FAILED'))] on
    [audit_logs]. *)
Definition audit_action_allowed (action : AuditAction) : bool :=
  match action with
  | UPLOAD | DOWNLOAD | DELETE | PROCESS_START | PROCESS_COMPLETE
  | PROCESS_FAILED => true
  | LEGAL_HOLD_SET | LEGAL_HOLD_REMOVED | PERMANENT_DELETE => false
  end.

Definition check_violation : Error :=
  JsError "error"
    "new row for relation audit_logs violates check constraint audit_logs_action_check".

(** [query('INSERT INTO audit_logs ...', [...])]: the database refuses a
    row whose action the check does not allow, and [pool.query] throws;
    any other row is appended. *)
Definition sql_insert_audit_log (entry : AuditLog) : M (list unit) :=
  if audit_action_allowed (log_action entry)
  then
    query
      (mkStatement
         "INSERT INTO audit_logs (tenant_id, user_id, action, document_id, ip_address, metadata) VALUES ($1, $2, $3, $4, $5, $6)"
         (fun s _ => ([], set_audit_logs s (audit_logs s ++ [entry]))))
  else external ;; throw check_violation.

Record CreateAuditLogParams : Type := mkCreateAuditLogParams {
  p_tenantId : string;
  p_action : AuditAction;
  p_userId : option string;
  p_documentId : option string;
  p_ipAddress : option string;
  p_metadata : option (list (string * string))
}.

(** [x || null] on an optional string. *)
Definition or_null (x : option string) : option string :=
  match x with
  | None | Some "" => None
  | Some s => Some s
  end.

(** [createAuditLog]: a failure of the insertion is logged and dropped. *)
Definition createAuditLog (params : CreateAuditLogParams) : M unit :=
  try_catch
    (sql_insert_audit_log
       (mkAuditLog (p_tenantId params) (or_null (p_userId params))
          (p_action params) (or_null (p_documentId params))
          (or_null (p_ipAddress params)) (p_metadata params)) ;;
     ret tt)
    (fun _ => ret tt).

(** ** Soft delete (the delete-document handler, in [src/api/legal-hold.ts]) *)

Module DeleteDocument.

Record AuthContext : Type := mkAuthContext {
  userId : string;
  tenantId : string;
  email : string;
  scopes : list string
}.

(** The part of [APIGatewayProxyEvent] that the handler reads.
    [authentication] is the outcome of [extractToken] and [validateToken]
    on the [authorization] header (the verification of the token against
    the identity provider is not modelled); [clientIp] is what
    [getClientIp] finds in the headers. *)
Record Event : Type := mkEvent {
  authentication : Error + AuthContext;
  pathParameters_id : option string;
  clientIp : option string
}.

Inductive Body : Type :=
| SoftDeleted (documentId : string) (deletedAt : Z)
| ErrorBody (code message : string) (timestamp : Z).

Record APIGatewayProxyResult : Type := mkResult {
  statusCode : Z;
  body : Body
}.

Definition sql_select_document (documentId : string)
  : Statement JsObject :=
  mkStatement
    "SELECT id, tenant_id, name, owner_id, status, legal_hold, deleted_at FROM documents WHERE id = $1"
    (fun s _ =>
       (map (pg_row ["id"; "tenant_id"; "name"; "owner_id"; "status";
                     "legal_hold"; "deleted_at"])
            (List.filter (fun d => bool_decide (doc_id d = documentId))
                         (documents s)), s)).

(** [$2] is [new Date()]. *)
Definition sql_soft_delete (documentId : string) (deletedAt : Z)
  : Statement unit :=
  mkStatement
    "UPDATE documents SET status = $1, deleted_at = $2, updated_at = NOW() WHERE id = $3"
    (fun s t =>
       ([], set_documents s
              (map (fun d =>
                      if bool_decide (doc_id d = documentId)
                      then mkDocument (doc_id d) (doc_tenantId d)
                             (doc_name d) (doc_ownerId d) DELETED
                             (doc_legalHold d) (Some deletedAt)
                             (doc_retentionDays d) (doc_createdAt d) t
                      else d)
                   (documents s)))).

(** The [try] block of the handler.  [document] is the row as [queryOne]
    returns it; the handler reads its properties [tenantId], [legalHold],
    [status] and [name]. *)
Definition handler_body (event : Event) : M APIGatewayProxyResult :=
  let* authContext :=
    match authentication event with
    | inl e => throw e
    | inr a => ret a
    end in
  let* documentId :=
    match pathParameters_id event with
    | None | Some "" => throw (NotFoundError "Document")
    | Some id => ret id
    end in
  let* document := queryOne (sql_select_document documentId) in
  match document with
  | None => throw (NotFoundError "Document")
  | Some document =>
      if negb (js_strict_equal (document !! "tenantId")
                 (Some (JsString (tenantId authContext))))
      then throw (ForbiddenError
                    "Cannot delete document from different tenant")
      else if js_truthy (document !! "legalHold")
      then throw (ConflictError
                    "Cannot delete document with active legal hold")
      else if js_strict_equal (document !! "status")
                (Some (JsString "DELETED"))
              || js_strict_equal (document !! "status")
                   (Some (JsString "DELETING"))
      then throw (ConflictError
                    "Document is already deleted or being deleted")
      else
        let* date := get_now in
        query (sql_soft_delete documentId date) ;;
        createAuditLog
          (mkCreateAuditLogParams (tenantId authContext) DELETE
             (Some (userId authContext)) (Some documentId) (clientIp event)
             (Some (json_properties
                      [("documentName", document !! "name");
                       ("previousStatus", document !! "status")]))) ;;
        let* date' := get_now in
        ret (mkResult 200 (SoftDeleted documentId date'))
  end.

Definition handler (event : Event) : M APIGatewayProxyResult :=
  try_catch (handler_body event)
    (fun error =>
       let* date := get_now in
       match error with
       | AppError _ statusCode code message =>
           ret (mkResult statusCode (ErrorBody code message date))
       | _ =>
           ret (mkResult 500
                  (ErrorBody "INTERNAL_SERVER_ERROR"
                             "Internal server error" date))
       end).

End DeleteDocument.

(** [for (const x of xs) { body x }] *)
Fixpoint for_each {A} (xs : list A) (body : A -> M unit) : M unit :=
  match xs with
  | [] => ret tt
  | x :: rest => body x ;; for_each rest body
  end.

(** ** Retention enforcement (in [src/workers/processing-orchestrator.ts]) *)

Module Retention.

Definition MS_PER_DAY : Z := 24 * 60 * 60 * 1000.

(** [status = 'DELETED' AND deleted_at IS NOT NULL AND legal_hold = false
     AND NOW() - deleted_at > (retention_days || ' days')::INTERVAL];
    an interval of [n] days compares as [n] times 24 hours. *)
Definition expired (t : Z) (d : Document) : bool :=
  bool_decide (doc_status d = DELETED) &&
  match doc_deletedAt d with
  | Some deleted_at =>
      negb (doc_legalHold d) &&
      (doc_retentionDays d * MS_PER_DAY <? t - deleted_at)
  | None => false
  end.

Definition sql_select_expired : Statement Document :=
  mkStatement
    "SELECT id, tenant_id, name, deleted_at, retention_days FROM documents WHERE status = $1 AND deleted_at IS NOT NULL AND legal_hold = false AND NOW() - deleted_at > (retention_days || ' days')::INTERVAL"
    (fun s t => (List.filter (expired t) (documents s), s)).

Definition mark_deleting (t : Z) (d : Document) : Document :=
  mkDocument (doc_id d) (doc_tenantId d) (doc_name d) (doc_ownerId d)
    DELETING (doc_legalHold d) (doc_deletedAt d) (doc_retentionDays d)
    (doc_createdAt d) t.

Definition sql_mark_deleting (documentId : string) : Statement unit :=
  mkStatement
    "UPDATE documents SET status = $1, updated_at = NOW() WHERE id = $2"
    (fun s t =>
       ([], set_documents s
              (map (fun d => if bool_decide (doc_id d = documentId)
                             then mark_deleting t d else d)
                   (documents s)))).

Definition handler : M unit :=
  try_catch
    (let* expiredDocuments := query sql_select_expired in
     if (length expiredDocuments =? 0)%nat
     then ret tt
     else
       for_each expiredDocuments
         (fun doc =>
            try_catch (query (sql_mark_deleting (doc_id doc)) ;; ret tt)
                      (fun _ => ret tt)))
    (fun error => throw error).

End Retention.

(** ** Scheduling of hard deletes (in [src/workers/processing-failure.ts]) *)

(** [sqsClient.send(new SendMessageCommand(input))] on the hard delete
    queue.  Whether the service takes the message is the script's: a
    refusal (of an attribute without a value, for one) is a fault. *)
Definition sqs_SendMessage (input : SendMessageInput) : M unit :=
  external ;;
  let* s := get_stores in
  put_stores (set_hard_delete_queue s (hard_delete_queue s ++ [input])).

Module ScheduleHardDelete.

(** Insertion into a list that is ordered by [updated_at], behind the rows
    of the same time. *)
Fixpoint insert_by_updated_at (d : Document) (l : list Document)
  : list Document :=
  match l with
  | [] => [d]
  | x :: rest =>
      if doc_updatedAt d <? doc_updatedAt x
      then d :: l
      else x :: insert_by_updated_at d rest
  end.

Definition order_by_updated_at (l : list Document) : list Document :=
  fold_right insert_by_updated_at [] l.

(** The rows carry the three selected columns [id], [tenant_id], [name]. *)
Definition sql_select_deleting : Statement JsObject :=
  mkStatement
    "SELECT id, tenant_id, name FROM documents WHERE status = $1 ORDER BY updated_at ASC LIMIT 100"
    (fun s _ =>
       (map (pg_row ["id"; "tenant_id"; "name"])
            (take 100
               (order_by_updated_at
                  (List.filter
                     (fun d => bool_decide (doc_status d = DELETING))
                     (documents s)))), s)).

(** The job reads [doc.id] and [doc.tenantId] of each row. *)
Definition handler : M unit :=
  try_catch
    (let* documentsToDelete := query sql_select_deleting in
     if (length documentsToDelete =? 0)%nat
     then ret tt
     else
       for_each documentsToDelete
         (fun doc =>
            try_catch
              (sqs_SendMessage
                 (mkSendMessageInput
                    (json_object [("documentId", doc !! "id");
                                  ("tenantId", doc !! "tenantId")])
                    [("documentId", doc !! "id");
                     ("tenantId", doc !! "tenantId")]))
              (fun _ => ret tt)))
    (fun error => throw error).

End ScheduleHardDelete.

(** ** The object store *)

(** The bucket is the list of its keys, which S3 lists in ascending order;
    a continuation token stands for the last key of the page it came
    with. *)
Definition object_after (continuationToken : option string) (key : string)
  : bool :=
  match continuationToken with
  | None => true
  | Some t => String.ltb t key
  end.

Definition MAX_KEYS : nat := 1000.

(** [s3Client.send(new ListObjectsV2Command {Prefix, ContinuationToken})]:
    [Contents] and [NextContinuationToken].  A page holds at most
    [MAX_KEYS] keys, and fewer when the script of page sizes says so, but
    at least one when a key is left. *)
Definition s3_ListObjectsV2 (prefix : string)
    (continuationToken : option string) : M (list string * option string) :=
  external ;;
  fun w =>
    let size :=
      match page_sizes w with
      | [] => MAX_KEYS
      | n :: _ => Nat.min MAX_KEYS (S n)
      end in
    let matching :=
      List.filter
        (fun key => String.prefix prefix key &&
                    object_after continuationToken key)
        (bucket (stores w)) in
    let contents := take size matching in
    let next :=
      if (size <? length matching)%nat then last contents else None in
    (inr (contents, next), set_page_sizes w (tail (page_sizes w))).

(** [s3Client.send(new DeleteObjectsCommand {Delete: {Objects, Quiet}})] *)
Definition s3_DeleteObjects (keys : list string) : M unit :=
  external ;;
  let* s := get_stores in
  put_stores
    (set_bucket s
       (List.filter (fun key => negb (bool_decide (key ∈ keys)))
                    (bucket s))).

(** ** The hard delete worker ([src/workers/hard-delete-worker.ts]) *)

Module HardDelete.

(** The [do ... while (continuationToken)] loop, with a bound on its
    iterations: every iteration that asks for another one has deleted a
    key, so that the bound of [deleteObjectsWithPrefix] below is never
    reached ([deleteObjectsWithPrefix_bound]). *)
Fixpoint deleteObjectsWithPrefix_from (bound : nat) (prefix : string)
    (continuationToken : option string) : M unit :=
  match bound with
  | O => throw (JsError "Error" "iteration bound reached")
  | S bound' =>
      let* listResponse := s3_ListObjectsV2 prefix continuationToken in
      let contents := fst listResponse in
      (if (0 <? length contents)%nat
       then s3_DeleteObjects contents
       else ret tt) ;;
      match snd listResponse with
      | None | Some "" => ret tt
      | Some token =>
          deleteObjectsWithPrefix_from bound' prefix (Some token)
      end
  end.

Definition deleteObjectsWithPrefix (prefix : string) : M unit :=
  fun w =>
    deleteObjectsWithPrefix_from (S (length (bucket (stores w)))) prefix
      None w.

Definition documents_prefix (tenantId documentId : string) : string :=
  tenantId ++ "/documents/" ++ documentId ++ "/".
Definition derived_prefix (tenantId documentId : string) : string :=
  tenantId ++ "/derived/" ++ documentId ++ "/".

Definition deleteS3Objects (tenantId documentId : string) : M unit :=
  deleteObjectsWithPrefix (documents_prefix tenantId documentId) ;;
  deleteObjectsWithPrefix (derived_prefix tenantId documentId).

Definition sql_select_document (documentId tenantId : string)
  : Statement Document :=
  mkStatement
    "SELECT id, tenant_id, name, status FROM documents WHERE id = $1 AND tenant_id = $2"
    (fun s _ =>
       (List.filter
          (fun d => bool_decide (doc_id d = documentId) &&
                    bool_decide (doc_tenantId d = tenantId))
          (documents s), s)).

Definition sql_select_versions (documentId : string)
  : Statement DocumentVersion :=
  mkStatement
    "SELECT id, s3_key, s3_bucket FROM document_versions WHERE document_id = $1"
    (fun s _ =>
       (List.filter (fun v => bool_decide (ver_documentId v = documentId))
                    (document_versions s), s)).

Definition sql_delete_processing_jobs (documentId : string)
  : Statement unit :=
  mkStatement "DELETE FROM processing_jobs WHERE document_id = $1"
    (fun s _ =>
       ([], set_processing_jobs s
              (List.filter
                 (fun j => negb (bool_decide (job_documentId j = documentId)))
                 (processing_jobs s)))).

Definition sql_delete_document_versions (documentId : string)
  : Statement unit :=
  mkStatement "DELETE FROM document_versions WHERE document_id = $1"
    (fun s _ =>
       ([], set_document_versions s
              (List.filter
                 (fun v => negb (bool_decide (ver_documentId v = documentId)))
                 (document_versions s)))).

Definition sql_delete_document (documentId : string) : Statement unit :=
  mkStatement "DELETE FROM documents WHERE id = $1"
    (fun s _ =>
       ([], set_documents s
              (List.filter
                 (fun d => negb (bool_decide (doc_id d = documentId)))
                 (documents s)))).

(** [JSON.parse(record.body)] is the message itself. *)
Definition processMessage (message : HardDeleteMessage) : M unit :=
  let documentId := msg_documentId message in
  let tenantId := msg_tenantId message in
  try_catch
    (let* document :=
       queryOne (sql_select_document documentId tenantId) in
     match document with
     | None => ret tt
     | Some document =>
         if negb (bool_decide (doc_status document = DELETING))
         then ret tt
         else
           let* versions := query (sql_select_versions documentId) in
           deleteS3Objects tenantId documentId ;;
           withTransaction
             (query (sql_delete_processing_jobs documentId) ;;
              query (sql_delete_document_versions documentId) ;;
              query (sql_delete_document documentId) ;;
              ret tt)
     end)
    (fun error => throw error).

Definition handler (records : list HardDeleteMessage) : M unit :=
  for_each records
    (fun record =>
       try_catch (processMessage record) (fun error => throw error)).

End HardDelete.

(** * Predicates of the statements and proof automation *)

(** The item of [tenantId] carries count [c] and limit [L]. *)
Definition slot_is (w : World) (tenantId : string) (c L : Z) : Prop :=
  ∃ u, dynamo (stores w) !! tenantId = Some (mkItem (Some c) (Some L) u).

(** The tenant has limit [L] and its count is within it. *)
Definition has_slot (w : World) (tenantId : string) (L : Z) : Prop :=
  ∃ c, slot_is w tenantId c L ∧ 0 <= c <= L.

(** The tenant has no item yet, or its count is within its stored limit. *)
Definition fresh_or_has_slot (w : World) (tenantId : string) : Prop :=
  dynamo (stores w) !! tenantId = None ∨ ∃ L, has_slot w tenantId L.

(** A caller asks for no limit or for a limit that is not negative. *)
Definition nonneg_request (tc : Z * Call) : Prop :=
  match snd tc with
  | Acquire _ (Some n) => 0 <= n
  | _ => True
  end.

Ltac run_monad :=
  cbv [acquireConcurrencySlot releaseConcurrencySlot incrementConcurrency
       decrementConcurrency getCurrentConcurrency dynamodb_UpdateItem
       dynamodb_GetItem try_catch try_finally bind ret throw external
       get_stores put_stores get_now log_statement].


(** [after] is [before] with every row selected by [where_] changed as [R]
    says and every other row left as it is. *)
Definition rows_changed {A} (where_ : A -> bool) (R : A -> A -> Prop)
    (before after : list A) : Prop :=
  Forall2 (fun r r' => if where_ r then R r r' else r' = r) before after.

(** [after] is [before] with every row that satisfies [P] changed as [R]
    says and every other row as it was. *)
Definition rows_updated {A} (P : A -> Prop) (R : A -> A -> Prop)
    (before after : list A) : Prop :=
  Forall2 (fun r r' => (P r → R r r') ∧ (¬ P r → r' = r)) before after.

(** The row is the job of this document, version and job type. *)
Definition is_job_of (documentId versionId : string) (jobType : JobType)
    (j : ProcessingJob) : Prop :=
  job_documentId j = documentId ∧ job_versionId j = versionId ∧
  job_jobType j = jobType.

(** The identity of a job row: everything but status, attempts, error
    message and the two timestamps. *)
Definition same_job (j j' : ProcessingJob) : Prop :=
  job_id j' = job_id j ∧ job_documentId j' = job_documentId j ∧
  job_versionId j' = job_versionId j ∧ job_jobType j' = job_jobType j.

Definition row_pending (j j' : ProcessingJob) : Prop :=
  same_job j j' ∧ job_status j' = PENDING ∧
  job_attempts j' = job_attempts j + 1.

Definition row_running (t : Z) (j j' : ProcessingJob) : Prop :=
  same_job j j' ∧ job_status j' = RUNNING ∧ job_startedAt j' = Some t ∧
  job_attempts j' = job_attempts j.

Definition row_completed (status : JobStatus) (t : Z)
    (j j' : ProcessingJob) : Prop :=
  same_job j j' ∧ job_status j' = status ∧ job_completedAt j' = Some t ∧
  job_attempts j' = job_attempts j.

(** The world in which the operation is invoked for the [k]-th further
    time, when [w] is the world of the invocation at [attempt] and every
    invocation in between was followed by its backoff sleep. *)
Fixpoint world_before_attempt {T} (operation : M T) (cfg : RetryConfig)
    (attempt : Z) (k : nat) (w : World) : World :=
  match k with
  | O => w
  | S k' =>
      world_before_attempt operation cfg (attempt + 1) k'
        (snd (sleep (calculateExponentialBackoff attempt (baseDelayMs cfg)
                       (maxDelayMs cfg))
                    (snd (operation w))))
  end.

(** Everything of a document row but status, deletion time and update
    time. *)
Definition same_document (d d' : Document) : Prop :=
  doc_id d' = doc_id d ∧ doc_tenantId d' = doc_tenantId d ∧
  doc_name d' = doc_name d ∧ doc_ownerId d' = doc_ownerId d ∧
  doc_legalHold d' = doc_legalHold d ∧
  doc_retentionDays d' = doc_retentionDays d ∧
  doc_createdAt d' = doc_createdAt d.

Definition row_soft_deleted (t : Z) (d d' : Document) : Prop :=
  same_document d d' ∧ doc_status d' = DELETED ∧
  doc_deletedAt d' = Some t ∧ doc_updatedAt d' = t.

Definition has_id (documentId : string) (d : Document) : bool :=
  bool_decide (doc_id d = documentId).

Definition row_deleting (t : Z) (d d' : Document) : Prop :=
  same_document d d' ∧ doc_status d' = DELETING ∧
  doc_deletedAt d' = doc_deletedAt d ∧ doc_updatedAt d' = t.

(** The sweep's selection in the words of the specification: soft deleted,
    not under legal hold, and deleted more than [retentionDays] days
    ago. *)
Definition past_retention (t : Z) (d : Document) : Prop :=
  doc_status d = DELETED ∧ doc_legalHold d = false ∧
  ∃ deletedAt, doc_deletedAt d = Some deletedAt ∧
               t - deletedAt > doc_retentionDays d * (24 * 60 * 60 * 1000).

(** The order in which S3 lists keys, and a bucket in that order. *)
Definition key_lt (a b : string) : Prop := String.ltb a b = true.
Definition ascending (keys : list string) : Prop :=
  StronglySorted key_lt keys.

(** [w'] is [w] but for objects that are gone from the bucket, and for the
    scripts of faults and page sizes. *)
Definition s3_only (w w' : World) : Prop :=
  now w' = now w ∧ sql_log w' = sql_log w ∧ timers w' = timers w ∧
  ∃ keep,
    stores w' =
      set_bucket (stores w) (List.filter keep (bucket (stores w))).

(** The key is under neither prefix of the document. *)
Definition outside_document (tenantId documentId key : string) : bool :=
  negb (String.prefix (HardDelete.documents_prefix tenantId documentId) key)
  && negb (String.prefix (HardDelete.derived_prefix tenantId documentId) key).

(** The row that the worker's [SELECT ... WHERE id = $1 AND tenant_id = $2]
    returns first. *)
Definition find_tenant_document (s : Stores) (message : HardDeleteMessage)
  : option Document :=
  head (List.filter
          (fun d => bool_decide (doc_id d = msg_documentId message) &&
                    bool_decide (doc_tenantId d = msg_tenantId message))
          (documents s)).

(** The SQL tables of two states hold the same rows. *)
Definition same_tables (s s' : Stores) : Prop :=
  documents s' = documents s ∧
  document_versions s' = document_versions s ∧
  processing_jobs s' = processing_jobs s ∧
  audit_logs s' = audit_logs s.


(** Whatever the world and the outcome, the computation takes the stores to
    stores that [P] relates them with. *)
Definition keeps (P : Stores -> Stores -> Prop) {A} (m : M A) : Prop :=
  ∀ w, P (stores w) (stores (snd (m w))).

(** ** Sample data *)

Definition no_stores : Stores := mkStores ∅ [] [] [] [] [] [].

Definition sample_job : ProcessingJob :=
  mkProcessingJob "job-1" "doc-1" "ver-1" OCR PENDING 0 None None None.

Definition sample_request : ProcessingRequest :=
  mkProcessingRequest "doc-1" "ver-1" "tenant-1" OCR None.

Definition database_error : Error := JsError "Error" "Database error".

(** Tenant [tenant-1] holds [count] of [limit] slots. *)
Definition tenant_world (count limit : Z) (f : list (option Error)) : World :=
  mkWorld
    (set_processing_jobs
       (set_dynamo no_stores
          {[ "tenant-1" := mkItem (Some count) (Some limit) None ]})
       [sample_job])
    1000 f [] [] [].

(** The thumbnail job of the same version, and a world with both jobs in
    which [tenant-1] holds [count] of [limit] slots. *)
Definition thumbnail_job : ProcessingJob :=
  mkProcessingJob "job-2" "doc-1" "ver-1" THUMBNAIL PENDING 0 None None None.

Definition stage_world (count limit : Z) : World :=
  mkWorld
    (set_processing_jobs
       (set_dynamo no_stores
          {[ "tenant-1" := mkItem (Some count) (Some limit) None ]})
       [sample_job; thumbnail_job])
    1000 [] [] [] [].

(** A world without any data, at time [1000]. *)
Definition empty_world : World := mkWorld no_stores 1000 [] [] [] [].

(** Five calls of [tenant-1], each asking for a limit of two. *)
Definition sample_calls : list (Z * Call) :=
  [(1, Acquire "tenant-1" (Some 2)); (2, Acquire "tenant-1" (Some 2));
   (3, Acquire "tenant-1" (Some 2)); (4, Release "tenant-1");
   (5, Release "tenant-1")].

Definition day : Z := 24 * 60 * 60 * 1000.

(** A document of [tenant-1] that was soft deleted at [deletedAt], under a
    retention of 30 days. *)
Definition deleted_document (id : string) (deletedAt : Z) : Document :=
  mkDocument id "tenant-1" "report.pdf" "user-1" DELETED false
    (Some deletedAt) 30 0 deletedAt.

(** At day 100: [doc-old] was deleted 31 days ago, [doc-new] 15 days
    ago. *)
Definition retention_world : World :=
  mkWorld
    (set_documents no_stores
       [deleted_document "doc-old" (69 * day);
        deleted_document "doc-new" (85 * day)])
    (100 * day) [] [] [] [].

(** [doc-1] of [tenant-1] in status [DELETING], with a version, two jobs,
    an audit entry, and five objects of which four are its own; the rows
    and objects of [doc-2] are not to be touched.  S3 returns pages of two
    keys. *)
Definition hard_delete_stores : Stores :=
  mkStores ∅
    [mkDocument "doc-1" "tenant-1" "a.pdf" "user-1" DELETING false
       (Some 0) 30 0 0;
     mkDocument "doc-2" "tenant-1" "b.pdf" "user-1" READY false None 30 0 0]
    [mkDocumentVersion "ver-1" "doc-1" 1
       "tenant-1/documents/doc-1/ver-1/original" "bucket";
     mkDocumentVersion "ver-2" "doc-2" 1
       "tenant-1/documents/doc-2/ver-2/original" "bucket"]
    [mkProcessingJob "job-1" "doc-1" "ver-1" OCR COMPLETED 1 None None None;
     mkProcessingJob "job-2" "doc-1" "ver-1" THUMBNAIL COMPLETED 1 None None
       None;
     mkProcessingJob "job-3" "doc-2" "ver-2" OCR COMPLETED 1 None None None]
    [mkAuditLog "tenant-1" (Some "user-1") DELETE (Some "doc-1") None None]
    ["tenant-1/derived/doc-1/ver-1/ocr.txt";
     "tenant-1/derived/doc-1/ver-1/thumb-128.png";
     "tenant-1/derived/doc-1/ver-1/thumb-256.png";
     "tenant-1/documents/doc-1/ver-1/original";
     "tenant-1/documents/doc-2/ver-2/original"]
    [].

Definition hard_delete_world (f : list (option Error)) : World :=
  mkWorld hard_delete_stores 1000 f [1; 1; 1; 1; 1; 1; 1; 1]%nat [] [].

Definition hard_delete_message : HardDeleteMessage :=
  mkHardDeleteMessage "doc-1" "tenant-1".

(** A request of [user-1] of [tenant-1] to delete [doc-1], and a world in
    which [doc-1] is [READY] under legal hold. *)
Definition delete_event : DeleteDocument.Event :=
  DeleteDocument.mkEvent
    (inr (DeleteDocument.mkAuthContext "user-1" "tenant-1"
            "user@example.com" []))
    (Some "doc-1") (Some "192.168.1.1").

Definition held_document : Document :=
  mkDocument "doc-1" "tenant-1" "test.pdf" "user-1" READY true None 30 0 0.

Definition held_world : World :=
  mkWorld (set_documents no_stores [held_document]) 1000 [] [] [] [].

Definition validation_error : Error := JsError "ValidationError" "bad input".
Definition timeout_error : Error := JsError "TimeoutError" "timed out".

(** A thumbnail of an image of 1.5 MB, an OCR job of 150 pages, and a scan
    of one byte. *)
Definition thumbnail_task : TaskMetadata :=
  mkTaskMetadata "THUMBNAIL" (Some 1572864) None.
Definition long_ocr_task : TaskMetadata :=
  mkTaskMetadata "OCR" None (Some 150).
Definition tiny_scan_task : TaskMetadata :=
  mkTaskMetadata "MALWARE_SCAN" (Some 1) None.

(** * Further parts of the sources *)

(** [n] acquisitions of one tenant in a row, with the outcome of each. *)
Fixpoint acquire_repeatedly (n : nat) (tenantId : string)
    (concurrencyLimit : option Z) (w : World)
  : list (Error + ConcurrencyStatus) * World :=
  match n with
  | O => ([], w)
  | S n' =>
      let (outcome, w1) := acquireConcurrencySlot tenantId concurrencyLimit w in
      let (outcomes, w2) :=
        acquire_repeatedly n' tenantId concurrencyLimit w1 in
      (outcome :: outcomes, w2)
  end.

(** The status that the admission controller reports for count [c] of
    limit [L]. *)
Definition status_of (tenantId : string) (c L : Z) : ConcurrencyStatus :=
  mkConcurrencyStatus tenantId c L (Z.max 0 (L - c)).

(** The world after a write of count [c] and limit [L] for the tenant. *)
Definition with_slot (w : World) (tenantId : string) (c L : Z) : World :=
  set_stores w
    (set_dynamo (stores w)
       (<[tenantId := mkItem (Some c) (Some L) (Some (now w))]>
          (dynamo (stores w)))).

(** A job row after a whole stage: started and finished at [t]. *)
Definition row_finished (status : JobStatus) (t : Z)
    (j j' : ProcessingJob) : Prop :=
  same_job j j' ∧ job_status j' = status ∧ job_startedAt j' = Some t ∧
  job_completedAt j' = Some t ∧ job_attempts j' = job_attempts j.

(** [needle] occurs in [hay]. *)
Definition occurs_in (needle hay : string) : Prop :=
  ∃ before after, hay = before ++ needle ++ after.

(** An invocation settles a retry when it returns or throws an error that
    is not retryable. *)
Definition settles {T} (cfg : RetryConfig) (outcome : Error + T) : bool :=
  match outcome with
  | inr _ => true
  | inl error => negb (isRetryableError error (retryableErrors cfg))
  end.

(** The delays of the backoff sleeps after the attempts [1 .. k], latest
    first, as [timers] holds them. *)
Definition backoff_delays (cfg : RetryConfig) (attempt : Z) (k : nat)
  : list Q :=
  rev (map (fun a =>
              calculateExponentialBackoff a (baseDelayMs cfg)
                (maxDelayMs cfg))
           (seqZ attempt (Z.of_nat k))).

(** ** Timeouts (the timeout module, in [src/shared/s3.ts]) *)

Record TaskExecutionMetadata : Type := mkTaskExecutionMetadata {
  startTime : Z;
  timeoutMs : Q;
  task_workerType : WorkerType
}.

Definition getTimeoutForWorker (workerType : WorkerType) : Q :=
  match workerType with
  | LAMBDA => LAMBDA_TIMEOUT_MS
  | FARGATE => FARGATE_TIMEOUT_MS
  end.

(** [Date.now()] is the clock of the world. *)
Definition createTaskExecutionMetadata (workerType : WorkerType)
  : M TaskExecutionMetadata :=
  let* t := get_now in
  ret (mkTaskExecutionMetadata t (getTimeoutForWorker workerType) workerType).

Definition getRemainingTime (metadata : TaskExecutionMetadata) : M Q :=
  let* t := get_now in
  let elapsed := t - startTime metadata in
  ret (Qmax 0 (timeoutMs metadata - inject_Z elapsed)).

Definition hasTimedOut (metadata : TaskExecutionMetadata) : M bool :=
  let* remaining := getRemainingTime metadata in
  ret (Qeq_bool remaining 0).

(** The quotient is a rational; [timeoutMs] is not zero in a record that
    [createTaskExecutionMetadata] made. *)
Definition getTimeoutProgress (metadata : TaskExecutionMetadata) : M Q :=
  let* t := get_now in
  let elapsed := t - startTime metadata in
  ret (Qmin 1 (inject_Z elapsed / timeoutMs metadata)).

(** The row of [audit_logs] that [createAuditLog] writes. *)
Definition audit_entry (params : CreateAuditLogParams) : AuditLog :=
  mkAuditLog (p_tenantId params) (or_null (p_userId params))
    (p_action params) (or_null (p_documentId params))
    (or_null (p_ipAddress params)) (p_metadata params).


(** The row is as before, or it was expired and is now marked. *)
Definition kept_or_marked (t : Z) (d d' : Document) : Prop :=
  d' = d ∨ (Retention.expired t d = true ∧ d' = Retention.mark_deleting t d).

(** The documents after a sweep at [t] in which every [UPDATE] ran: the
    rows whose id is the id of an expired document are marked. *)
Definition swept (t : Z) (docs : list Document) : list Document :=
  map (fun d =>
         if existsb (fun doc => bool_decide (doc_id d = doc_id doc))
                    (List.filter (Retention.expired t) docs)
         then Retention.mark_deleting t d else d)
      docs.


(** ** Authorisation ([src/shared/auth.ts]) *)

Definition BadRequestError (message : string) : Error :=
  AppError "BadRequestError" 400 "BAD_REQUEST" message.
Definition UnauthorizedError (message : string) : Error :=
  AppError "UnauthorizedError" 401 "UNAUTHORIZED" message.

(** [s.split(separator)] for a separator of one character. *)
Fixpoint js_split (separator : ascii) (s : string) : list string :=
  match s with
  | EmptyString => [EmptyString]
  | String c rest =>
      match js_split separator rest with
      | [] => []
      | first :: others =>
          if Ascii.eqb c separator
          then EmptyString :: first :: others
          else String c first :: others
      end
  end.

(** [extractToken(authHeader)]: a function that throws and touches
    nothing, so its outcome is a sum. *)
Definition extractToken (authHeader : option string) : Error + string :=
  match authHeader with
  | None | Some "" => inl (UnauthorizedError "Missing authorization header")
  | Some authHeader =>
      let parts := js_split " " authHeader in
      match parts with
      | [scheme; token] =>
          if negb (String.eqb scheme "Bearer")
          then inl (UnauthorizedError "Invalid authorization header format")
          else inr token
      | _ => inl (UnauthorizedError "Invalid authorization header format")
      end
  end.

Definition hasAdminRole (authContext : DeleteDocument.AuthContext) : bool :=
  bool_decide ("admin" ∈ DeleteDocument.scopes authContext).

Definition hasScope (authContext : DeleteDocument.AuthContext)
    (scope : string) : bool :=
  bool_decide (scope ∈ DeleteDocument.scopes authContext).

Definition hasUploadScope (authContext : DeleteDocument.AuthContext)
  : bool :=
  existsb (fun s => String.eqb s "dms/upload" || String.eqb s "upload")
          (DeleteDocument.scopes authContext).

Definition validateUploadAgentToken
    (authContext : DeleteDocument.AuthContext) : Error + unit :=
  if negb (hasUploadScope authContext)
  then inl (UnauthorizedError "Token does not have upload scope")
  else
    let allowedScopes := ["dms/upload"; "upload"; "openid"] in
    let hasDisallowedScope :=
      existsb (fun scope => negb (bool_decide (scope ∈ allowedScopes)))
              (DeleteDocument.scopes authContext) in
    if hasDisallowedScope
    then inl (UnauthorizedError "Upload agent token has unauthorized scopes")
    else inr tt.

(** ** Request bodies *)

(** What a handler reads of [JSON.parse(event.body || '{}')] by
    destructuring one property: the parse or the destructuring throws, or
    the property is a boolean, or it is missing or something else. *)
Inductive BodyProperty : Type :=
| Unparseable (error : Error)
| NotABoolean
| Boolean (value : bool).

(** ** Legal hold ([setLegalHold], in [src/api/legal-hold.ts]) *)

Module LegalHold.

Record Event : Type := mkEvent {
  authentication : Error + DeleteDocument.AuthContext;
  pathParameters_id : option string;
  body_legalHold : BodyProperty;
  clientIp : option string
}.

Inductive Body : Type :=
| LegalHoldUpdated (documentId : string) (legalHold : bool) (updatedAt : Z)
| ErrorBody (code message : string) (timestamp : Z).

Record APIGatewayProxyResult : Type := mkResult {
  statusCode : Z;
  body : Body
}.

Definition sql_select_document (documentId : string)
  : Statement JsObject :=
  mkStatement
    "SELECT id, tenant_id, name, status, legal_hold FROM documents WHERE id = $1"
    (fun s _ =>
       (map (pg_row ["id"; "tenant_id"; "name"; "status"; "legal_hold"])
            (List.filter (fun d => bool_decide (doc_id d = documentId))
                         (documents s)), s)).

Definition with_legal_hold (legalHold : bool) (t : Z) (d : Document)
  : Document :=
  mkDocument (doc_id d) (doc_tenantId d) (doc_name d) (doc_ownerId d)
    (doc_status d) legalHold (doc_deletedAt d) (doc_retentionDays d)
    (doc_createdAt d) t.

Definition sql_set_legal_hold (legalHold : bool) (documentId : string)
  : Statement unit :=
  mkStatement
    "UPDATE documents SET legal_hold = $1, updated_at = NOW() WHERE id = $2"
    (fun s t =>
       ([], set_documents s
              (map (fun d => if bool_decide (doc_id d = documentId)
                             then with_legal_hold legalHold t d else d)
                   (documents s)))).

(** The [try] block of [setLegalHold].  [document] is the row as
    [queryOne] returns it; the handler reads its properties [tenantId],
    [name] and [legalHold]. *)
Definition setLegalHold_body (event : Event) : M APIGatewayProxyResult :=
  let* authContext :=
    match authentication event with
    | inl e => throw e
    | inr a => ret a
    end in
  let* documentId :=
    match pathParameters_id event with
    | None | Some "" => throw (NotFoundError "Document")
    | Some id => ret id
    end in
  let* legalHold :=
    match body_legalHold event with
    | Unparseable e => throw e
    | NotABoolean =>
        throw (BadRequestError "legalHold must be a boolean value")
    | Boolean b => ret b
    end in
  let* document := queryOne (sql_select_document documentId) in
  match document with
  | None => throw (NotFoundError "Document")
  | Some document =>
      if negb (js_strict_equal (document !! "tenantId")
                 (Some (JsString (DeleteDocument.tenantId authContext))))
      then throw (ForbiddenError
                    "Cannot modify document from different tenant")
      else
        query (sql_set_legal_hold legalHold documentId) ;;
        createAuditLog
          (mkCreateAuditLogParams (DeleteDocument.tenantId authContext)
             (if legalHold then LEGAL_HOLD_SET else LEGAL_HOLD_REMOVED)
             (Some (DeleteDocument.userId authContext)) (Some documentId)
             (clientIp event)
             (Some (json_properties
                      [("documentName", document !! "name");
                       ("previousLegalHold", document !! "legalHold");
                       ("newLegalHold", Some (JsBoolean legalHold))]))) ;;
        let* date := get_now in
        ret (mkResult 200 (LegalHoldUpdated documentId legalHold date))
  end.

Definition setLegalHold (event : Event) : M APIGatewayProxyResult :=
  try_catch (setLegalHold_body event)
    (fun error =>
       let* date := get_now in
       match error with
       | AppError _ statusCode code message =>
           ret (mkResult statusCode (ErrorBody code message date))
       | _ =>
           ret (mkResult 500
                  (ErrorBody "INTERNAL_SERVER_ERROR"
                             "Internal server error" date))
       end).

End LegalHold.

(** ** Permanent deletion (the handler of [src/unnamed/part_001]) *)

Module PermanentDelete.

Record Event : Type := mkEvent {
  authentication : Error + DeleteDocument.AuthContext;
  pathParameters_id : option string;
  body_confirm : BodyProperty;
  clientIp : option string
}.

(** The success body is [{status: 'deleting', documentId, message}]. *)
Inductive Body : Type :=
| DeletionInitiated (documentId : string)
| ErrorBody (code message : string) (timestamp : Z).

Record APIGatewayProxyResult : Type := mkResult {
  statusCode : Z;
  body : Body
}.

Definition sql_select_document (documentId : string)
  : Statement JsObject :=
  mkStatement
    "SELECT id, tenant_id, name, status, legal_hold FROM documents WHERE id = $1"
    (fun s _ =>
       (map (pg_row ["id"; "tenant_id"; "name"; "status"; "legal_hold"])
            (List.filter (fun d => bool_decide (doc_id d = documentId))
                         (documents s)), s)).

Definition mark_deleting (deletedAt t : Z) (d : Document) : Document :=
  mkDocument (doc_id d) (doc_tenantId d) (doc_name d) (doc_ownerId d)
    DELETING (doc_legalHold d) (Some deletedAt) (doc_retentionDays d)
    (doc_createdAt d) t.

(** [$2] is [new Date()]. *)
Definition sql_mark_deleting (documentId : string) (deletedAt : Z)
  : Statement unit :=
  mkStatement
    "UPDATE documents SET status = $1, deleted_at = $2, updated_at = NOW() WHERE id = $3"
    (fun s t =>
       ([], set_documents s
              (map (fun d => if bool_decide (doc_id d = documentId)
                             then mark_deleting deletedAt t d else d)
                   (documents s)))).

(** The [try] block of the handler.  [document] is the row as [queryOne]
    returns it; the handler reads its properties [tenantId], [legalHold],
    [status] and [name]. *)
Definition handler_body (event : Event) : M APIGatewayProxyResult :=
  let* authContext :=
    match authentication event with
    | inl e => throw e
    | inr a => ret a
    end in
  if negb (hasAdminRole authContext)
  then throw (ForbiddenError "Admin role required for permanent deletion")
  else
    let* documentId :=
      match pathParameters_id event with
      | None | Some "" => throw (NotFoundError "Document")
      | Some id => ret id
      end in
    let* _ :=
      match body_confirm event with
      | Unparseable e => throw e
      | Boolean true => ret tt
      | _ =>
          throw (BadRequestError
                   "Explicit confirmation required: set confirm to true")
      end in
    let* document := queryOne (sql_select_document documentId) in
    match document with
    | None => throw (NotFoundError "Document")
    | Some document =>
        if negb (js_strict_equal (document !! "tenantId")
                   (Some (JsString (DeleteDocument.tenantId authContext))))
        then throw (ForbiddenError
                      "Cannot delete document from different tenant")
        else if js_truthy (document !! "legalHold")
        then throw (ConflictError
                      "Cannot permanently delete document with active legal hold")
        else if js_strict_equal (document !! "status")
                  (Some (JsString "DELETING"))
        then throw (ConflictError "Document is already being deleted")
        else
          let* date := get_now in
          query (sql_mark_deleting documentId date) ;;
          sqs_SendMessage
            (mkSendMessageInput
               (json_object
                  [("documentId", Some (JsString documentId));
                   ("tenantId",
                    Some (JsString (DeleteDocument.tenantId authContext)))])
               []) ;;
          createAuditLog
            (mkCreateAuditLogParams (DeleteDocument.tenantId authContext)
               PERMANENT_DELETE
               (Some (DeleteDocument.userId authContext)) (Some documentId)
               (clientIp event)
               (Some (json_properties
                        [("documentName", document !! "name");
                         ("previousStatus", document !! "status");
                         ("bypassedRetention", Some (JsBoolean true))]))) ;;
          ret (mkResult 200 (DeletionInitiated documentId))
    end.

Definition handler (event : Event) : M APIGatewayProxyResult :=
  try_catch (handler_body event)
    (fun error =>
       let* date := get_now in
       match error with
       | AppError _ statusCode code message =>
           ret (mkResult statusCode (ErrorBody code message date))
       | _ =>
           ret (mkResult 500
                  (ErrorBody "INTERNAL_SERVER_ERROR"
                             "Internal server error" date))
       end).

End PermanentDelete.

(** ** Predicates of the handlers *)

(** The character occurs in the string. *)
Fixpoint has_char (c : ascii) (s : string) : bool :=
  match s with
  | EmptyString => false
  | String x rest => Ascii.eqb x c || has_char c rest
  end.

(** ** Objects of the bucket *)

(** The keys of a bucket with [key] among them, in listing order. *)
Fixpoint insert_key (key : string) (keys : list string) : list string :=
  match keys with
  | [] => [key]
  | k :: rest =>
      if String.eqb key k then keys
      else if String.ltb key k then key :: keys
      else k :: insert_key key rest
  end.

(** [s3.send(new HeadObjectCommand {Bucket, Key})]: the SDK throws an
    error named [NotFound] for a key that the bucket does not hold. *)
Definition s3_HeadObject (key : string) : M unit :=
  external ;;
  let* s := get_stores in
  if bool_decide (key ∈ bucket s)
  then ret tt
  else throw (JsError "NotFound" "UnknownError").

(** [s3.send(new GetObjectCommand {Bucket, Key})].  The content of an
    object is not part of the stores; an object that exists has a
    body. *)
Definition s3_GetObject (key : string) : M unit :=
  external ;;
  let* s := get_stores in
  if bool_decide (key ∈ bucket s)
  then ret tt
  else throw (JsError "NoSuchKey" "The specified key does not exist.").

(** [s3.send(new PutObjectCommand {Bucket, Key, Body})] *)
Definition s3_PutObject (key : string) : M unit :=
  external ;;
  let* s := get_stores in
  put_stores (set_bucket s (insert_key key (bucket s))).

(** ** Idempotency checks ([src/unnamed/part_008], first module) *)

(** There is one bucket, so that the bucket name plays no role.  No error
    of the model carries [$metadata]; the test for a 404 is the test of
    the name. *)
Definition checkS3ObjectExists (bucketName key : string) : M bool :=
  try_catch (s3_HeadObject key ;; ret true)
    (fun error =>
       if String.eqb (error_name error) "NotFound"
       then ret false
       else throw error).

(** The loop of [checkArtifactsExist], with the array [existingKeys] that
    it pushes to. *)
Fixpoint checkArtifactsExist_loop (bucketName : string) (keys : list string)
    (existingKeys : list string) : M (list string) :=
  match keys with
  | [] => ret existingKeys
  | key :: rest =>
      let* exists_ := checkS3ObjectExists bucketName key in
      checkArtifactsExist_loop bucketName rest
        (if exists_ then existingKeys ++ [key] else existingKeys)
  end.

(** [{allExist, existingKeys}] as a pair. *)
Definition checkArtifactsExist (bucketName : string) (keys : list string)
  : M (bool * list string) :=
  let* existingKeys := checkArtifactsExist_loop bucketName keys [] in
  ret ((length existingKeys =? length keys)%nat, existingKeys).

(** ** Thumbnails ([src/workers/generate-thumbnail.ts]) *)

Module Thumbnail.

Record ThumbnailEvent : Type := mkThumbnailEvent {
  documentId : string;
  versionId : string;
  tenantId : string;
  s3Bucket : string;
  s3Key : string;
  sizes : list Z;
  kmsKeyId : option string
}.

Record ThumbnailResult : Type := mkThumbnailResult {
  result_documentId : string;
  result_versionId : string;
  thumbnails : list (Z * string)
}.

Definition thumbnail_key (event : ThumbnailEvent) (size : Z) : string :=
  tenantId event ++ "/derived/" ++ documentId event ++ "/"
    ++ versionId event ++ "/thumbnails/" ++ pretty size ++ "x"
    ++ pretty size ++ ".jpg".

Definition downloadFile (bucketName key : string) : M unit :=
  s3_GetObject key.

(** [sharp(imageBuffer).resize(size, size, ...).jpeg(...).toBuffer()]:
    [resize] throws unless the width is a positive integer; [toBuffer]
    rejects what it cannot decode, and whether it does is up to the fault
    script. *)
Definition generateThumbnail (size : Z) : M unit :=
  if 0 <? size
  then external
  else throw (JsError "Error"
                ("Expected positive integer for width but received "
                   ++ pretty size ++ " of type number")).

Definition uploadThumbnail (bucketName key : string)
    (kmsKeyId : option string) : M unit :=
  s3_PutObject key.

(** The loop over [sizes], with the array [thumbnails] that it pushes
    to. *)
Fixpoint generate_each (event : ThumbnailEvent) (existingKeys : list string)
    (sizes : list Z) (thumbnails : list (Z * string))
  : M (list (Z * string)) :=
  match sizes with
  | [] => ret thumbnails
  | size :: rest =>
      let thumbnailKey := thumbnail_key event size in
      if bool_decide (thumbnailKey ∈ existingKeys)
      then
        generate_each event existingKeys rest
          (thumbnails ++ [(size, thumbnailKey)])
      else
        generateThumbnail size ;;
        uploadThumbnail (s3Bucket event) thumbnailKey (kmsKeyId event) ;;
        generate_each event existingKeys rest
          (thumbnails ++ [(size, thumbnailKey)])
  end.

Definition handler (event : ThumbnailEvent) : M ThumbnailResult :=
  try_catch
    (let expectedThumbnailKeys := map (thumbnail_key event) (sizes event) in
     let* check :=
       checkArtifactsExist (s3Bucket event) expectedThumbnailKeys in
     let (allExist, existingKeys) := check in
     if allExist
     then
       ret (mkThumbnailResult (documentId event) (versionId event)
              (map (fun size => (size, thumbnail_key event size))
                   (sizes event)))
     else
       downloadFile (s3Bucket event) (s3Key event) ;;
       let* thumbnails :=
         generate_each event existingKeys (sizes event) [] in
       ret (mkThumbnailResult (documentId event) (versionId event)
              thumbnails))
    (fun error => throw error).

End Thumbnail.

(** ** Further sample data *)

(** An operation that times out until two backoff sleeps have passed. *)
Definition flaky_operation : M unit :=
  fun w =>
    if (length (timers w) <? 2)%nat
    then (inl timeout_error, w)
    else (inr tt, w).

Definition no_attempts : PartialRetryConfig :=
  mkPartialRetryConfig (Some 0) None None None.

(** The sweep of [retention_world] when the [SELECT] runs and the first
    [UPDATE] fails. *)
Definition retention_faulty_world : World :=
  set_faults retention_world [None; Some database_error].

Definition admin_context : DeleteDocument.AuthContext :=
  DeleteDocument.mkAuthContext "admin-1" "tenant-1" "admin@example.com"
    ["admin"].

Definition user_context : DeleteDocument.AuthContext :=
  DeleteDocument.mkAuthContext "user-1" "tenant-1" "user@example.com" [].

(** [doc-1] of [tenant-1], [READY] and not under legal hold, with a
    retention of 30 days. *)
Definition ready_document : Document :=
  mkDocument "doc-1" "tenant-1" "test.pdf" "user-1" READY false None 30 0 0.

Definition ready_world (f : list (option Error)) : World :=
  mkWorld (set_documents no_stores [ready_document]) 1000 f [] [] [].

Definition hold_event : LegalHold.Event :=
  LegalHold.mkEvent (inr user_context) (Some "doc-1") (Boolean true)
    (Some "192.168.1.1").

Definition permanent_delete_event (documentId : string)
  : PermanentDelete.Event :=
  PermanentDelete.mkEvent (inr admin_context) (Some documentId)
    (Boolean true) (Some "192.168.1.1").

(** Thumbnails of 128 and 256 pixels for an image that is in the bucket,
    the smaller one being there already. *)
Definition thumbnail_event : Thumbnail.ThumbnailEvent :=
  Thumbnail.mkThumbnailEvent "doc-1" "ver-1" "tenant-1" "bucket"
    "tenant-1/documents/doc-1/ver-1/original" [128; 256] None.

Definition thumbnail_world : World :=
  mkWorld
    (set_bucket no_stores
       ["tenant-1/derived/doc-1/ver-1/thumbnails/128x128.jpg";
        "tenant-1/documents/doc-1/ver-1/original"])
    1000 [] [] [] [].

(** * Properties *)

(** ** The admission controller *)

(** What a call to [incrementConcurrency] does to the stores: nothing, or
    the write of its update expression. *)
Lemma incrementConcurrency_stores tenantId r w :
  stores (snd (incrementConcurrency tenantId r w)) = stores w ∨
  ∃ item',
    increment_expression (js_or r DEFAULT_CONCURRENCY_LIMIT)
      (dynamo (stores w) !! tenantId) (now w) = Some item' ∧
    stores (snd (incrementConcurrency tenantId r w)) =
      set_dynamo (stores w) (<[tenantId := item']> (dynamo (stores w))).
Proof.
  run_monad.
  destruct (faults w) as [|[e|] f] eqn:Hf; cbn [stores set_faults now].
  - destruct (increment_expression _ _ _) as [item'|] eqn:Hu; cbn.
    + right. eauto.
    + rewrite Hf. left. reflexivity.
  - left. destruct e; cbn; try reflexivity.
    destruct f as [|[e'|] f']; reflexivity.
  - destruct (increment_expression _ _ _) as [item'|] eqn:Hu; cbn.
    + right. eauto.
    + left. destruct f as [|[e'|] f']; reflexivity.
Qed.

Lemma decrementConcurrency_stores tenantId w :
  stores (snd (decrementConcurrency tenantId w)) = stores w ∨
  ∃ item',
    decrement_expression (dynamo (stores w) !! tenantId) (now w)
      = Some item' ∧
    stores (snd (decrementConcurrency tenantId w)) =
      set_dynamo (stores w) (<[tenantId := item']> (dynamo (stores w))).
Proof.
  run_monad.
  destruct (faults w) as [|[e|] f] eqn:Hf; cbn [stores set_faults now].
  - destruct (decrement_expression _ _) as [item'|] eqn:Hu; cbn.
    + right. eauto.
    + left. reflexivity.
  - left. destruct e; reflexivity.
  - destruct (decrement_expression _ _) as [item'|] eqn:Hu; cbn.
    + right. eauto.
    + left. reflexivity.
Qed.

Lemma increment_expression_within limit c L u t item' :
  0 <= c <= L →
  increment_expression limit (Some (mkItem (Some c) (Some L) u)) t
    = Some item' →
  ∃ c', item' = mkItem (Some c') (Some L) (Some t) ∧ 0 <= c' <= L.
Proof.
  unfold increment_expression. cbn. intros Hc.
  destruct (c <? L) eqn:Hlt; [|discriminate].
  intros [= <-]. apply Z.ltb_lt in Hlt. exists (c + 1). split; [done|lia].
Qed.

Lemma decrement_expression_within c L u t item' :
  0 <= c <= L →
  decrement_expression (Some (mkItem (Some c) (Some L) u)) t = Some item' →
  ∃ c', item' = mkItem (Some c') (Some L) (Some t) ∧ 0 <= c' <= L.
Proof.
  unfold decrement_expression. cbn. intros Hc.
  destruct (0 <? c) eqn:Hlt; [|discriminate].
  intros [= <-]. apply Z.ltb_lt in Hlt. exists (c - 1). split; [done|lia].
Qed.

Lemma has_slot_stores w w' tenantId L :
  stores w' = stores w → has_slot w tenantId L → has_slot w' tenantId L.
Proof. unfold has_slot, slot_is. intros ->. done. Qed.

(** One call keeps the count of a tenant within its stored limit, and the
    limit as it is. *)
Lemma perform_has_slot tenantId L c w :
  has_slot w tenantId L → has_slot (snd (perform c w)) tenantId L.
Proof.
  intros Hs. destruct c as [t' r|t']; cbn [perform].
  - unfold acquireConcurrencySlot.
    destruct (incrementConcurrency_stores t' r w) as [E|(item' & Hu & E)].
    + eapply has_slot_stores; eauto.
    + destruct Hs as (c & [u Hl] & Hc).
      unfold has_slot, slot_is. rewrite E. cbn.
      destruct (decide (t' = tenantId)) as [->|Hne].
      * rewrite Hl in Hu.
        apply increment_expression_within in Hu as (c' & -> & Hc'); [|done].
        exists c'. split; [|done]. exists (Some (now w)).
        by rewrite lookup_insert_eq.
      * exists c. split; [|done]. exists u. by rewrite lookup_insert_ne.
  - unfold releaseConcurrencySlot.
    destruct (decrementConcurrency_stores t' w) as [E|(item' & Hu & E)].
    + eapply has_slot_stores; eauto.
    + destruct Hs as (c & [u Hl] & Hc).
      unfold has_slot, slot_is. rewrite E. cbn.
      destruct (decide (t' = tenantId)) as [->|Hne].
      * rewrite Hl in Hu.
        apply decrement_expression_within in Hu as (c' & -> & Hc'); [|done].
        exists c'. split; [|done]. exists (Some (now w)).
        by rewrite lookup_insert_eq.
      * exists c. split; [|done]. exists u. by rewrite lookup_insert_ne.
Qed.

Lemma run_has_slot tenantId L calls :
  ∀ w, has_slot w tenantId L → has_slot (run calls w) tenantId L.
Proof.
  induction calls as [|[t c] calls IH]; intros w Hs; cbn [run]; [done|].
  apply IH, perform_has_slot. eapply has_slot_stores; [|exact Hs]. done.
Qed.

Lemma js_or_nonneg r :
  match r with Some n => 0 <= n | None => True end →
  1 <= js_or r DEFAULT_CONCURRENCY_LIMIT.
Proof.
  unfold js_or, DEFAULT_CONCURRENCY_LIMIT. destruct r as [n|]; [|lia].
  destruct (n =? 0) eqn:E; [lia|]. apply Z.eqb_neq in E. lia.
Qed.

Lemma perform_fresh_or_has_slot tenantId tc w :
  nonneg_request tc →
  fresh_or_has_slot w tenantId →
  fresh_or_has_slot (snd (perform (snd tc) (set_now w (fst tc)))) tenantId.
Proof.
  intros Hr [Hnone|[L Hs]].
  2:{ right. exists L. apply perform_has_slot.
      eapply has_slot_stores; [|exact Hs]. done. }
  destruct tc as [t [t' r|t']]; cbn [fst snd perform] in *.
  - unfold acquireConcurrencySlot.
    destruct (incrementConcurrency_stores t' r (set_now w t))
      as [E|(item' & Hu & E)];
      unfold fresh_or_has_slot, has_slot, slot_is; rewrite E;
      cbn in *.
    + by left.
    + destruct (decide (t' = tenantId)) as [->|Hne].
      * right. rewrite Hnone in Hu. unfold increment_expression in Hu.
        cbn in Hu. injection Hu as <-.
        exists (js_or r DEFAULT_CONCURRENCY_LIMIT), 1.
        split; [exists (Some t); by rewrite lookup_insert_eq|].
        pose proof (js_or_nonneg r Hr). lia.
      * left. by rewrite lookup_insert_ne.
  - unfold releaseConcurrencySlot.
    destruct (decrementConcurrency_stores t' (set_now w t))
      as [E|(item' & Hu & E)];
      unfold fresh_or_has_slot, has_slot, slot_is; rewrite E;
      cbn in *.
    + by left.
    + destruct (decide (t' = tenantId)) as [->|Hne].
      * rewrite Hnone in Hu. discriminate.
      * left. by rewrite lookup_insert_ne.
Qed.

Lemma run_fresh_or_has_slot tenantId calls :
  ∀ w, Forall nonneg_request calls →
       fresh_or_has_slot w tenantId →
       fresh_or_has_slot (run calls w) tenantId.
Proof.
  induction calls as [|tc calls IH]; intros w Hr Hs; [done|].
  inversion Hr as [|? ? Htc Hrest]; subst.
  destruct tc as [t c]. cbn [run]. apply IH; [done|].
  apply (perform_fresh_or_has_slot tenantId (t, c) w Htc Hs).
Qed.

(** An acquisition at [c >= L] fails and writes nothing, whatever the fault
    script. *)
Lemma incrementConcurrency_full tenantId r w c L :
  slot_is w tenantId c L → ¬ c < L →
  ∃ e w', incrementConcurrency tenantId r w = (inl e, w') ∧
          stores w' = stores w.
Proof.
  intros [u Hl] Hge.
  assert (Hu : ∀ t, increment_expression (js_or r DEFAULT_CONCURRENCY_LIMIT)
                 (dynamo (stores w) !! tenantId) t = None).
  { intros t. rewrite Hl. unfold increment_expression. cbn.
    destruct (c <? L) eqn:E; [apply Z.ltb_lt in E; lia|done]. }
  run_monad.
  destruct (faults w) as [|[e|] f] eqn:Hf; cbn [stores set_faults now].
  - rewrite Hu, Hf. eauto.
  - destruct e; eauto.
    destruct f as [|[e'|] f']; cbn; eauto.
  - rewrite Hu. destruct f as [|[e'|] f']; cbn; eauto.
Qed.

Lemma incrementConcurrency_denied tenantId r w c L :
  slot_is w tenantId c L → ¬ c < L → faults w = [] →
  incrementConcurrency tenantId r w =
    (inl (ConcurrencyLimitExceededError
            (limit_reached_message tenantId L) tenantId c L), w).
Proof.
  intros [u Hl] Hge Hf. run_monad. rewrite Hf, Hl.
  unfold increment_expression. cbn.
  destruct (c <? L) eqn:E; [apply Z.ltb_lt in E; lia|].
  rewrite Hf, Hl. reflexivity.
Qed.

(** C1.  For one tenant with limit [L], every history of acquire and
    release calls (of this and of other tenants, with any requested limits,
    under any faults) keeps the tenant's [currentCount] in [[0, L]] and the
    limit at [L]; a tenant without an item gets one within its limit by the
    first acquisition, when no caller asks for a negative limit.  An
    acquisition at a count that is not strictly below [L] fails and leaves
    the stores as they are; when no call faults the error is
    [ConcurrencyLimitExceededError] with the count and the limit of the
    tenant; and no acquisition succeeds at [currentCount = L]. *)
Theorem admission_count_within_limit (tenantId : string) :
  (∀ L w calls,
     has_slot w tenantId L → has_slot (run calls w) tenantId L) ∧
  (∀ w calls,
     dynamo (stores w) !! tenantId = None →
     Forall nonneg_request calls →
     fresh_or_has_slot (run calls w) tenantId) ∧
  (∀ w c L r,
     slot_is w tenantId c L → ¬ c < L →
     (∃ e w', incrementConcurrency tenantId r w = (inl e, w') ∧
              stores w' = stores w) ∧
     (faults w = [] →
      incrementConcurrency tenantId r w =
        (inl (ConcurrencyLimitExceededError
                (limit_reached_message tenantId L) tenantId c L), w))) ∧
  (∀ w L r status w',
     slot_is w tenantId L L →
     acquireConcurrencySlot tenantId r w ≠ (inr status, w')).
Proof.
  split; [|split; [|split]].
  - intros L w calls. apply run_has_slot.
  - intros w calls Hnone Hr. apply run_fresh_or_has_slot; [done|by left].
  - intros w c L r Hs Hge. split.
    + by eapply incrementConcurrency_full.
    + by apply incrementConcurrency_denied.
  - intros w L r status w' Hs Heq.
    destruct (incrementConcurrency_full tenantId r w L L Hs) as (e & w1 & E & _);
      [lia|].
    unfold acquireConcurrencySlot in Heq. congruence.
Qed.

(** ** The processing orchestrator *)

(** A call of the admission controller touches the DynamoDB table only,
    does not move the clock, and leaves an exhausted fault script
    exhausted. *)
Lemma incrementConcurrency_now tenantId r w :
  now (snd (incrementConcurrency tenantId r w)) = now w.
Proof.
  run_monad.
  destruct (faults w) as [|[e|] f] eqn:Hf; cbn [stores set_faults now].
  - destruct (increment_expression _ _ _); cbn; [done|]. by rewrite Hf.
  - destruct e; try reflexivity. destruct f as [|[e'|] f']; reflexivity.
  - destruct (increment_expression _ _ _); cbn; [done|].
    destruct f as [|[e'|] f']; reflexivity.
Qed.

Lemma incrementConcurrency_frame tenantId r w :
  let w' := snd (incrementConcurrency tenantId r w) in
  now w' = now w ∧ (faults w = [] → faults w' = []) ∧
  ∃ d, stores w' = set_dynamo (stores w) d.
Proof.
  cbn zeta. split; [|split].
  - apply incrementConcurrency_now.
  - intros Hf. run_monad. rewrite Hf. cbn.
    destruct (increment_expression _ _ _); cbn; [done|]. by rewrite Hf.
  - destruct (incrementConcurrency_stores tenantId r w)
      as [E|(item' & _ & E)]; rewrite E; [|eauto].
    exists (dynamo (stores w)). by destruct (stores w).
Qed.

Lemma decrementConcurrency_frame tenantId w :
  let w' := snd (decrementConcurrency tenantId w) in
  now w' = now w ∧ (faults w = [] → faults w' = []) ∧
  ∃ d, stores w' = set_dynamo (stores w) d.
Proof.
  cbn zeta. split; [|split].
  - run_monad.
    destruct (faults w) as [|[e|] f]; cbn [stores set_faults now];
      try destruct (decrement_expression _ _); try destruct e; reflexivity.
  - intros Hf. run_monad. rewrite Hf. cbn.
    destruct (decrement_expression _ _); cbn; done.
  - destruct (decrementConcurrency_stores tenantId w)
      as [E|(item' & _ & E)]; rewrite E; [|eauto].
    exists (dynamo (stores w)). by destruct (stores w).
Qed.

(** Without faults a release returns, and takes one from a positive
    count. *)
Lemma decrementConcurrency_returns tenantId w :
  faults w = [] →
  ∃ status w',
    decrementConcurrency tenantId w = (inr status, w') ∧
    currentCount_of w' tenantId =
      (if 0 <? currentCount_of w tenantId
       then currentCount_of w tenantId - 1
       else currentCount_of w tenantId).
Proof.
  intros Hf. unfold currentCount_of. run_monad. rewrite Hf.
  cbn [stores now set_stores].
  destruct (dynamo (stores w) !! tenantId) as [[[c|] l u]|] eqn:Hl;
    cbn -[Z.ltb].
  - destruct (0 <? c) eqn:Hc; cbn -[Z.ltb].
    + do 2 eexists. split; [reflexivity|]. cbn.
      by rewrite lookup_insert_eq.
    + do 2 eexists. split; [reflexivity|]. by rewrite Hl.
  - do 2 eexists. split; [reflexivity|]. by rewrite Hl.
  - do 2 eexists. split; [reflexivity|]. by rewrite Hl.
Qed.

Lemma update_jobs_rows (where_ : ProcessingJob -> bool) set
    (R : ProcessingJob -> ProcessingJob -> Prop) s :
  (∀ j, where_ j = true → R j (set j)) →
  rows_changed where_ R (processing_jobs s)
    (processing_jobs (snd (update_jobs where_ set s))).
Proof.
  intros HR. unfold rows_changed, update_jobs. cbn.
  induction (processing_jobs s) as [|j l IH]; constructor; [|done].
  destruct (where_ j) eqn:E; [by apply HR|done].
Qed.

(** A query that does not fault logs its text and runs its statement. *)
Lemma query_no_fault {R} (statement : Statement R) w :
  faults w = [] →
  query statement w =
    (inr (fst (execute statement (stores w) (now w))),
     set_stores (set_sql_log w (sql statement :: sql_log w))
                (snd (execute statement (stores w) (now w)))).
Proof.
  intros Hf. unfold query. run_monad. rewrite Hf.
  cbn [stores now set_sql_log].
  by destruct (execute statement (stores w) (now w)).
Qed.

(** The [WHERE] clause of the job statements selects the job of the
    document, the version and the job type. *)
Lemma job_matches_is_job_of documentId versionId jobType j :
  job_matches documentId versionId jobType j = true ↔
  is_job_of documentId versionId jobType j.
Proof.
  unfold job_matches, is_job_of.
  rewrite !andb_true_iff, !bool_decide_eq_true. tauto.
Qed.

Lemma rows_changed_updated {A} (where_ : A -> bool) (P : A -> Prop)
    (R : A -> A -> Prop) (before after : list A) :
  (∀ r, where_ r = true ↔ P r) →
  rows_changed where_ R before after → rows_updated P R before after.
Proof.
  intros HP H. unfold rows_updated.
  induction H as [|r r' l l' Hr _ IH]; constructor; [|done].
  destruct (where_ r) eqn:E.
  - split; [done|]. intros Hn. destruct Hn. by apply HP.
  - split; [|done]. intros Hp. apply HP in Hp. congruence.
Qed.

Lemma job_rows_updated documentId versionId jobType
    (R : ProcessingJob -> ProcessingJob -> Prop) before after :
  rows_changed (job_matches documentId versionId jobType) R before after →
  rows_updated (is_job_of documentId versionId jobType) R before after.
Proof.
  apply rows_changed_updated. intros j. apply job_matches_is_job_of.
Qed.

(** The first row of an update is changed when it is selected, and the
    second row is as before when it is not. *)
Lemma rows_updated_two {A} (P : A -> Prop) (R : A -> A -> Prop)
    (a b : A) (after : list A) :
  P a → ¬ P b → rows_updated P R [a; b] after →
  ∃ a', after = [a'; b] ∧ R a a'.
Proof.
  intros Ha Hb H.
  inversion H as [|? a' ? l' [Haa _] H1]; subst.
  inversion H1 as [|? b' ? l'' [_ Hbb] H2]; subst.
  inversion H2; subst.
  exists a'. rewrite (Hbb Hb). split; [done|by apply Haa].
Qed.

(** C7.  When no call faults: a stage invocation that finds the tenant at
    its limit [L] sets the rows of the job (the rows of the document, the
    version and the job type) to [PENDING] with [attempts] one higher and
    answers [QUEUED] with the reason "Tenant concurrency limit reached
    (L). Task will retry."; one that acquires the slot sets the rows to
    [RUNNING] with [started_at] the current time and answers [ACCEPTED]
    with the slot status; and [completeProcessing] releases the slot and
    sets the rows to [COMPLETED] or [FAILED] with [completed_at] the
    current time.  Rows of other jobs are left as they are. *)
Theorem stage_invocation_outcomes (request : ProcessingRequest) (w : World) :
  faults w = [] →
  let documentId := req_documentId request in
  let versionId := req_versionId request in
  let tenantId := req_tenantId request in
  let jobType := req_jobType request in
  let the_job := is_job_of documentId versionId jobType in
  (∀ c L,
     slot_is w tenantId c L → ¬ c < L →
     ∃ w',
       enforceAndStartProcessing request w =
         (inr (mkProcessingResponse documentId versionId QUEUED None
                 (Some ("Tenant concurrency limit reached (" ++ pretty L
                          ++ "). Task will retry."))), w') ∧
       dynamo (stores w') = dynamo (stores w) ∧
       rows_updated the_job row_pending
         (processing_jobs (stores w)) (processing_jobs (stores w'))) ∧
  (∀ status w1,
     acquireConcurrencySlot tenantId (req_concurrencyLimit request) w
       = (inr status, w1) →
     ∃ w',
       enforceAndStartProcessing request w =
         (inr (mkProcessingResponse documentId versionId ACCEPTED
                 (Some status) None), w') ∧
       dynamo (stores w') = dynamo (stores w1) ∧
       rows_updated the_job (row_running (now w))
         (processing_jobs (stores w)) (processing_jobs (stores w'))) ∧
  (∀ success : bool,
     ∃ w',
       completeProcessing documentId versionId tenantId jobType success w
         = (inr tt, w') ∧
       currentCount_of w' tenantId =
         (if 0 <? currentCount_of w tenantId
          then currentCount_of w tenantId - 1
          else currentCount_of w tenantId) ∧
       rows_updated the_job
         (row_completed (if success then COMPLETED else FAILED) (now w))
         (processing_jobs (stores w)) (processing_jobs (stores w'))).
Proof.
  intros Hf documentId versionId tenantId jobType the_job.
  split; [|split].
  - intros c L Hs Hge.
    unfold enforceAndStartProcessing, try_catch, bind at 1.
    unfold acquireConcurrencySlot.
    rewrite (incrementConcurrency_denied _ _ _ _ _ Hs Hge Hf).
    unfold bind, ret. rewrite query_no_fault by done.
    eexists. split; [reflexivity|].
    split; [done|]. cbn [stores set_stores sql_job_pending execute].
    apply job_rows_updated, update_jobs_rows. intros j _. by repeat split.
  - intros status w1 Hacq.
    pose proof (incrementConcurrency_frame tenantId
                  (req_concurrencyLimit request) w) as (Hn & Hf1 & d & Hs).
    unfold acquireConcurrencySlot in Hacq.
    fold tenantId in Hacq. rewrite Hacq in Hn, Hf1, Hs. cbn [snd] in *.
    unfold enforceAndStartProcessing, try_catch, bind at 1.
    unfold acquireConcurrencySlot. fold tenantId. rewrite Hacq.
    unfold bind, ret.
    fold documentId versionId jobType.
    rewrite query_no_fault by auto.
    eexists. split; [reflexivity|]. split; [done|].
    cbn [stores set_stores sql_job_running execute]. rewrite Hn.
    replace (processing_jobs (stores w))
      with (processing_jobs (stores w1)) by (by rewrite Hs).
    apply job_rows_updated, update_jobs_rows. intros j _. by repeat split.
  - intros success.
    destruct (decrementConcurrency_returns tenantId w Hf)
      as (status & w1 & Hrel & Hcount).
    pose proof (decrementConcurrency_frame tenantId w) as (Hn & Hf1 & d & Hs).
    rewrite Hrel in Hn, Hf1, Hs. cbn [snd] in *.
    unfold completeProcessing, try_catch, bind at 1.
    unfold releaseConcurrencySlot. rewrite Hrel.
    unfold bind, ret.
    rewrite query_no_fault by auto.
    eexists. split; [reflexivity|]. split.
    + unfold currentCount_of in *. by rewrite <- Hcount.
    + cbn [stores set_stores sql_job_completed execute]. rewrite Hn.
      replace (processing_jobs (stores w))
        with (processing_jobs (stores w1)) by (by rewrite Hs).
      apply job_rows_updated, update_jobs_rows. intros j _.
      by repeat split.
Qed.

(** C2.  The enforcement wrapper at two inputs.  First: three of ten slots
    are held, the acquisition succeeds and the [UPDATE ... RUNNING] that
    follows it throws; the error leaves [executeWithConcurrencyEnforcement]
    while the count stays at four, the slot is not released.  Second: the
    operation succeeds, [completeProcessing] releases the slot and its
    [UPDATE] throws, upon which [handleProcessingFailure] releases once
    more; the count ends at two.  Without faults the count is back at
    three. *)
Theorem enforcement_wrapper_slot_accounting :
  let run_with f :=
    executeWithConcurrencyEnforcement sample_request (ret tt)
      (tenant_world 3 10 f) in
  (fst (run_with [None; Some database_error]) = inl database_error ∧
   currentCount_of (snd (run_with [None; Some database_error])) "tenant-1"
     = 4) ∧
  (fst (run_with [None; None; None; Some database_error])
     = inl database_error ∧
   currentCount_of
     (snd (run_with [None; None; None; Some database_error])) "tenant-1"
     = 2) ∧
  (fst (run_with []) = inr tt ∧
   currentCount_of (snd (run_with [])) "tenant-1" = 3).
Proof. vm_compute. repeat split. Qed.

(** With [try ... finally], [withConcurrencyControl] gives the slot back on
    both exits of an operation that leaves the DynamoDB table alone, when
    the release itself does not fault. *)
Lemma withConcurrencyControl_releases {T} tenantId limit
    (operation : M T) c L w :
  slot_is w tenantId c L → 0 <= c < L → faults w = [] →
  (∀ w1, faults w1 = [] →
         faults (snd (operation w1)) = [] ∧
         dynamo (stores (snd (operation w1))) = dynamo (stores w1)) →
  currentCount_of
    (snd (withConcurrencyControl tenantId operation limit w)) tenantId = c.
Proof.
  intros [u Hl] Hlt Hf Hop. unfold withConcurrencyControl.
  assert (Hacq : ∃ st w1, acquireConcurrencySlot tenantId limit w
                          = (inr st, w1) ∧ faults w1 = [] ∧
                          currentCount_of w1 tenantId = c + 1).
  { run_monad. rewrite Hf, Hl. unfold increment_expression.
    cbn [mbind option_bind current_count concurrency_limit].
    destruct (c <? L) eqn:E; [|apply Z.ltb_ge in E; lia].
    do 2 eexists. split; [reflexivity|]. split; [done|].
    unfold currentCount_of. cbn [stores set_stores set_dynamo dynamo].
    by rewrite lookup_insert_eq. }
  destruct Hacq as (st & w1 & -> & Hf1 & Hc1).
  unfold try_finally.
  destruct (Hop w1 Hf1) as [Hf2 Hd2].
  destruct (operation w1) as [r w2]. cbn [snd] in *.
  destruct (decrementConcurrency_returns tenantId w2 Hf2)
    as (st' & w3 & Hrel & Hc3).
  unfold try_catch, bind, ret, releaseConcurrencySlot. rewrite Hrel.
  cbn [snd]. rewrite Hc3.
  assert (currentCount_of w2 tenantId = c + 1) as ->.
  { unfold currentCount_of in *. by rewrite Hd2. }
  destruct (0 <? c + 1) eqn:E; [lia|]. apply Z.ltb_ge in E. lia.
Qed.

(** ** Redundant releases and the zero limit *)

(** A release at count zero is a no-op that does not throw, whatever the
    stored limit. *)
Lemma release_at_zero_noop tenantId L u w :
  dynamo (stores w) !! tenantId = Some (mkItem (Some 0) (Some L) u) →
  faults w = [] →
  ∃ status, releaseConcurrencySlot tenantId w = (inr status, w).
Proof.
  intros Hl Hf. run_monad. rewrite Hf, Hl. cbn. eauto.
Qed.

(** C8.  A release for a tenant whose item holds count zero and limit [L]
    writes nothing and throws nothing, so the count stays at zero; the
    status it returns carries the default limit [10] and [available = 10],
    while the state of the tenant, as [getCurrentConcurrency] reads it, is
    limit [L] and [available = max 0 L]. *)
Theorem release_at_zero_reports_default (tenantId : string) (L : Z)
    (u : option Z) (w : World) :
  dynamo (stores w) !! tenantId = Some (mkItem (Some 0) (Some L) u) →
  faults w = [] →
  releaseConcurrencySlot tenantId w =
    (inr (mkConcurrencyStatus tenantId 0 10 10), w) ∧
  getCurrentConcurrency tenantId w =
    (inr (mkConcurrencyStatus tenantId 0 L (Z.max 0 (L - 0))), w).
Proof.
  intros Hl Hf. split; run_monad; rewrite Hf, Hl; reflexivity.
Qed.

(** C10.  A requested limit of [0] is the same call as one without a
    limit; on a tenant without an item it succeeds, returns count [1] of
    limit [10] and stores limit [10]. *)
Theorem acquire_zero_limit_is_default (tenantId : string) (w : World) :
  acquireConcurrencySlot tenantId (Some 0) w =
    acquireConcurrencySlot tenantId None w ∧
  (dynamo (stores w) !! tenantId = None → faults w = [] →
   acquireConcurrencySlot tenantId (Some 0) w =
     (inr (mkConcurrencyStatus tenantId 1 10 9),
      set_stores w
        (set_dynamo (stores w)
           (<[tenantId := mkItem (Some 1) (Some 10) (Some (now w))]>
              (dynamo (stores w)))))).
Proof.
  split; [reflexivity|].
  intros Hl Hf. run_monad. rewrite Hf, Hl. reflexivity.
Qed.

(** ** Task routing *)

Lemma Qltb_lt x y : Qltb x y = true ↔ (x < y)%Q.
Proof.
  unfold Qltb. rewrite Qlt_alt. destruct (x ?= y)%Q; split; congruence.
Qed.

(** C9.  The four rules of [routeTask], later ones overriding earlier ones:
    a malware scan goes to Fargate whatever its size, page count and
    estimate; so does every task of more than 50 MB or of more than 100
    pages, and the reason names the last rule that fired; every other task
    goes to Lambda exactly when its estimate is under the Lambda timeout of
    15 minutes. *)
Theorem routeTask_rules (metadata : TaskMetadata) :
  let decision := routeTask metadata in
  let fileSizeBytes := default 0 (md_fileSizeBytes metadata) in
  let pageCount := default 0 (md_pageCount metadata) in
  let malware := md_jobType metadata = "MALWARE_SCAN" in
  estimatedDurationMs decision = estimateTaskDuration metadata ∧
  (malware →
   workerType decision = FARGATE ∧
   reason decision
     = "Malware scanning requires Fargate with ClamAV container") ∧
  (50 * 1024 * 1024 < fileSizeBytes ∨ 100 < pageCount →
   workerType decision = FARGATE) ∧
  (¬ malware → 100 < pageCount →
   reason decision
     = "Large page count " ++ pretty pageCount ++ " requires Fargate") ∧
  (¬ malware → pageCount <= 100 → 50 * 1024 * 1024 < fileSizeBytes →
   reason decision
     = "Large file size "
         ++ pretty (Math_round
                      (inject_Z fileSizeBytes / inject_Z (1024 * 1024)))
         ++ "MB requires Fargate") ∧
  (¬ malware → fileSizeBytes <= 50 * 1024 * 1024 → pageCount <= 100 →
   (workerType decision = LAMBDA ↔
    (estimateTaskDuration metadata < inject_Z (15 * 60 * 1000))%Q)).
Proof.
  cbn zeta. unfold routeTask.
  change LARGE_FILE_THRESHOLD_BYTES with (50 * 1024 * 1024).
  change LARGE_PAGE_COUNT_THRESHOLD with 100.
  change LAMBDA_TIMEOUT_MS with (inject_Z (15 * 60 * 1000)).
  set (size := default 0 (md_fileSizeBytes metadata)).
  set (pages := default 0 (md_pageCount metadata)).
  pose proof (Qltb_lt (estimateTaskDuration metadata)
                      (inject_Z (15 * 60 * 1000))) as Hq.
  destruct (Qltb _ _) eqn:Hest;
    destruct (Z.ltb_spec (50 * 1024 * 1024) size);
    destruct (Z.ltb_spec 100 pages);
    destruct (String.eqb_spec (md_jobType metadata) "MALWARE_SCAN");
    cbn [workerType estimatedDurationMs reason];
    repeat split; intros; try done; try lia;
    try (apply Hq; reflexivity);
    try (exfalso; match goal with H : _ ∨ _ |- _ => destruct H; lia end);
    try match goal with
        | H : (_ < _)%Q |- _ => apply Hq in H; discriminate
        end.
Qed.

(** ** The retry policy *)

Lemma retry_from_last {T} (operation : M T) cfg remaining lastError :
  ∀ attempt w,
    attempt + Z.of_nat remaining = maxAttempts cfg + 1 →
    (1 <= remaining)%nat →
    (∀ k, (k < remaining - 1)%nat →
          ∃ e, fst (operation (world_before_attempt operation cfg attempt
                                                    k w)) = inl e ∧
               isRetryableError e (retryableErrors cfg) = true) →
    retry_from operation cfg remaining attempt lastError w =
    operation (world_before_attempt operation cfg attempt (remaining - 1) w).
Proof.
  revert lastError.
  induction remaining as [|remaining IH]; intros lastError attempt w Hn Hr Hk;
    [lia|].
  cbn [retry_from]. unfold try_catch.
  destruct remaining as [|remaining'].
  - (* the last attempt *)
    cbn [Nat.sub world_before_attempt].
    destruct (operation w) as [[e|v] w1]; [|done].
    replace (attempt =? maxAttempts cfg) with true
      by (symmetry; apply Z.eqb_eq; lia).
    reflexivity.
  - destruct (Hk 0%nat) as (e & He & Hre); [lia|].
    cbn [world_before_attempt] in He.
    replace (S (S remaining') - 1)%nat with (S (S remaining' - 1)) by lia.
    cbn [world_before_attempt].
    destruct (operation w) as [[e'|v] w1] eqn:Hop; cbn [fst snd] in *;
      [|discriminate].
    injection He as ->.
    replace (attempt =? maxAttempts cfg) with false
      by (symmetry; apply Z.eqb_neq; lia).
    rewrite Hre. cbn [orb negb]. unfold bind at 1. cbn [sleep].
    apply IH; [lia|lia|].
    intros k Hlt. specialize (Hk (S k)).
    cbn [world_before_attempt] in Hk. rewrite Hop in Hk. cbn [snd] in Hk.
    apply Hk. lia.
Qed.

(** C6.  With the default configuration the delays computed for attempts 1
    to 5 are 1000, 2000, 4000, 8000 and 16000 ms.  When the first
    invocation throws an error that is not retryable, the outcome is that
    of this one invocation: the error is thrown again, nothing else has run
    and no timer was set.  When every invocation before the last throws a
    retryable error, the outcome is that of the invocation at
    [maxAttempts]: an error it throws is the one thrown. *)
Theorem retry_policy {T} (operation : M T) (config : PartialRetryConfig)
    (w : World) :
  let cfg := merge_config config in
  map (fun attempt =>
         calculateExponentialBackoff attempt
           (baseDelayMs DEFAULT_RETRY_CONFIG)
           (maxDelayMs DEFAULT_RETRY_CONFIG))
      [1; 2; 3; 4; 5]
    = [1000%Q; 2000%Q; 4000%Q; 8000%Q; 16000%Q] ∧
  (∀ e w',
     1 <= maxAttempts cfg →
     operation w = (inl e, w') →
     isRetryableError e (retryableErrors cfg) = false →
     retryWithExponentialBackoff operation config w = (inl e, w')) ∧
  (1 <= maxAttempts cfg →
   (∀ k, (k < Z.to_nat (maxAttempts cfg) - 1)%nat →
         ∃ e, fst (operation (world_before_attempt operation cfg 1 k w))
                = inl e ∧
              isRetryableError e (retryableErrors cfg) = true) →
   retryWithExponentialBackoff operation config w =
     operation (world_before_attempt operation cfg 1
                  (Z.to_nat (maxAttempts cfg) - 1) w)).
Proof.
  cbn zeta. split; [reflexivity|]. split.
  - intros e w' Hmax Hop Hnr. unfold retryWithExponentialBackoff.
    destruct (Z.to_nat (maxAttempts (merge_config config))) as [|n] eqn:Hn;
      [lia|].
    cbn [retry_from]. unfold try_catch. rewrite Hop, Hnr.
    by rewrite orb_true_r.
  - intros Hmax Hk. unfold retryWithExponentialBackoff.
    apply retry_from_last; [lia|lia|done].
Qed.

(** ** Rows of [documents] as [pg] returns them *)

(** A row has no property but the columns of the table. *)
Lemma pg_row_lookup_None columns d key :
  key ∉ ["id"; "tenant_id"; "name"; "owner_id"; "status"; "legal_hold";
         "deleted_at"; "retention_days"; "created_at"; "updated_at"] →
  pg_row columns d !! key = None.
Proof.
  intros Hkey. unfold pg_row. apply not_elem_of_list_to_map.
  intros Hin. apply Hkey.
  apply list_elem_of_fmap in Hin as ([k v] & -> & Hin).
  apply list_elem_of_In, filter_In in Hin as [Hin _].
  apply list_elem_of_In.
  apply (in_map fst) in Hin. exact Hin.
Qed.

(** The tenant, which the handlers and the scheduling job read under its
    name in the [Document] interface, is not there. *)
Lemma pg_row_tenantId columns d : pg_row columns d !! "tenantId" = None.
Proof. apply pg_row_lookup_None. compute_done. Qed.

(** The rows of the statement that looks a document up by its id. *)
Lemma head_map_filter {A B} (f : A -> B) (p : A -> bool) (l : list A) :
  head (map f (List.filter p l)) = f <$> head (List.filter p l).
Proof. by destruct (List.filter p l). Qed.

(** ** Soft delete *)

Lemma queryOne_no_fault {R} (statement : Statement R) w :
  faults w = [] →
  queryOne statement w =
    (inr (head (fst (execute statement (stores w) (now w)))),
     set_stores (set_sql_log w (sql statement :: sql_log w))
                (snd (execute statement (stores w) (now w)))).
Proof.
  intros Hf. unfold queryOne, bind at 1. rewrite query_no_fault by done.
  reflexivity.
Qed.

Lemma map_rows_changed {A} (where_ : A -> bool) (set : A -> A)
    (R : A -> A -> Prop) (l : list A) :
  (∀ r, where_ r = true → R r (set r)) →
  rows_changed where_ R l (map (fun r => if where_ r then set r else r) l).
Proof.
  intros HR. unfold rows_changed.
  induction l as [|r l IH]; constructor; [|done].
  destruct (where_ r) eqn:E; [by apply HR|done].
Qed.

Lemma head_filter_In {A} (p : A -> bool) (l : list A) (x : A) :
  In x l → p x = true → ∃ y, head (List.filter p l) = Some y.
Proof.
  intros Hin Hp.
  assert (H : In x (List.filter p l)) by (by apply filter_In).
  destruct (List.filter p l) as [|y l']; [destruct H|by exists y].
Qed.

Lemma head_filter_None {A} (p : A -> bool) (l : list A) :
  (∀ x, In x l → p x = false) → head (List.filter p l) = None.
Proof.
  intros H. induction l as [|x l IH]; cbn [List.filter]; [done|].
  rewrite (H x) by (by left). apply IH. intros y Hy. apply H. by right.
Qed.

(** C3.  A delete request for an existing document is answered with the
    forbidden response (403, [FORBIDDEN]) and nothing is written, whoever
    the caller is and whatever the tenant, the legal hold and the status
    of the document are: the row of the database carries the columns
    [tenant_id] and [legal_hold], the handler compares its property
    [tenantId], which is [undefined], with the tenant of the caller.  A
    document of the caller's tenant under legal hold, or one that is
    [DELETED] or [DELETING], does not get the conflict response, and one
    that is neither is not soft deleted. *)
Theorem delete_document_existing_forbidden (event : DeleteDocument.Event)
    (authContext : DeleteDocument.AuthContext) (documentId : string)
    (w : World) :
  DeleteDocument.authentication event = inr authContext →
  DeleteDocument.pathParameters_id event = Some documentId →
  documentId ≠ "" →
  faults w = [] →
  (∃ document, In document (documents (stores w)) ∧
               doc_id document = documentId) →
  ∃ w',
    DeleteDocument.handler event w =
      (inr (DeleteDocument.mkResult 403
              (DeleteDocument.ErrorBody "FORBIDDEN"
                 "Cannot delete document from different tenant" (now w))),
       w') ∧
    stores w' = stores w.
Proof.
  intros Hauth Hid Hne Hf (document & Hin & Hdoc).
  destruct (head_filter_In (fun d => bool_decide (doc_id d = documentId))
              (documents (stores w)) document Hin) as [row Hrow].
  { by apply bool_decide_eq_true. }
  assert (Hidm : match DeleteDocument.pathParameters_id event with
                 | None | Some "" => throw (NotFoundError "Document")
                 | Some id => ret id
                 end = ret documentId).
  { rewrite Hid. destruct documentId; [congruence|done]. }
  unfold DeleteDocument.handler, DeleteDocument.handler_body.
  rewrite Hauth, Hidm.
  unfold try_catch at 1; unfold bind at 1; unfold ret at 1;
    unfold bind at 1; unfold ret at 1; unfold bind at 1.
  rewrite queryOne_no_fault by done.
  cbn [execute fst snd DeleteDocument.sql_select_document].
  rewrite head_map_filter, Hrow. cbn [fmap option_fmap option_map].
  rewrite pg_row_tenantId.
  eexists. split; [reflexivity|reflexivity].
Qed.

(** ** The retention sweep *)

Lemma expired_past_retention t d :
  Retention.expired t d = true ↔ past_retention t d.
Proof.
  unfold Retention.expired, past_retention, Retention.MS_PER_DAY.
  destruct (doc_deletedAt d) as [da|], (doc_legalHold d);
    rewrite ?andb_true_iff, ?bool_decide_eq_true, ?Z.ltb_lt; cbn [negb].
  - split; [intros (_ & [=] & _)|intros (_ & [=] & _)].
  - split.
    + intros (Hs & _ & Hlt). repeat split; [done|]. exists da. split; [done|lia].
    + intros (Hs & _ & da' & [= <-] & Hlt). repeat split; [done|lia].
  - split; [intros [_ [=]]|intros (_ & [=] & _)].
  - split; [intros [_ [=]]|intros (_ & _ & da' & [=] & _)].
Qed.

Lemma NoDup_map_injective {A B} (f : A -> B) (l : list A) x y :
  List.NoDup (map f l) → In x l → In y l → f x = f y → x = y.
Proof.
  induction l as [|a l IH]; cbn; [done|].
  intros Hnd Hx Hy Hf. inversion Hnd as [|? ? Hnotin Hnd']; subst.
  destruct Hx as [->|Hx], Hy as [->|Hy]; [done| | |by apply IH].
  - exfalso. apply Hnotin. rewrite Hf. by apply in_map.
  - exfalso. apply Hnotin. rewrite <- Hf. by apply in_map.
Qed.

Lemma Forall2_map_In {A} (P : A -> A -> Prop) (f : A -> A) (l : list A) :
  (∀ r, In r l → P r (f r)) → Forall2 P l (map f l).
Proof.
  induction l as [|r l IH]; intros H; constructor.
  - apply H. by left.
  - apply IH. intros r' Hr'. apply H. by right.
Qed.

(** The updates of the loop, one after the other, mark the rows whose id is
    among those of the selected documents. *)
Lemma mark_each t (L : list Document) :
  ∀ ds,
    fold_left
      (fun ds doc =>
         map (fun d => if bool_decide (doc_id d = doc_id doc)
                       then Retention.mark_deleting t d else d) ds) L ds
    = map (fun d =>
             if existsb (fun doc => bool_decide (doc_id d = doc_id doc)) L
             then Retention.mark_deleting t d else d) ds.
Proof.
  induction L as [|doc L IH]; intros ds; cbn [fold_left existsb].
  - by rewrite map_id.
  - rewrite IH, map_map. apply map_ext. intros d.
    destruct (bool_decide (doc_id d = doc_id doc)) eqn:E; cbn [orb]; [|done].
    cbn [Retention.mark_deleting doc_id].
    by destruct (existsb _ L).
Qed.

Lemma retention_loop (L : list Document) :
  ∀ w, faults w = [] →
    ∃ w',
      for_each L
        (fun doc =>
           try_catch
             (query (Retention.sql_mark_deleting (doc_id doc)) ;; ret tt)
             (fun _ => ret tt)) w = (inr tt, w') ∧
      faults w' = [] ∧ now w' = now w ∧
      stores w' =
        set_documents (stores w)
          (fold_left
             (fun ds doc =>
                map (fun d => if bool_decide (doc_id d = doc_id doc)
                              then Retention.mark_deleting (now w) d else d)
                    ds) L (documents (stores w))).
Proof.
  induction L as [|doc L IH]; intros w Hf; cbn [for_each fold_left].
  - exists w. repeat split; try done. by destruct (stores w).
  - unfold bind at 1. unfold try_catch at 1. unfold bind at 1.
    rewrite query_no_fault by done. unfold ret at 1.
    match goal with
    | |- context [for_each L _ ?w1] =>
        destruct (IH w1) as (w' & Hrun & Hf' & Hn' & Hs'); [done|]
    end.
    exists w'. rewrite Hrun. by repeat split.
Qed.

(** C5, as amended.  When no call faults and document ids are unique, the
    sweep marks exactly the documents that are soft deleted, not under
    legal hold and past their retention: their status becomes [DELETING]
    and [updated_at] the current time, every other document and every
    other store is left as it is; in particular nothing is put on the hard
    delete queue. *)
Theorem retention_sweep_marks_expired (w : World) :
  faults w = [] →
  List.NoDup (map doc_id (documents (stores w))) →
  ∃ w',
    Retention.handler w = (inr tt, w') ∧
    rows_updated (past_retention (now w)) (row_deleting (now w))
      (documents (stores w)) (documents (stores w')) ∧
    hard_delete_queue (stores w') = hard_delete_queue (stores w) ∧
    stores w' = set_documents (stores w) (documents (stores w')).
Proof.
  intros Hf Hnd.
  unfold Retention.handler. unfold try_catch at 1. unfold bind at 1.
  rewrite query_no_fault by done.
  cbn [fst snd execute Retention.sql_select_expired].
  set (L := List.filter (Retention.expired (now w)) (documents (stores w))).
  set (w1 := set_stores _ _).
  assert (Hmarked :
    rows_updated (past_retention (now w)) (row_deleting (now w))
      (documents (stores w))
      (map (fun d =>
              if existsb (fun doc => bool_decide (doc_id d = doc_id doc)) L
              then Retention.mark_deleting (now w) d else d)
           (documents (stores w)))).
  { apply (rows_changed_updated (Retention.expired (now w)));
      [intros d; apply expired_past_retention|].
    apply Forall2_map_In. intros d Hd.
    destruct (Retention.expired (now w) d) eqn:He.
    - replace (existsb _ L) with true; [by repeat split|].
      symmetry. apply existsb_exists. exists d. split.
      + apply filter_In. done.
      + by apply bool_decide_eq_true.
    - replace (existsb _ L) with false; [done|].
      symmetry. apply not_true_is_false. intros Hex.
      apply existsb_exists in Hex as (doc & Hin & Hid).
      apply filter_In in Hin as [Hin Hexp].
      apply bool_decide_eq_true in Hid.
      assert (d = doc) as -> by (by eapply NoDup_map_injective).
      congruence. }
  destruct (length L =? 0)%nat eqn:Hlen.
  - apply Nat.eqb_eq in Hlen. destruct L as [|? ?] eqn:HL; [|done].
    cbn [existsb map] in Hmarked. rewrite map_id in Hmarked.
    exists w1. cbv iota beta. repeat split; try done.
    by destruct (stores w).
  - destruct (retention_loop L w1) as (w' & Hrun & _ & _ & Hs'); [done|].
    exists w'. cbv iota beta. rewrite Hrun.
    cbn [stores now set_stores w1] in Hs'.
    subst w1. cbn [now set_stores set_sql_log] in Hs'.
    rewrite mark_each in Hs'. rewrite Hs'.
    by repeat split.
Qed.

(** C5, the clause that fails.  [doc-old] was deleted 31 days ago under a
    retention of 30 days; the sweep marks it, and the hard delete queue is
    as empty as before: no work item that names [doc-old] is enqueued. *)
Lemma retention_sweep_enqueues_nothing :
  ¬ (∀ d,
       In d (documents (stores retention_world)) →
       past_retention (now retention_world) d →
       ∃ message,
         In message
            (hard_delete_queue
               (stores (snd (Retention.handler retention_world)))) ∧
         MessageBody message !! "documentId" = Some (JsString (doc_id d))).
Proof.
  intros H.
  destruct (H (deleted_document "doc-old" (69 * day)))
    as (message & Hin & _).
  - by left.
  - split; [reflexivity|]. split; [reflexivity|].
    exists (69 * day). split; [reflexivity|]. vm_compute. reflexivity.
  - vm_compute in Hin. exact Hin.
Qed.

(** ** The hard delete worker *)

(** *** Keys and pages *)

Lemma key_lt_trans a b c : key_lt a b → key_lt b c → key_lt a c.
Proof.
  unfold key_lt, String.ltb. intros Hab Hbc.
  destruct (String.compare a b) eqn:E1; try discriminate.
  destruct (String.compare b c) eqn:E2; try discriminate.
  apply String_as_OT.cmp_lt in E1, E2.
  pose proof (String_as_OT.lt_trans _ _ _ E1 E2) as H.
  apply String_as_OT.cmp_lt in H. unfold String_as_OT.cmp in H.
  by rewrite H.
Qed.

Lemma prefix_nonempty p k : String.prefix p k = true → p ≠ "" → k ≠ "".
Proof. intros H Hp ->. by destruct p. Qed.

Lemma ascending_filter f keys :
  ascending keys → ascending (List.filter f keys).
Proof.
  unfold ascending. induction keys as [|k keys IH]; cbn; [done|].
  rewrite StronglySorted_cons. intros [Hall Hs].
  destruct (f k); [|by apply IH].
  apply StronglySorted_cons. split; [|by apply IH].
  apply Forall_forall. intros x Hx. apply list_elem_of_In, filter_In in Hx.
  rewrite Forall_forall in Hall. apply Hall, list_elem_of_In, Hx.
Qed.

Lemma filter_all {A} (f : A -> bool) (l : list A) :
  (∀ x, In x l → f x = true) → List.filter f l = l.
Proof.
  induction l as [|x l IH]; cbn; intros H; [done|].
  rewrite (H x) by (by left). f_equal. apply IH. intros y Hy. apply H.
  by right.
Qed.

Lemma filter_filter_and {A} (f g : A -> bool) (l : list A) :
  List.filter g (List.filter f l) = List.filter (fun x => f x && g x) l.
Proof.
  induction l as [|x l IH]; cbn; [done|].
  destruct (f x); cbn; [|done]. destruct (g x); by rewrite IH.
Qed.

Lemma filter_shorter {A} (f : A -> bool) (l : list A) x :
  In x l → f x = false → (length (List.filter f l) < length l)%nat.
Proof.
  induction l as [|y l IH]; cbn; [done|].
  intros [->|Hx] Hf.
  - rewrite Hf. pose proof (filter_length_le f l). lia.
  - specialize (IH Hx Hf). destruct (f y); cbn; lia.
Qed.

(** One page of a listing and its deletion. *)
Lemma page_progress p tok size keys :
  ascending keys → (1 <= size)%nat →
  (∀ k, In k keys → String.prefix p k = true → object_after tok k = true) →
  let matching :=
    List.filter (fun key => String.prefix p key && object_after tok key)
                keys in
  let contents := take size matching in
  let keys' :=
    List.filter (fun key => negb (bool_decide (key ∈ contents))) keys in
  List.filter (fun k => negb (String.prefix p k)) keys'
    = List.filter (fun k => negb (String.prefix p k)) keys ∧
  ((size <? length matching)%nat = false →
   keys' = List.filter (fun k => negb (String.prefix p k)) keys) ∧
  ((size <? length matching)%nat = true →
   ∃ t, last contents = Some t ∧ String.prefix p t = true ∧
        (length keys' < length keys)%nat ∧
        ∀ k, In k keys' → String.prefix p k = true →
             object_after (Some t) k = true).
Proof.
  intros Hasc Hsize Hinv matching contents keys'.
  assert (Hmatch : ∀ k, In k matching ↔ In k keys ∧ String.prefix p k = true).
  { intros k. unfold matching. rewrite filter_In, andb_true_iff.
    split; [tauto|]. intros [Hk Hp]. auto. }
  assert (Hcont : ∀ k, k ∈ contents → In k matching).
  { intros k Hk. apply list_elem_of_In in Hk.
    rewrite <- (take_drop size matching). apply in_or_app. by left. }
  split; [|split].
  - unfold keys'. rewrite filter_filter_and. apply filter_ext_in.
    intros k Hk. destruct (String.prefix p k) eqn:Hp; cbn;
      [by rewrite andb_false_r|].
    rewrite andb_true_r. rewrite bool_decide_false; [done|].
    intros Hc. apply Hcont, Hmatch in Hc. destruct Hc. congruence.
  - intros Hlt. apply Nat.ltb_ge in Hlt.
    assert (contents = matching) as Hall
      by (unfold contents; by rewrite take_ge).
    unfold keys'. apply filter_ext_in. intros k Hk. f_equal.
    destruct (String.prefix p k) eqn:Hp.
    + apply bool_decide_eq_true. rewrite Hall.
      apply list_elem_of_In, Hmatch. done.
    + apply bool_decide_eq_false. intros Hc. apply Hcont, Hmatch in Hc.
      destruct Hc. congruence.
  - intros Hlt. apply Nat.ltb_lt in Hlt.
    assert (Hne : contents ≠ []).
    { intros E. apply (f_equal length) in E. unfold contents in E.
      rewrite length_take in E. cbn in E. lia. }
    apply last_is_Some in Hne as [t Ht]. exists t. split; [done|].
    assert (Htc : t ∈ contents) by (by apply last_Some_elem_of).
    pose proof (Hcont t Htc) as Htm. apply Hmatch in Htm as [Htk Htp].
    split; [done|]. split.
    + apply (filter_shorter _ keys t Htk).
      by rewrite bool_decide_true.
    + intros k Hk Hp. unfold keys' in Hk. apply filter_In in Hk as [Hk Hnc].
      apply negb_true_iff, bool_decide_eq_false in Hnc.
      assert (Hkm : In k matching) by (by apply Hmatch).
      assert (Hsplit : matching = (contents ++ drop size matching)%list)
        by (unfold contents; by rewrite take_drop).
      rewrite Hsplit in Hkm. apply in_app_or in Hkm as [Hkm|Hkm];
        [by apply list_elem_of_In in Hkm|].
      assert (Hsorted : ascending matching)
        by (by apply ascending_filter).
      rewrite Hsplit in Hsorted.
      apply (StronglySorted_app_1_elem_of _ _ _ t k Hsorted Htc).
      by apply list_elem_of_In.
Qed.

(** *** Calls to S3 *)

Lemma set_bucket_same s : set_bucket s (bucket s) = s.
Proof. by destruct s. Qed.

Lemma s3_only_refl w w' :
  stores w' = stores w → now w' = now w → sql_log w' = sql_log w →
  timers w' = timers w → s3_only w w'.
Proof.
  intros Hs Hn Hl Ht. repeat split; try done.
  exists (fun _ => true). rewrite filter_all by done.
  by rewrite set_bucket_same.
Qed.

Lemma s3_only_trans w1 w2 w3 : s3_only w1 w2 → s3_only w2 w3 → s3_only w1 w3.
Proof.
  intros (Hn1 & Hl1 & Ht1 & k1 & Hs1) (Hn2 & Hl2 & Ht2 & k2 & Hs2).
  repeat split; try congruence.
  exists (fun x => k1 x && k2 x). rewrite Hs2, Hs1. cbn.
  by rewrite filter_filter_and.
Qed.

Lemma s3_only_tables w w' :
  s3_only w w' → same_tables (stores w) (stores w').
Proof.
  unfold same_tables. intros (_ & _ & _ & k & ->). by repeat split.
Qed.

Lemma s3_only_ascending w w' :
  s3_only w w' → ascending (bucket (stores w)) →
  ascending (bucket (stores w')).
Proof. intros (_ & _ & _ & k & ->) H. cbn. by apply ascending_filter. Qed.

Lemma external_outcome w :
  ∃ r w',
    external w = (r, w') ∧ stores w' = stores w ∧ now w' = now w ∧
    page_sizes w' = page_sizes w ∧ timers w' = timers w ∧
    sql_log w' = sql_log w ∧
    (faults w = [] → r = inr tt ∧ faults w' = []).
Proof.
  unfold external. destruct (faults w) as [|[e|] f] eqn:Hf;
    do 2 eexists; (split; [reflexivity|]); by repeat split.
Qed.

Lemma s3_ListObjectsV2_outcome p tok w :
  ∃ r w',
    s3_ListObjectsV2 p tok w = (r, w') ∧
    stores w' = stores w ∧ now w' = now w ∧ timers w' = timers w ∧
    sql_log w' = sql_log w ∧
    (faults w = [] → faults w' = [] ∧ ∃ page, r = inr page) ∧
    ∀ contents next, r = inr (contents, next) →
      ∃ size, (1 <= size)%nat ∧
        let matching :=
          List.filter
            (fun key => String.prefix p key && object_after tok key)
            (bucket (stores w)) in
        contents = take size matching ∧
        next = if (size <? length matching)%nat then last contents
               else None.
Proof.
  unfold s3_ListObjectsV2, bind.
  destruct (external_outcome w) as (r & w0 & -> & Hs & Hn & Hp & Ht & Hl & Hf).
  destruct r as [e|[]].
  - do 2 eexists. split; [reflexivity|]. repeat split; try done.
    + by apply Hf.
    + destruct (Hf H) as [[=] _].
  - do 2 eexists. split; [reflexivity|]. cbn [stores now timers sql_log
      faults set_page_sizes]. rewrite Hs. repeat split; try done.
    + by apply Hf.
    + eauto.
    + intros contents next [= <- <-].
      exists (match page_sizes w0 with
              | [] => MAX_KEYS
              | n :: _ => Nat.min MAX_KEYS (S n)
              end).
      split; [|done]. unfold MAX_KEYS. destruct (page_sizes w0); lia.
Qed.

Lemma s3_DeleteObjects_outcome keys w :
  ∃ r w',
    s3_DeleteObjects keys w = (r, w') ∧
    now w' = now w ∧ timers w' = timers w ∧ sql_log w' = sql_log w ∧
    (faults w = [] → faults w' = [] ∧ r = inr tt) ∧
    match r with
    | inl _ => stores w' = stores w
    | inr _ =>
        stores w' =
          set_bucket (stores w)
            (List.filter (fun key => negb (bool_decide (key ∈ keys)))
                         (bucket (stores w)))
    end.
Proof.
  unfold s3_DeleteObjects, bind, get_stores, put_stores.
  destruct (external_outcome w) as (r & w0 & -> & Hs & Hn & Hp & Ht & Hl & Hf).
  destruct r as [e|[]]; do 2 eexists; (split; [reflexivity|]);
    cbn [stores now timers sql_log faults set_stores]; rewrite ?Hs;
    repeat split; try done; by apply Hf.
Qed.

(** *** The deletion loop *)

Lemma deleteObjectsWithPrefix_from_outcome p :
  p ≠ "" →
  ∀ bound tok w,
    ascending (bucket (stores w)) →
    (∀ k, In k (bucket (stores w)) → String.prefix p k = true →
          object_after tok k = true) →
    (length (bucket (stores w)) < bound)%nat →
    ∃ r w',
      HardDelete.deleteObjectsWithPrefix_from bound p tok w = (r, w') ∧
      s3_only w w' ∧
      (r = inr tt →
       bucket (stores w') =
         List.filter (fun k => negb (String.prefix p k))
                     (bucket (stores w))) ∧
      (faults w = [] → r = inr tt ∧ faults w' = []).
Proof.
  intros Hp. induction bound as [|bound IH]; intros tok w Hasc Hinv Hlen;
    [lia|].
  cbn [HardDelete.deleteObjectsWithPrefix_from]. unfold bind at 1.
  destruct (s3_ListObjectsV2_outcome p tok w)
    as (r1 & w1 & -> & Hs1 & Hn1 & Ht1 & Hl1 & Hf1 & Hpage).
  destruct r1 as [e|[contents next]].
  { (* the listing throws *)
    do 2 eexists. split; [reflexivity|]. split; [by apply s3_only_refl|].
    split; [done|]. intros Hf. by destruct (Hf1 Hf) as (_ & ? & [=]). }
  destruct (Hpage contents next eq_refl) as (size & Hsize & Hc & Hnext).
  cbn zeta in Hc, Hnext. cbn [fst snd].
  set (matching := List.filter _ (bucket (stores w))) in Hc, Hnext.
  pose proof (page_progress p tok size (bucket (stores w)) Hasc Hsize Hinv)
    as (Hkeep & Hlast & Hmore).
  cbn zeta in Hkeep, Hlast, Hmore. fold matching in Hkeep, Hlast, Hmore.
  rewrite <- Hc in Hkeep, Hlast, Hmore.
  set (keys' := List.filter (fun key => negb (bool_decide (key ∈ contents)))
                            (bucket (stores w))) in *.
  (* the deletion of the page *)
  assert (Hdel : ∃ r2 w2,
    (if (0 <? length contents)%nat then s3_DeleteObjects contents
     else ret tt) w1 = (r2, w2) ∧
    now w2 = now w ∧ timers w2 = timers w ∧ sql_log w2 = sql_log w ∧
    (faults w = [] → faults w2 = [] ∧ r2 = inr tt) ∧
    match r2 with
    | inl _ => stores w2 = stores w
    | inr _ => stores w2 = set_bucket (stores w) keys'
    end).
  { destruct (0 <? length contents)%nat eqn:Hz.
    - destruct (s3_DeleteObjects_outcome contents w1)
        as (r2 & w2 & -> & Hn2 & Ht2 & Hl2 & Hf2 & Hs2).
      exists r2, w2. split; [done|]. repeat split; try congruence.
      + apply Hf2, Hf1. done.
      + apply Hf2, Hf1. done.
      + destruct r2; rewrite Hs2, Hs1; done.
    - exists (inr tt), w1. split; [done|]. repeat split; try done.
      + by apply Hf1.
      + rewrite Hs1. unfold keys'.
        apply Nat.ltb_ge in Hz.
        assert (contents = []) as -> by (destruct contents; [done|cbn in Hz; lia]).
        rewrite filter_all; [by rewrite set_bucket_same|].
        intros x _. rewrite bool_decide_false; [done|]. apply not_elem_of_nil. }
  destruct Hdel as (r2 & w2 & Hdel & Hn2 & Ht2 & Hl2 & Hf2 & Hs2).
  unfold bind at 1. rewrite Hdel.
  destruct r2 as [e|[]].
  { (* the deletion throws *)
    do 2 eexists. split; [reflexivity|]. split; [by apply s3_only_refl|].
    split; [done|]. intros Hf. by destruct (Hf2 Hf) as [_ [=]]. }
  assert (Hw2 : s3_only w w2).
  { repeat split; try done. eexists. exact Hs2. }
  assert (Hb2 : bucket (stores w2) = keys') by (by rewrite Hs2).
  destruct (size <? length matching)%nat eqn:Hlt.
  - (* a further page *)
    destruct (Hmore eq_refl) as (t & Hlast_t & Hpt & Hshort & Hafter).
    rewrite Hlast_t in Hnext. subst next.
    assert (t ≠ "") as Hne by (by eapply prefix_nonempty).
    destruct t as [|a t']; [done|].
    destruct (IH (Some (String a t')) w2) as (r & w' & Hrun & Hw' & Hdone & Hf').
    + by eapply s3_only_ascending.
    + by rewrite Hb2.
    + rewrite Hb2. lia.
    + exists r, w'. split; [done|]. split; [by eapply s3_only_trans|].
      split.
      * intros Hr. rewrite (Hdone Hr), Hb2. exact Hkeep.
      * intros Hf. apply Hf', Hf2, Hf.
  - (* the last page *)
    subst next. exists (inr tt), w2. split; [done|]. split; [done|]. split.
    + intros _. rewrite Hb2. by apply Hlast.
    + intros Hf. split; [done|]. by apply Hf2.
Qed.

Lemma deleteObjectsWithPrefix_from_step bound p tok w :
  HardDelete.deleteObjectsWithPrefix_from (S bound) p tok w =
  match s3_ListObjectsV2 p tok w with
  | (inl e, w1) => (inl e, w1)
  | (inr listResponse, w1) =>
      match (if (0 <? length (fst listResponse))%nat
             then s3_DeleteObjects (fst listResponse)
             else ret tt) w1 with
      | (inl e, w2) => (inl e, w2)
      | (inr _, w2) =>
          match snd listResponse with
          | None | Some "" => (inr tt, w2)
          | Some token =>
              HardDelete.deleteObjectsWithPrefix_from bound p (Some token) w2
          end
      end
  end.
Proof.
  cbn [HardDelete.deleteObjectsWithPrefix_from]. unfold bind.
  destruct (s3_ListObjectsV2 p tok w) as [[e|[contents next]] w1]; [done|].
  cbn [fst snd].
  destruct ((if (0 <? length contents)%nat then s3_DeleteObjects contents
             else ret tt) w1) as [[e|[]] w2]; [done|].
  by destruct next as [[|a t]|].
Qed.

(** The bound of [deleteObjectsWithPrefix] is never reached: a larger one
    gives the same outcome, in every world. *)
Lemma deleteObjectsWithPrefix_bound p :
  ∀ bound bound' tok w,
    (length (bucket (stores w)) < bound)%nat →
    (length (bucket (stores w)) < bound')%nat →
    HardDelete.deleteObjectsWithPrefix_from bound p tok w =
    HardDelete.deleteObjectsWithPrefix_from bound' p tok w.
Proof.
  induction bound as [|bound IH]; intros bound' tok w Hb Hb'; [lia|].
  destruct bound' as [|bound']; [lia|].
  rewrite !deleteObjectsWithPrefix_from_step.
  destruct (s3_ListObjectsV2_outcome p tok w)
    as (r1 & w1 & -> & Hs1 & _ & _ & _ & _ & Hpage).
  destruct r1 as [e|[contents next]]; [done|].
  destruct (Hpage contents next eq_refl) as (size & Hsize & Hc & Hnext).
  cbn zeta in Hc, Hnext. cbn [fst snd].
  set (matching := List.filter _ (bucket (stores w))) in Hc, Hnext.
  destruct (0 <? length contents)%nat eqn:Hz.
  - destruct (s3_DeleteObjects_outcome contents w1)
      as (r2 & w2 & -> & _ & _ & _ & _ & Hs2).
    destruct r2 as [e|[]]; [done|].
    destruct next as [[|a t]|]; [done| |done].
    assert (length (bucket (stores w2)) < length (bucket (stores w)))%nat.
    { rewrite Hs2, Hs1. cbn [bucket set_bucket].
      destruct contents as [|c contents']; [done|].
      assert (In c matching) as Hm.
      { rewrite <- (take_drop size matching). apply in_or_app. left.
        rewrite <- Hc. by left. }
      unfold matching in Hm. apply filter_In in Hm as [Hin _].
      apply (filter_shorter _ _ c Hin).
      rewrite bool_decide_true; [done|]. by left. }
    apply IH; lia.
  - (* an empty page has no successor *)
    apply Nat.ltb_ge in Hz.
    assert (contents = []) as -> by (destruct contents; [done|cbn in Hz; lia]).
    assert (matching = []) as Hm.
    { destruct matching as [|m ms]; [done|].
      destruct size; [lia|]. discriminate. }
    rewrite Hm in Hnext. cbn in Hnext.
    destruct (size <? 0)%nat; by subst next.
Qed.

(** *** What a computation keeps *)

Section Keeps.
Variable P : Stores -> Stores -> Prop.
Hypothesis P_refl : ∀ s, P s s.
Hypothesis P_trans : ∀ s1 s2 s3, P s1 s2 → P s2 s3 → P s1 s3.
Hypothesis P_bucket : ∀ s b, P s (set_bucket s b).

Lemma keeps_ret {A} (a : A) : keeps P (ret a).
Proof. intros w. apply P_refl. Qed.




Lemma keeps_bind {A B} (m : M A) (k : A -> M B) :
  keeps P m → (∀ a, keeps P (k a)) → keeps P (bind m k).
Proof.
  intros Hm Hk w. unfold bind. specialize (Hm w).
  destruct (m w) as [[e|a] w1]; [done|].
  eapply P_trans; [exact Hm|]. apply Hk.
Qed.


Lemma keeps_query {R} (statement : Statement R) :
  (∀ s t, P s (snd (execute statement s t))) → keeps P (query statement).
Proof.
  intros Hst w. unfold query, bind, external, log_statement, get_stores,
    get_now, put_stores, ret.
  destruct (faults w) as [|[e|] f]; cbn [stores now set_sql_log set_faults];
    try apply P_refl;
    specialize (Hst (stores w) (now w));
    by destruct (execute statement (stores w) (now w)).
Qed.

Lemma keeps_queryOne {R} (statement : Statement R) :
  (∀ s t, P s (snd (execute statement s t))) →
  keeps P (queryOne statement).
Proof.
  intros Hst. unfold queryOne.
  apply keeps_bind; [by apply keeps_query|]. intros rows. apply keeps_ret.
Qed.





End Keeps.





(** *** The transaction *)

(** A transaction that throws leaves the tables as they were. *)
Lemma withTransaction_throws {T} (callback : M T) w e w' :
  withTransaction callback w = (inl e, w') →
  same_tables (stores w) (stores w').
Proof.
  unfold withTransaction. unfold bind at 1.
  destruct (external_outcome w) as (r0 & w0 & -> & Hs0 & _).
  destruct r0 as [e0|[]].
  { intros [= _ <-]. rewrite Hs0. by repeat split. }
  unfold bind at 1, get_stores at 1. unfold try_catch.
  destruct ((external ;; log_statement "BEGIN" ;;
             let* result := callback in
             external ;; log_statement "COMMIT" ;; ret result) w0)
    as [[err|a] wb]; [|discriminate].
  unfold bind at 1, get_stores at 1. unfold bind at 1, put_stores at 1.
  unfold bind at 1.
  destruct (external_outcome
              (set_stores wb
                 (set_documents
                    (set_document_versions
                       (set_processing_jobs
                          (set_audit_logs (stores wb) (audit_logs (stores w0)))
                          (processing_jobs (stores w0)))
                       (document_versions (stores w0)))
                    (documents (stores w0)))))
    as (r1 & w1 & -> & Hs1 & _).
  unfold same_tables.
  destruct r1 as [e1|[]]; intros [= _ <-]; cbn [stores set_sql_log] in *;
    rewrite Hs1, Hs0; by repeat split.
Qed.


(** *** The two prefixes *)

Lemma documents_prefix_nonempty tenantId documentId :
  HardDelete.documents_prefix tenantId documentId ≠ "".
Proof. unfold HardDelete.documents_prefix. by destruct tenantId. Qed.

Lemma derived_prefix_nonempty tenantId documentId :
  HardDelete.derived_prefix tenantId documentId ≠ "".
Proof. unfold HardDelete.derived_prefix. by destruct tenantId. Qed.

Lemma deleteObjectsWithPrefix_outcome p w :
  p ≠ "" → ascending (bucket (stores w)) →
  ∃ r w',
    HardDelete.deleteObjectsWithPrefix p w = (r, w') ∧
    s3_only w w' ∧
    (r = inr tt →
     bucket (stores w') =
       List.filter (fun k => negb (String.prefix p k))
                   (bucket (stores w))) ∧
    (faults w = [] → r = inr tt ∧ faults w' = []).
Proof.
  intros Hp Hasc. unfold HardDelete.deleteObjectsWithPrefix.
  apply deleteObjectsWithPrefix_from_outcome; [done|done|done|lia].
Qed.

Lemma deleteS3Objects_outcome tenantId documentId w :
  ascending (bucket (stores w)) →
  ∃ r w',
    HardDelete.deleteS3Objects tenantId documentId w = (r, w') ∧
    s3_only w w' ∧
    (r = inr tt →
     bucket (stores w') =
       List.filter (outside_document tenantId documentId)
                   (bucket (stores w))) ∧
    (faults w = [] → r = inr tt ∧ faults w' = []).
Proof.
  intros Hasc. unfold HardDelete.deleteS3Objects, bind.
  destruct (deleteObjectsWithPrefix_outcome
              (HardDelete.documents_prefix tenantId documentId) w)
    as (r1 & w1 & -> & Hw1 & Hb1 & Hf1);
    [apply documents_prefix_nonempty|done|].
  destruct r1 as [e|[]].
  { do 2 eexists. split; [reflexivity|]. split; [done|]. split; [done|].
    intros Hf. by destruct (Hf1 Hf) as [[=] _]. }
  destruct (deleteObjectsWithPrefix_outcome
              (HardDelete.derived_prefix tenantId documentId) w1)
    as (r2 & w2 & -> & Hw2 & Hb2 & Hf2);
    [apply derived_prefix_nonempty|by eapply s3_only_ascending|].
  do 2 eexists. split; [reflexivity|].
  split; [by eapply s3_only_trans|]. split.
  - intros Hr. rewrite (Hb2 Hr), (Hb1 eq_refl), filter_filter_and. done.
  - intros Hf. apply Hf2, Hf1, Hf.
Qed.

(** *** The worker *)

Lemma queryOne_returns {R} (statement : Statement R) w row w0 :
  queryOne statement w = (inr row, w0) →
  row = head (fst (execute statement (stores w) (now w))) ∧
  stores w0 = snd (execute statement (stores w) (now w)) ∧
  now w0 = now w.
Proof.
  unfold queryOne, query, bind, external, log_statement, get_stores,
    get_now, put_stores, ret.
  destruct (faults w) as [|[e|] f]; cbn [stores now set_sql_log set_faults];
    try discriminate;
    destruct (execute statement (stores w) (now w)) as [rows s'];
    intros [= <- <-]; done.
Qed.

Lemma select_keeps {R} (P : Stores -> Stores -> Prop) (rows : Stores -> list R)
    text :
  (∀ s, P s s) →
  keeps P (query (mkStatement text (fun s _ => (rows s, s)))).
Proof. intros Hr. apply keeps_query; [done|]. intros s t. apply Hr. Qed.



Lemma processMessage_noop message w :
  (∀ d, find_tenant_document (stores w) message = Some d →
        doc_status d ≠ DELETING) →
  stores (snd (HardDelete.processMessage message w)) = stores w ∧
  (faults w = [] → fst (HardDelete.processMessage message w) = inr tt).
Proof.
  intros Hfind.
  assert (H : ∃ r w',
    HardDelete.processMessage message w = (r, w') ∧
    stores w' = stores w ∧ (faults w = [] → r = inr tt)).
  { unfold HardDelete.processMessage, try_catch. unfold bind at 1.
    pose proof (queryOne_no_fault
      (HardDelete.sql_select_document (msg_documentId message)
                                      (msg_tenantId message)) w) as Hnf.
    destruct (queryOne _ w) as [[e0|document] w0] eqn:Hq.
    - do 2 eexists. split; [reflexivity|]. split.
      + pose proof (keeps_queryOne (fun s s' => s' = s) (fun s => eq_refl)
          (fun s1 s2 s3 H1 H2 => eq_trans H2 H1)
          (HardDelete.sql_select_document (msg_documentId message)
                                          (msg_tenantId message))
          (fun s t => eq_refl) w) as H0.
        rewrite Hq in H0. exact H0.
      + intros Hf. specialize (Hnf Hf). discriminate.
    - apply queryOne_returns in Hq as (-> & Hs & _).
      cbn [execute HardDelete.sql_select_document fst snd] in Hs |- *.
      fold (find_tenant_document (stores w) message) in Hfind |- *.
      destruct (find_tenant_document (stores w) message) as [d|].
      + rewrite bool_decide_false by (by apply Hfind).
        do 2 eexists. split; [reflexivity|]. done.
      + do 2 eexists. split; [reflexivity|]. done. }
  destruct H as (r & w' & -> & Hs & Hf). done.
Qed.


(** The three deletions in their transaction, when no call faults. *)
Lemma delete_rows_no_fault documentId w :
  faults w = [] →
  withTransaction
    (query (HardDelete.sql_delete_processing_jobs documentId) ;;
     query (HardDelete.sql_delete_document_versions documentId) ;;
     query (HardDelete.sql_delete_document documentId) ;;
     ret tt) w
  = (inr tt,
     set_sql_log
       (set_stores w
          (set_documents
             (set_document_versions
                (set_processing_jobs (stores w)
                   (List.filter
                      (fun j => negb (bool_decide
                                        (job_documentId j = documentId)))
                      (processing_jobs (stores w))))
                (List.filter
                   (fun v => negb (bool_decide
                                     (ver_documentId v = documentId)))
                   (document_versions (stores w))))
             (List.filter
                (fun d => negb (bool_decide (doc_id d = documentId)))
                (documents (stores w)))))
       ("COMMIT" :: "DELETE FROM documents WHERE id = $1"
          :: "DELETE FROM document_versions WHERE document_id = $1"
          :: "DELETE FROM processing_jobs WHERE document_id = $1"
          :: "BEGIN" :: sql_log w)).
Proof.
  intros Hf. unfold withTransaction, try_catch.
  unfold bind at 1. unfold external at 1. rewrite Hf.
  unfold bind at 1, get_stores at 1.
  unfold bind at 1. unfold external at 1. rewrite Hf.
  unfold bind at 1, log_statement at 1.
  unfold bind at 1. unfold bind at 1.
  rewrite query_no_fault by done.
  unfold bind at 1. rewrite query_no_fault by done.
  unfold bind at 1. rewrite query_no_fault by done.
  unfold ret at 1.
  unfold bind at 1. unfold external at 1.
  cbn [faults set_stores set_sql_log]. rewrite Hf.
  unfold bind, log_statement, ret.
  cbn [stores now sql_log set_stores set_sql_log execute fst snd sql
       HardDelete.sql_delete_processing_jobs
       HardDelete.sql_delete_document_versions
       HardDelete.sql_delete_document
       set_processing_jobs set_document_versions set_documents
       documents document_versions processing_jobs audit_logs bucket dynamo
       hard_delete_queue faults page_sizes timers].
  reflexivity.
Qed.

Lemma s3_only_stores w w' :
  s3_only w w' → stores w' = set_bucket (stores w) (bucket (stores w')).
Proof. intros (_ & _ & _ & keep & ->). done. Qed.

Lemma processMessage_deletes message w document :
  faults w = [] →
  ascending (bucket (stores w)) →
  find_tenant_document (stores w) message = Some document →
  doc_status document = DELETING →
  ∃ w',
    HardDelete.processMessage message w = (inr tt, w') ∧
    stores w' =
      mkStores (dynamo (stores w))
        (List.filter
           (fun d => negb (bool_decide (doc_id d = msg_documentId message)))
           (documents (stores w)))
        (List.filter
           (fun v => negb (bool_decide
                             (ver_documentId v = msg_documentId message)))
           (document_versions (stores w)))
        (List.filter
           (fun j => negb (bool_decide
                             (job_documentId j = msg_documentId message)))
           (processing_jobs (stores w)))
        (audit_logs (stores w))
        (List.filter
           (outside_document (msg_tenantId message) (msg_documentId message))
           (bucket (stores w)))
        (hard_delete_queue (stores w)) ∧
    sql_log w' =
      "COMMIT" :: "DELETE FROM documents WHERE id = $1"
        :: "DELETE FROM document_versions WHERE document_id = $1"
        :: "DELETE FROM processing_jobs WHERE document_id = $1"
        :: "BEGIN"
        :: sql (HardDelete.sql_select_versions (msg_documentId message))
        :: sql (HardDelete.sql_select_document (msg_documentId message)
                                               (msg_tenantId message))
        :: sql_log w.
Proof.
  intros Hf Hasc Hfind Hst.
  unfold HardDelete.processMessage, try_catch. unfold bind at 1.
  rewrite queryOne_no_fault by done.
  cbn [execute HardDelete.sql_select_document fst snd].
  fold (find_tenant_document (stores w) message). rewrite Hfind, Hst.
  rewrite bool_decide_true by done. cbn [negb].
  unfold bind at 1. rewrite query_no_fault by done.
  cbn [execute HardDelete.sql_select_versions fst snd stores now
       set_stores set_sql_log sql_log].
  unfold bind at 1.
  match goal with
  | |- context [HardDelete.deleteS3Objects _ _ ?w1] =>
      destruct (deleteS3Objects_outcome (msg_tenantId message)
                  (msg_documentId message) w1)
        as (r & w2 & Hrun & Hs3 & Hb & Hf2); [done|]
  end.
  destruct (Hf2 Hf) as [-> Hf2']. rewrite Hrun.
  rewrite delete_rows_no_fault by done.
  eexists. split; [reflexivity|].
  pose proof (s3_only_stores _ _ Hs3) as Hs2.
  rewrite (Hb eq_refl) in Hs2. destruct Hs3 as (_ & Hlog & _).
  cbn [stores sql_log set_stores set_sql_log] in *.
  rewrite Hs2, Hlog. split; reflexivity.
Qed.


(** ** The statements at concrete inputs *)

Lemma admission_count_within_limit_witness :
  has_slot (run sample_calls (tenant_world 1 2 [])) "tenant-1" 2 ∧
  fresh_or_has_slot (run sample_calls empty_world) "tenant-1" ∧
  incrementConcurrency "tenant-1" None (tenant_world 2 2 []) =
    (inl (ConcurrencyLimitExceededError
            (limit_reached_message "tenant-1" 2) "tenant-1" 2 2),
     tenant_world 2 2 []) ∧
  (∀ status w',
     acquireConcurrencySlot "tenant-1" (Some 5)
       (tenant_world 2 2 [None; None]) ≠ (inr status, w')).
Proof.
  destruct (admission_count_within_limit "tenant-1") as (H1 & H2 & H3 & H4).
  split; [|split; [|split]].
  - apply H1. exists 1. split; [|lia]. exists None. reflexivity.
  - apply H2; [reflexivity|]. repeat constructor; cbn; lia.
  - apply H3; [exists None; reflexivity|lia|reflexivity].
  - intros status w'. apply (H4 _ 2). exists None. reflexivity.
Defined.

Lemma stage_invocation_outcomes_witness :
  (∃ w' j',
     enforceAndStartProcessing sample_request (stage_world 2 2) =
       (inr (mkProcessingResponse "doc-1" "ver-1" QUEUED None
               (Some "Tenant concurrency limit reached (2). Task will retry.")),
        w') ∧
     processing_jobs (stores w') = [j'; thumbnail_job] ∧
     job_status j' = PENDING ∧ job_attempts j' = 1) ∧
  (∃ w' j',
     enforceAndStartProcessing sample_request (stage_world 1 2) =
       (inr (mkProcessingResponse "doc-1" "ver-1" ACCEPTED
               (Some (mkConcurrencyStatus "tenant-1" 2 2 0)) None), w') ∧
     processing_jobs (stores w') = [j'; thumbnail_job] ∧
     job_status j' = RUNNING ∧ job_startedAt j' = Some 1000 ∧
     job_attempts j' = 0) ∧
  (∃ w' j',
     completeProcessing "doc-1" "ver-1" "tenant-1" OCR false
       (stage_world 2 2) = (inr tt, w') ∧
     currentCount_of w' "tenant-1" = 1 ∧
     processing_jobs (stores w') = [j'; thumbnail_job] ∧
     job_status j' = FAILED ∧ job_completedAt j' = Some 1000).
Proof.
  assert (Hjob : is_job_of "doc-1" "ver-1" OCR sample_job)
    by (by repeat split).
  assert (Hother : ¬ is_job_of "doc-1" "ver-1" OCR thumbnail_job)
    by (intros (_ & _ & H); discriminate H).
  split; [|split].
  - destruct (stage_invocation_outcomes sample_request (stage_world 2 2))
      as (H1 & _); [reflexivity|].
    destruct (H1 2 2) as (w' & Hrun & _ & Hrows);
      [exists None; reflexivity|lia|].
    destruct (rows_updated_two _ _ _ _ _ Hjob Hother Hrows)
      as (j' & Hjobs & _ & Hstatus & Hattempts).
    exists w', j'. split; [exact Hrun|]. split; [exact Hjobs|].
    split; [exact Hstatus|exact Hattempts].
  - destruct (stage_invocation_outcomes sample_request (stage_world 1 2))
      as (_ & H2 & _); [reflexivity|].
    edestruct H2 as (w' & Hrun & _ & Hrows); [reflexivity|].
    destruct (rows_updated_two _ _ _ _ _ Hjob Hother Hrows)
      as (j' & Hjobs & _ & Hstatus & Hstarted & Hattempts).
    exists w', j'. split; [exact Hrun|]. split; [exact Hjobs|].
    split; [exact Hstatus|]. split; [exact Hstarted|exact Hattempts].
  - destruct (stage_invocation_outcomes sample_request (stage_world 2 2))
      as (_ & _ & H3); [reflexivity|].
    destruct (H3 false) as (w' & Hrun & Hcount & Hrows).
    destruct (rows_updated_two _ _ _ _ _ Hjob Hother Hrows)
      as (j' & Hjobs & _ & Hstatus & Hcompleted & _).
    exists w', j'. split; [exact Hrun|]. split; [exact Hcount|].
    split; [exact Hjobs|]. split; [exact Hstatus|exact Hcompleted].
Defined.

Lemma release_at_zero_reports_default_witness :
  releaseConcurrencySlot "tenant-1" (tenant_world 0 5 []) =
    (inr (mkConcurrencyStatus "tenant-1" 0 10 10), tenant_world 0 5 []) ∧
  getCurrentConcurrency "tenant-1" (tenant_world 0 5 []) =
    (inr (mkConcurrencyStatus "tenant-1" 0 5 5), tenant_world 0 5 []).
Proof.
  apply (release_at_zero_reports_default "tenant-1" 5 None);
    reflexivity.
Defined.

Lemma acquire_zero_limit_is_default_witness :
  fst (acquireConcurrencySlot "tenant-1" (Some 0) empty_world) =
    inr (mkConcurrencyStatus "tenant-1" 1 10 9).
Proof.
  destruct (acquire_zero_limit_is_default "tenant-1" empty_world)
    as [_ H].
  rewrite H; reflexivity.
Defined.

Lemma routeTask_rules_witness :
  workerType (routeTask long_ocr_task) = FARGATE ∧
  workerType (routeTask tiny_scan_task) = FARGATE ∧
  (workerType (routeTask thumbnail_task) = LAMBDA ↔
   (estimateTaskDuration thumbnail_task < inject_Z (15 * 60 * 1000))%Q).
Proof.
  split; [|split].
  - destruct (routeTask_rules long_ocr_task) as (_ & _ & H & _).
    apply H. right. cbn. lia.
  - destruct (routeTask_rules tiny_scan_task) as (_ & H & _).
    apply H. reflexivity.
  - destruct (routeTask_rules thumbnail_task) as (_ & _ & _ & _ & _ & H).
    apply H; cbn; [discriminate|lia|lia].
Defined.

Lemma retry_policy_witness :
  retryWithExponentialBackoff (throw (A := unit) validation_error) no_config
    empty_world = (inl validation_error, empty_world) ∧
  retryWithExponentialBackoff (throw (A := unit) timeout_error) no_config
    empty_world
  = throw timeout_error
      (world_before_attempt (throw (A := unit) timeout_error)
         (merge_config no_config) 1 4 empty_world).
Proof.
  split.
  - destruct (retry_policy (throw (A := unit) validation_error) no_config
                empty_world) as (_ & H & _).
    apply H; [cbn; lia|reflexivity|reflexivity].
  - destruct (retry_policy (throw (A := unit) timeout_error) no_config
                empty_world) as (_ & _ & H).
    apply H; [cbn; lia|].
    intros k _. exists timeout_error. split; reflexivity.
Defined.

Lemma delete_document_existing_forbidden_witness :
  doc_tenantId held_document = "tenant-1" ∧
  doc_legalHold held_document = true ∧
  ∃ w',
    DeleteDocument.handler delete_event held_world =
      (inr (DeleteDocument.mkResult 403
              (DeleteDocument.ErrorBody "FORBIDDEN"
                 "Cannot delete document from different tenant" 1000)),
       w') ∧
    stores w' = stores held_world.
Proof.
  split; [reflexivity|]. split; [reflexivity|].
  apply (delete_document_existing_forbidden delete_event
           (DeleteDocument.mkAuthContext "user-1" "tenant-1"
              "user@example.com" [])
           "doc-1" held_world);
    [reflexivity|reflexivity|discriminate|reflexivity|].
  exists held_document. split; [left; reflexivity|reflexivity].
Defined.

Lemma retention_sweep_marks_expired_witness :
  ∃ w' marked,
    Retention.handler retention_world = (inr tt, w') ∧
    documents (stores w') = [marked; deleted_document "doc-new" (85 * day)] ∧
    doc_id marked = "doc-old" ∧ doc_status marked = DELETING ∧
    doc_updatedAt marked = 100 * day ∧
    hard_delete_queue (stores w') = [].
Proof.
  destruct (retention_sweep_marks_expired retention_world)
    as (w' & Hrun & Hrows & Hq & _).
  - reflexivity.
  - cbn. constructor; [|constructor; [|constructor]].
    + intros [H|[]]. discriminate.
    + intros [].
  - destruct (rows_updated_two (past_retention (100 * day))
                (row_deleting (100 * day))
                (deleted_document "doc-old" (69 * day))
                (deleted_document "doc-new" (85 * day))
                (documents (stores w')))
      as (marked & Hdocs & (Hid & _) & Hstatus & _ & Hupdated).
    + split; [reflexivity|]. split; [reflexivity|].
      exists (69 * day). split; [reflexivity|]. vm_compute. reflexivity.
    + intros (_ & _ & deletedAt & [= <-] & Hlt). vm_compute in Hlt.
      discriminate Hlt.
    + exact Hrows.
    + exists w', marked. split; [exact Hrun|]. split; [exact Hdocs|].
      split; [exact Hid|]. split; [exact Hstatus|].
      split; [exact Hupdated|exact Hq].
Defined.


(** * Shared lemmas of the further properties *)

(** ** The outcomes of a query *)

(** A query either throws and leaves the stores as they are, or runs its
    statement; it does not move the clock. *)
Lemma query_outcome {R} (statement : Statement R) w :
  ∃ r w',
    query statement w = (r, w') ∧ now w' = now w ∧
    (faults w = [] → faults w' = []) ∧
    match r with
    | inl _ => stores w' = stores w
    | inr rows =>
        rows = fst (execute statement (stores w) (now w)) ∧
        stores w' = snd (execute statement (stores w) (now w))
    end.
Proof.
  unfold query, bind, external, log_statement, get_stores, get_now,
    put_stores, ret.
  destruct (faults w) as [|[e|] f] eqn:Hf;
    cbn [stores now set_sql_log set_faults].
  - destruct (execute statement (stores w) (now w)) as [rows s'].
    do 2 eexists. split; [reflexivity|]. by repeat split.
  - do 2 eexists. split; [reflexivity|]. by repeat split.
  - destruct (execute statement (stores w) (now w)) as [rows s'].
    do 2 eexists. split; [reflexivity|]. by repeat split.
Qed.

(** [createAuditLog] never throws; it appends its entry, or nothing when
    the insertion fails, as it does for an action that the table does not
    allow. *)
Lemma createAuditLog_outcome params w :
  ∃ w',
    createAuditLog params w = (inr tt, w') ∧ now w' = now w ∧
    (faults w = [] → faults w' = []) ∧
    (stores w' = stores w ∨
     stores w' =
       set_audit_logs (stores w)
         (audit_logs (stores w) ++ [audit_entry params])) ∧
    (faults w = [] → audit_action_allowed (p_action params) = true →
     stores w' =
       set_audit_logs (stores w)
         (audit_logs (stores w) ++ [audit_entry params])) ∧
    (audit_action_allowed (p_action params) = false →
     stores w' = stores w).
Proof.
  unfold createAuditLog, try_catch, bind at 1.
  fold (audit_entry params).
  unfold sql_insert_audit_log.
  change (log_action (audit_entry params)) with (p_action params).
  destruct (audit_action_allowed (p_action params)).
  - match goal with
    | |- context [query ?statement w] =>
        pose proof (query_no_fault statement w) as Hnf;
        destruct (query_outcome statement w)
          as (r & w' & Hq & Hn & Hf & Hr)
    end.
    rewrite Hq in Hnf |- *.
    destruct r as [e|rows]; unfold ret; eexists; (split; [reflexivity|]).
    + split; [done|]. split; [done|]. split; [by left|].
      split; [|done]. intros H. specialize (Hnf H). discriminate.
    + destruct Hr as [_ Hr]. cbn [execute snd] in Hr.
      split; [done|]. split; [done|]. split; [by right|done].
  - unfold bind, external, throw, ret.
    destruct (faults w) as [|[e|] f] eqn:Hf; cbn [stores now set_faults];
      eexists; (split; [reflexivity|]);
      cbn [stores now faults set_faults]; repeat split; try done;
      by left.
Qed.

(** * Further properties *)

(** ** Admission control *)

(** An acquisition below the limit, without faults: the count goes up by
    one and the stored limit stays. *)
Lemma incrementConcurrency_granted tenantId r w c L :
  slot_is w tenantId c L → c < L → faults w = [] →
  incrementConcurrency tenantId r w =
    (inr (status_of tenantId (c + 1) L), with_slot w tenantId (c + 1) L).
Proof.
  intros [u Hl] Hlt Hf. run_monad. rewrite Hf, Hl.
  unfold increment_expression.
  cbn [mbind option_bind current_count concurrency_limit].
  destruct (c <? L) eqn:E; [|apply Z.ltb_ge in E; lia].
  reflexivity.
Qed.

(** The first acquisition of a tenant stores the requested limit. *)
Lemma incrementConcurrency_first tenantId r w :
  dynamo (stores w) !! tenantId = None → faults w = [] →
  incrementConcurrency tenantId r w =
    (inr (status_of tenantId 1 (js_or r DEFAULT_CONCURRENCY_LIMIT)),
     with_slot w tenantId 1 (js_or r DEFAULT_CONCURRENCY_LIMIT)).
Proof.
  intros Hl Hf. run_monad. rewrite Hf, Hl. reflexivity.
Qed.

Lemma with_slot_slot_is w tenantId c L : slot_is (with_slot w tenantId c L) tenantId c L.
Proof.
  exists (Some (now w)). unfold with_slot. cbn. by rewrite lookup_insert_eq.
Qed.

Lemma acquire_repeatedly_fills tenantId r L :
  ∀ n c w,
    slot_is w tenantId c L → faults w = [] → c + Z.of_nat n <= L →
    ∃ w',
      acquire_repeatedly n tenantId r w =
        (map (fun k => inr (status_of tenantId k L))
             (seqZ (c + 1) (Z.of_nat n)), w') ∧
      slot_is w' tenantId (c + Z.of_nat n) L ∧ faults w' = [].
Proof.
  induction n as [|n IH]; intros c w Hs Hf Hle.
  - exists w. cbn [acquire_repeatedly Z.of_nat]. rewrite Z.add_0_r.
    by rewrite seqZ_nil.
  - cbn [acquire_repeatedly]. unfold acquireConcurrencySlot.
    rewrite (incrementConcurrency_granted tenantId r w c L) by (done || lia).
    destruct (IH (c + 1) (with_slot w tenantId (c + 1) L))
      as (w' & -> & Hs' & Hf'); [apply with_slot_slot_is|done|lia|].
    exists w'. split; [|split; [|done]].
    + replace (Z.of_nat (S n)) with (Z.succ (Z.of_nat n)) by lia.
      rewrite (seqZ_cons (c + 1) (Z.succ (Z.of_nat n))) by lia. cbn [map].
      replace (Z.succ (c + 1)) with (c + 1 + 1) by lia.
      by replace (Z.pred (Z.succ (Z.of_nat n))) with (Z.of_nat n) by lia.
    + by replace (c + Z.of_nat (S n)) with (c + 1 + Z.of_nat n) by lia.
Qed.

(** X1.  A tenant without an item, no faults, a limit [L >= 1] (the
    requested one, or [10] for none or zero): the first [L] acquisitions in
    a row succeed and report the counts [1 .. L] of [L]; the count is then
    [L], and the next acquisition is refused with
    [ConcurrencyLimitExceededError] carrying count [L] and limit [L], and
    writes nothing. *)
Theorem acquire_until_limit (tenantId : string) (r : option Z) (w : World) :
  let L := js_or r DEFAULT_CONCURRENCY_LIMIT in
  dynamo (stores w) !! tenantId = None → faults w = [] → 1 <= L →
  ∃ w',
    acquire_repeatedly (Z.to_nat L) tenantId r w =
      (map (fun k => inr (status_of tenantId k L)) (seqZ 1 L), w') ∧
    slot_is w' tenantId L L ∧
    acquireConcurrencySlot tenantId r w' =
      (inl (ConcurrencyLimitExceededError
              (limit_reached_message tenantId L) tenantId L L), w').
Proof.
  cbn zeta. set (L := js_or r DEFAULT_CONCURRENCY_LIMIT).
  intros Hl Hf HL.
  destruct (Z.to_nat L) as [|n] eqn:Hn; [lia|].
  cbn [acquire_repeatedly]. unfold acquireConcurrencySlot at 1.
  rewrite incrementConcurrency_first by done. fold L.
  destruct (acquire_repeatedly_fills tenantId r L n 1
              (with_slot w tenantId 1 L))
    as (w' & -> & Hs' & Hf'); [apply with_slot_slot_is|done|lia|].
  replace (1 + Z.of_nat n) with L in * by lia.
  exists w'. split; [|split; [done|]].
  - rewrite (seqZ_cons 1 L) by lia. cbn [map].
    by replace (Z.pred L) with (Z.of_nat n) by lia.
  - unfold acquireConcurrencySlot.
    apply incrementConcurrency_denied; [done|lia|done].
Qed.

(** A release above zero, without faults: the count goes down by one. *)
Lemma decrementConcurrency_granted tenantId w c L :
  slot_is w tenantId c L → 0 < c → faults w = [] →
  decrementConcurrency tenantId w =
    (inr (status_of tenantId (c - 1) L), with_slot w tenantId (c - 1) L).
Proof.
  intros [u Hl] Hlt Hf. run_monad. rewrite Hf, Hl.
  cbn [decrement_expression current_count concurrency_limit].
  destruct (0 <? c) eqn:E; [|apply Z.ltb_ge in E; lia].
  reflexivity.
Qed.

(** X2.  [withConcurrencyControl] on a tenant with count [c] and limit
    [L], without faults, around an operation that leaves the DynamoDB
    table and an exhausted fault script alone.  Below the limit the
    operation runs with the count at [c + 1]; whether it returns or
    throws, its outcome is the outcome of the call and the count is back
    at [c].  At the limit the operation does not run: the call throws
    [ConcurrencyLimitExceededError] and the world is as before. *)
Theorem withConcurrencyControl_outcome {T} (tenantId : string)
    (limit : option Z) (operation : M T) (c L : Z) (w : World) :
  slot_is w tenantId c L → 0 <= c → faults w = [] →
  (∀ w1, faults w1 = [] →
         faults (snd (operation w1)) = [] ∧
         dynamo (stores (snd (operation w1))) = dynamo (stores w1)) →
  (c < L →
   let w1 := with_slot w tenantId (c + 1) L in
   fst (withConcurrencyControl tenantId operation limit w)
     = fst (operation w1) ∧
   slot_is (snd (withConcurrencyControl tenantId operation limit w))
     tenantId c L) ∧
  (¬ c < L →
   withConcurrencyControl tenantId operation limit w =
     (inl (ConcurrencyLimitExceededError
             (limit_reached_message tenantId L) tenantId c L), w)).
Proof.
  intros Hs Hc Hf Hop. split.
  - intros Hlt. cbn zeta. unfold withConcurrencyControl, acquireConcurrencySlot.
    rewrite (incrementConcurrency_granted tenantId limit w c L) by done.
    unfold try_finally.
    destruct (Hop (with_slot w tenantId (c + 1) L)) as [Hf2 Hd2]; [done|].
    destruct (operation (with_slot w tenantId (c + 1) L)) as [res w2].
    cbn [fst snd] in *.
    assert (Hs2 : slot_is w2 tenantId (c + 1) L).
    { destruct (with_slot_slot_is w tenantId (c + 1) L) as [u Hu].
      exists u. by rewrite Hd2. }
    unfold try_catch, bind, ret, releaseConcurrencySlot.
    rewrite (decrementConcurrency_granted tenantId w2 (c + 1) L)
      by (done || lia).
    cbn [fst snd]. split; [done|].
    replace (c + 1 - 1) with c by lia. apply with_slot_slot_is.
  - intros Hge. unfold withConcurrencyControl, acquireConcurrencySlot.
    by rewrite (incrementConcurrency_denied tenantId limit w c L).
Qed.

(** ** The enforcement wrapper *)

(** Two row-wise changes after one another, when the first keeps the
    selection. *)
Lemma rows_changed_trans {A} (where_ : A -> bool) (R1 R2 R : A -> A -> Prop)
    (l l1 l2 : list A) :
  (∀ a b, where_ a = true → R1 a b → where_ b = true) →
  (∀ a b c, R1 a b → R2 b c → R a c) →
  rows_changed where_ R1 l l1 → rows_changed where_ R2 l1 l2 →
  rows_changed where_ R l l2.
Proof.
  intros Hsel Hcomp H1. revert l2.
  induction H1 as [|a b l l1 Hab _ IH]; intros l2 H2;
    inversion H2 as [|? c ? l2' Hbc H2']; subst; constructor.
  - destruct (where_ a) eqn:Ea.
    + rewrite (Hsel a b Ea Hab) in Hbc. by eapply Hcomp.
    + subst b. rewrite Ea in Hbc. done.
  - by apply IH.
Qed.

Lemma same_job_matches documentId versionId jobType j j' :
  same_job j j' →
  job_matches documentId versionId jobType j' =
  job_matches documentId versionId jobType j.
Proof.
  intros (_ & Hd & Hv & Ht). unfold job_matches. by rewrite Hd, Hv, Ht.
Qed.

(** The stage starts: the slot is taken and the rows are [RUNNING]. *)
Lemma enforceAndStartProcessing_accepted request c L w :
  slot_is w (req_tenantId request) c L → c < L → faults w = [] →
  ∃ w',
    enforceAndStartProcessing request w =
      (inr (mkProcessingResponse (req_documentId request)
              (req_versionId request) ACCEPTED
              (Some (status_of (req_tenantId request) (c + 1) L)) None),
       w') ∧
    faults w' = [] ∧ now w' = now w ∧
    slot_is w' (req_tenantId request) (c + 1) L ∧
    rows_changed
      (job_matches (req_documentId request) (req_versionId request)
         (req_jobType request))
      (fun j j' => row_running (now w) j j' ∧
                   job_errorMessage j' = job_errorMessage j)
      (processing_jobs (stores w)) (processing_jobs (stores w')).
Proof.
  intros Hs Hlt Hf.
  unfold enforceAndStartProcessing, try_catch, bind at 1.
  unfold acquireConcurrencySlot.
  rewrite (incrementConcurrency_granted _ _ _ _ _ Hs Hlt Hf).
  unfold bind, ret. rewrite query_no_fault by done.
  eexists. split; [reflexivity|].
  split; [done|]. split; [done|]. split.
  - destruct (with_slot_slot_is w (req_tenantId request) (c + 1) L)
      as [u Hu].
    exists u. exact Hu.
  - cbn [stores set_stores sql_job_running execute].
    change (processing_jobs (stores w)) with
      (processing_jobs
         (stores (with_slot w (req_tenantId request) (c + 1) L))).
    apply update_jobs_rows. intros j _. by repeat split.
Qed.

(** The stage ends well or badly: the slot is given back and the rows get
    their final status. *)
Lemma completeProcessing_returns documentId versionId tenantId jobType
    success c L w :
  slot_is w tenantId c L → 0 < c → faults w = [] →
  ∃ w',
    completeProcessing documentId versionId tenantId jobType success w
      = (inr tt, w') ∧
    faults w' = [] ∧ slot_is w' tenantId (c - 1) L ∧
    rows_changed (job_matches documentId versionId jobType)
      (fun j j' =>
         row_completed (if success then COMPLETED else FAILED) (now w) j j'
         ∧ job_startedAt j' = job_startedAt j
         ∧ job_errorMessage j' = job_errorMessage j)
      (processing_jobs (stores w)) (processing_jobs (stores w')).
Proof.
  intros Hs Hlt Hf.
  unfold completeProcessing, try_catch, bind at 1.
  unfold releaseConcurrencySlot.
  rewrite (decrementConcurrency_granted _ _ _ _ Hs Hlt Hf).
  unfold bind, ret. rewrite query_no_fault by done.
  eexists. split; [reflexivity|].
  split; [done|]. split.
  - destruct (with_slot_slot_is w tenantId (c - 1) L) as [u Hu].
    exists u. exact Hu.
  - cbn [stores set_stores sql_job_completed execute].
    change (processing_jobs (stores w)) with
      (processing_jobs (stores (with_slot w tenantId (c - 1) L))).
    apply update_jobs_rows. intros j _. by repeat split.
Qed.

Lemma handleProcessingFailure_returns documentId versionId tenantId jobType
    error c L w :
  slot_is w tenantId c L → 0 < c → faults w = [] →
  ∃ w',
    handleProcessingFailure documentId versionId tenantId jobType error w
      = (inr tt, w') ∧
    faults w' = [] ∧ slot_is w' tenantId (c - 1) L ∧
    rows_changed (job_matches documentId versionId jobType)
      (fun j j' =>
         row_completed FAILED (now w) j j'
         ∧ job_startedAt j' = job_startedAt j
         ∧ job_errorMessage j' = Some (error_message error))
      (processing_jobs (stores w)) (processing_jobs (stores w')).
Proof.
  intros Hs Hlt Hf.
  unfold handleProcessingFailure, try_catch, bind at 1.
  unfold releaseConcurrencySlot.
  rewrite (decrementConcurrency_granted _ _ _ _ Hs Hlt Hf).
  unfold bind, ret. rewrite query_no_fault by done.
  eexists. split; [reflexivity|].
  split; [done|]. split.
  - destruct (with_slot_slot_is w tenantId (c - 1) L) as [u Hu].
    exists u. exact Hu.
  - cbn [stores set_stores sql_job_failed execute].
    change (processing_jobs (stores w)) with
      (processing_jobs (stores (with_slot w tenantId (c - 1) L))).
    apply update_jobs_rows. intros j _. by repeat split.
Qed.

(** X3.  The wrapper on a tenant at its limit [L], without faults: the
    operation is not invoked; the rows of the job go to [PENDING] with one
    more attempt and the rows of other jobs stay as they are; and the
    error thrown is [ConcurrencyLimitExceededError] with the message
    "Tenant concurrency limit reached (L). Task will retry." and with
    count [0] and limit [0], whatever the count and the limit of the
    tenant are. *)
Theorem wrapper_at_limit_does_not_run {T} (wrapper : ProcessingRequest)
    (c L : Z) (w : World) :
  slot_is w (req_tenantId wrapper) c L → ¬ c < L → faults w = [] →
  ∃ w',
    (∀ operation : M T,
       executeWithConcurrencyEnforcement wrapper operation w =
         (inl (ConcurrencyLimitExceededError
                 ("Tenant concurrency limit reached (" ++ pretty L
                    ++ "). Task will retry.")
                 (req_tenantId wrapper) 0 0), w')) ∧
    dynamo (stores w') = dynamo (stores w) ∧
    rows_updated
      (is_job_of (req_documentId wrapper) (req_versionId wrapper)
         (req_jobType wrapper))
      row_pending
      (processing_jobs (stores w)) (processing_jobs (stores w')).
Proof.
  intros Hs Hge Hf.
  assert (Hq : ∃ w',
    enforceAndStartProcessing
      (mkProcessingRequest (req_documentId wrapper) (req_versionId wrapper)
         (req_tenantId wrapper) (req_jobType wrapper)
         (req_concurrencyLimit wrapper)) w =
      (inr (mkProcessingResponse (req_documentId wrapper)
              (req_versionId wrapper) QUEUED None
              (Some (queued_reason L))), w') ∧
    dynamo (stores w') = dynamo (stores w) ∧
    rows_changed
      (job_matches (req_documentId wrapper) (req_versionId wrapper)
         (req_jobType wrapper))
      row_pending
      (processing_jobs (stores w)) (processing_jobs (stores w'))).
  { unfold enforceAndStartProcessing, try_catch, bind at 1.
    unfold acquireConcurrencySlot.
    cbn [req_tenantId req_documentId req_versionId req_jobType
         req_concurrencyLimit].
    rewrite (incrementConcurrency_denied _ _ _ _ _ Hs Hge Hf).
    unfold bind, ret. rewrite query_no_fault by done.
    eexists. split; [reflexivity|].
    split; [done|]. cbn [stores set_stores sql_job_pending execute].
    apply update_jobs_rows. intros j _. by repeat split. }
  destruct Hq as (w' & Hq & Hd & Hrows).
  exists w'. split; [|split; [done|by apply job_rows_updated]].
  intros operation. unfold executeWithConcurrencyEnforcement, bind at 1.
  rewrite Hq. reflexivity.
Qed.

(** X4.  The wrapper below the limit, without faults, around an operation
    that leaves the stores, the clock and an exhausted fault script alone:
    the outcome of the operation is the outcome of the call, the count of
    the tenant is back at [c], and the rows of the job are started and
    completed at the current time, [COMPLETED] with their error message
    untouched when the operation returned, [FAILED] with the message of
    the error when it threw; the rows of other jobs stay as they are. *)
Theorem wrapper_below_limit_accounts {T} (wrapper : ProcessingRequest)
    (operation : M T) (outcome : Error + T) (c L : Z) (w : World) :
  slot_is w (req_tenantId wrapper) c L → 0 <= c < L → faults w = [] →
  (∀ w0, faults w0 = [] →
         ∃ w1, operation w0 = (outcome, w1) ∧ stores w1 = stores w0 ∧
               now w1 = now w0 ∧ faults w1 = []) →
  ∃ w',
    executeWithConcurrencyEnforcement wrapper operation w = (outcome, w') ∧
    slot_is w' (req_tenantId wrapper) c L ∧
    rows_updated
      (is_job_of (req_documentId wrapper) (req_versionId wrapper)
         (req_jobType wrapper))
      (fun j j' =>
         match outcome with
         | inr _ =>
             row_finished COMPLETED (now w) j j' ∧
             job_errorMessage j' = job_errorMessage j
         | inl error =>
             row_finished FAILED (now w) j j' ∧
             job_errorMessage j' = Some (error_message error)
         end)
      (processing_jobs (stores w)) (processing_jobs (stores w')).
Proof.
  intros Hs Hc Hf Hop.
  destruct (enforceAndStartProcessing_accepted
              (mkProcessingRequest (req_documentId wrapper)
                 (req_versionId wrapper) (req_tenantId wrapper)
                 (req_jobType wrapper) (req_concurrencyLimit wrapper))
              c L w) as (w1 & Hstart & Hf1 & Hn1 & Hs1 & Hrows1);
    [done|lia|done|].
  cbn [req_tenantId req_documentId req_versionId req_jobType] in *.
  destruct (Hop w1 Hf1) as (w2 & Hrun & Hst2 & Hn2 & Hf2).
  assert (Hs2 : slot_is w2 (req_tenantId wrapper) (c + 1) L).
  { destruct Hs1 as [u Hu]. exists u. by rewrite Hst2. }
  unfold executeWithConcurrencyEnforcement, bind at 1. rewrite Hstart.
  cbn [resp_status]. unfold try_catch, bind at 1. rewrite Hrun.
  destruct outcome as [error|v].
  - destruct (handleProcessingFailure_returns (req_documentId wrapper)
                (req_versionId wrapper) (req_tenantId wrapper)
                (req_jobType wrapper) error (c + 1) L w2)
      as (w3 & Hfail & _ & Hs3 & Hrows3); [done|lia|done|].
    unfold bind, throw. rewrite Hfail.
    exists w3. split; [done|].
    replace (c + 1 - 1) with c in Hs3 by lia. split; [done|].
    rewrite Hst2 in Hrows3. rewrite Hn2, Hn1 in Hrows3.
    apply job_rows_updated.
    eapply rows_changed_trans; [| |exact Hrows1|exact Hrows3].
    + intros a b Ha ((Hsame & _) & _).
      by rewrite (same_job_matches _ _ _ a b).
    + intros a b d ((Hab & Hrun' & Hstarted & Hatt) & Hm)
             ((Hbd & Hst & Hcompl & Hatt') & Hstarted' & Hmsg).
      split; [|done]. unfold row_finished. split.
      * destruct Hab as (? & ? & ? & ?), Hbd as (? & ? & ? & ?).
        unfold same_job. repeat split; congruence.
      * repeat split; congruence.
  - destruct (completeProcessing_returns (req_documentId wrapper)
                (req_versionId wrapper) (req_tenantId wrapper)
                (req_jobType wrapper) true (c + 1) L w2)
      as (w3 & Hdone & _ & Hs3 & Hrows3); [done|lia|done|].
    unfold bind, ret. rewrite Hdone.
    exists w3. split; [done|].
    replace (c + 1 - 1) with c in Hs3 by lia. split; [done|].
    rewrite Hst2 in Hrows3. rewrite Hn2, Hn1 in Hrows3.
    apply job_rows_updated.
    eapply rows_changed_trans; [| |exact Hrows1|exact Hrows3].
    + intros a b Ha ((Hsame & _) & _).
      by rewrite (same_job_matches _ _ _ a b).
    + intros a b d ((Hab & Hrun' & Hstarted & Hatt) & Hm)
             ((Hbd & Hst & Hcompl & Hatt') & Hstarted' & Hmsg).
      split.
      * unfold row_finished. split.
        { destruct Hab as (? & ? & ? & ?), Hbd as (? & ? & ? & ?).
          unfold same_job. repeat split; congruence. }
        repeat split; congruence.
      * congruence.
Qed.

(** ** Retries *)

(** The loop ends with the first invocation that settles it, and with the
    last one in any case. *)
Lemma retry_from_until {T} (operation : M T) cfg :
  ∀ k remaining attempt lastError w,
    attempt + Z.of_nat remaining = maxAttempts cfg + 1 →
    (k < remaining)%nat →
    (∀ j, (j < k)%nat →
          settles cfg
            (fst (operation (world_before_attempt operation cfg attempt j w)))
          = false) →
    settles cfg
      (fst (operation (world_before_attempt operation cfg attempt k w)))
      = true ∨ k = (remaining - 1)%nat →
    retry_from operation cfg remaining attempt lastError w =
    operation (world_before_attempt operation cfg attempt k w).
Proof.
  induction k as [|k IH]; intros remaining attempt lastError w Hn Hk Hfail Hend;
    (destruct remaining as [|remaining]; [lia|]);
    cbn [retry_from world_before_attempt]; unfold try_catch.
  - cbn [world_before_attempt] in Hend.
    destruct (operation w) as [[e|v] w1]; [|done].
    cbn [fst settles] in Hend. unfold throw.
    destruct Hend as [Hend|Hend].
    + apply negb_true_iff in Hend. rewrite Hend. by rewrite orb_true_r.
    + replace (attempt =? maxAttempts cfg) with true
        by (symmetry; apply Z.eqb_eq; lia).
      reflexivity.
  - pose proof (Hfail 0%nat ltac:(lia)) as H0.
    cbn [world_before_attempt] in H0.
    destruct (operation w) as [[e|v] w1] eqn:Hop; cbn [fst settles] in H0;
      [|discriminate].
    apply negb_false_iff in H0. rewrite H0.
    replace (attempt =? maxAttempts cfg) with false
      by (symmetry; apply Z.eqb_neq; lia).
    cbn [orb negb snd]. unfold bind at 1. cbn [sleep].
    apply IH; [lia|lia| |].
    + intros j Hj. specialize (Hfail (S j) ltac:(lia)).
      cbn [world_before_attempt] in Hfail. by rewrite Hop in Hfail.
    + destruct Hend as [Hend|Hend]; [left|right; lia].
      cbn [world_before_attempt] in Hend. by rewrite Hop in Hend.
Qed.

Lemma world_before_attempt_timers {T} (operation : M T) cfg :
  (∀ w0, timers (snd (operation w0)) = timers w0) →
  ∀ k attempt w,
    timers (world_before_attempt operation cfg attempt k w) =
    (backoff_delays cfg attempt k ++ timers w)%list.
Proof.
  intros Hop. unfold backoff_delays.
  induction k as [|k IH]; intros attempt w.
  - cbn [world_before_attempt Z.of_nat]. by rewrite seqZ_nil.
  - cbn [world_before_attempt]. rewrite IH. cbn [sleep snd timers set_now
      set_timers]. rewrite Hop.
    replace (Z.of_nat (S k)) with (Z.succ (Z.of_nat k)) by lia.
    rewrite (seqZ_cons attempt (Z.succ (Z.of_nat k))) by lia.
    replace (Z.pred (Z.succ (Z.of_nat k))) with (Z.of_nat k) by lia.
    replace (Z.succ attempt) with (attempt + 1) by lia.
    cbn [map rev]. by rewrite <- app_assoc.
Qed.

(** X5.  When the first [k] invocations throw retryable errors and the
    next one, still within [maxAttempts], returns or throws an error that
    is not retryable, the outcome of the retry is the outcome of that
    invocation: a success after [k] failures is returned, and an error
    that is not retryable ends the retry at once. *)
Theorem retry_ends_at_first_settled {T} (operation : M T)
    (config : PartialRetryConfig) (k : nat) (w : World) :
  let cfg := merge_config config in
  (k < Z.to_nat (maxAttempts cfg))%nat →
  (∀ j, (j < k)%nat →
        settles cfg
          (fst (operation (world_before_attempt operation cfg 1 j w)))
        = false) →
  settles cfg
    (fst (operation (world_before_attempt operation cfg 1 k w))) = true →
  retryWithExponentialBackoff operation config w =
    operation (world_before_attempt operation cfg 1 k w).
Proof.
  cbn zeta. intros Hk Hfail Hend. unfold retryWithExponentialBackoff.
  apply retry_from_until; [lia|done|done|by left].
Qed.

(** X6.  The sleeps of a retry, around an operation that sets no timer of
    its own: when the retry ends at invocation [k + 1] (the first that
    settles it, or the last one allowed), the delays handed to
    [setTimeout] are exactly those of the attempts [1 .. k], so at most
    [maxAttempts - 1] of them; there is no sleep after the invocation that
    ends the retry. *)
Theorem retry_sleeps_between_attempts {T} (operation : M T)
    (config : PartialRetryConfig) (k : nat) (w : World) :
  let cfg := merge_config config in
  (∀ w0, timers (snd (operation w0)) = timers w0) →
  (k < Z.to_nat (maxAttempts cfg))%nat →
  (∀ j, (j < k)%nat →
        settles cfg
          (fst (operation (world_before_attempt operation cfg 1 j w)))
        = false) →
  settles cfg
    (fst (operation (world_before_attempt operation cfg 1 k w))) = true
  ∨ k = (Z.to_nat (maxAttempts cfg) - 1)%nat →
  timers (snd (retryWithExponentialBackoff operation config w)) =
    (backoff_delays cfg 1 k ++ timers w)%list ∧
  (length (backoff_delays cfg 1 k) < Z.to_nat (maxAttempts cfg))%nat.
Proof.
  cbn zeta. intros Hop Hk Hfail Hend. split.
  - unfold retryWithExponentialBackoff.
    rewrite (retry_from_until operation (merge_config config) k)
      by (done || lia).
    rewrite Hop. by apply world_before_attempt_timers.
  - unfold backoff_delays.
    rewrite length_rev, length_map, length_seqZ. lia.
Qed.

(** X7.  With [maxAttempts] at zero or below the operation is never
    invoked: the retry throws [Error('Retry failed with unknown error')]
    and the world is as before. *)
Theorem retry_without_attempts {T} (operation : M T)
    (config : PartialRetryConfig) (w : World) :
  maxAttempts (merge_config config) <= 0 →
  retryWithExponentialBackoff operation config w =
    (inl (JsError "Error" "Retry failed with unknown error"), w).
Proof.
  intros Hmax. unfold retryWithExponentialBackoff.
  replace (Z.to_nat (maxAttempts (merge_config config))) with 0%nat by lia.
  reflexivity.
Qed.

(** X8.  The backoff delay for a base delay that is not negative and a
    positive cap: it lies between zero and the cap, it does not decrease
    with the attempt, and without a cap it doubles from one attempt to the
    next, starting at the base delay. *)
Theorem calculateExponentialBackoff_bounds (attempt : Z) (base cap : Q) :
  1 <= attempt → (0 <= base)%Q → (0 < cap)%Q →
  (0 <= calculateExponentialBackoff attempt base (Some cap))%Q ∧
  (calculateExponentialBackoff attempt base (Some cap) <= cap)%Q ∧
  (calculateExponentialBackoff attempt base (Some cap)
   <= calculateExponentialBackoff (attempt + 1) base (Some cap))%Q ∧
  (calculateExponentialBackoff (attempt + 1) base None
   == 2 * calculateExponentialBackoff attempt base None)%Q ∧
  (calculateExponentialBackoff 1 base None == base)%Q.
Proof.
  intros Ha Hb Hc. unfold calculateExponentialBackoff.
  assert (Hcap : Qeq_bool cap 0 = false).
  { apply not_true_is_false. intros H. apply Qeq_bool_iff in H.
    rewrite H in Hc. by apply Qlt_irrefl in Hc. }
  rewrite Hcap.
  assert (Hp : (0 <= 2 ^ (attempt - 1))%Q) by (by apply Qpower_0_le).
  assert (Hd : (0 <= base * 2 ^ (attempt - 1))%Q)
    by (by apply Qmult_le_0_compat).
  assert (Hstep : (base * 2 ^ (attempt + 1 - 1)
                   == 2 * (base * 2 ^ (attempt - 1)))%Q).
  { replace (attempt + 1 - 1) with (1 + (attempt - 1)) by lia.
    rewrite Qpower_plus by done. change (2 ^ 1)%Q with 2%Q. ring. }
  split; [|split; [|split; [|split]]].
  - apply Q.min_glb; [done|by apply Qlt_le_weak].
  - apply Q.le_min_r.
  - apply Q.min_le_compat_r. rewrite Hstep.
    set (x := (base * 2 ^ (attempt - 1))%Q) in *.
    assert (E : (2 * x == x + x)%Q) by ring. rewrite E.
    rewrite <- (Qplus_0_l x) at 1.
    apply Qplus_le_compat; [done|apply Qle_refl].
  - exact Hstep.
  - change (2 ^ (1 - 1))%Q with 1%Q. ring.
Qed.

(** ** Retryable errors *)

Lemma prefix_occurs p s :
  String.prefix p s = true ↔ ∃ after, s = p ++ after.
Proof.
  revert s. induction p as [|a p IH]; intros s.
  - split; [intros _; exists s; reflexivity|]. by destruct s.
  - destruct s as [|b s]; cbn [String.prefix].
    + split; [done|intros [after [=]]].
    + destruct (ascii_dec a b) as [->|Hne].
      * rewrite IH. split; intros [after H]; exists after.
        -- cbn. by rewrite H.
        -- cbn in H. by injection H.
      * split; [done|]. intros [after H]. cbn in H. injection H as H _.
        by destruct Hne.
Qed.

Lemma includes_occurs_in hay needle :
  includes hay needle = true ↔ occurs_in needle hay.
Proof.
  unfold occurs_in. split.
  - induction hay as [|a hay IH]; cbn [includes];
      rewrite orb_true_iff; intros [H|H].
    + apply prefix_occurs in H as [after H]. by exists "", after.
    + done.
    + apply prefix_occurs in H as [after H]. by exists "", after.
    + destruct (IH H) as (before & after & ->).
      by exists (String a before), after.
  - intros (before & after & ->).
    induction before as [|a before IH].
    + change (includes (needle ++ after) needle = true).
      assert (String.prefix needle (needle ++ after) = true) as H
        by (apply prefix_occurs; by exists after).
      revert H. generalize (needle ++ after). intros hay H.
      destruct hay; cbn [includes].
      all: by rewrite H.
    + change (includes (String a (before ++ needle ++ after)) needle = true).
      cbn [includes]. rewrite IH. apply orb_true_r.
Qed.

(** X9.  An error is retryable exactly when one of the configured error
    types (the six default ones when the configuration has none) occurs
    somewhere in its name or in its message; with an empty list nothing is
    retryable. *)
Theorem isRetryableError_occurs (error : Error)
    (errorTypes : option (list string)) :
  (isRetryableError error errorTypes = true ↔
   ∃ errorType,
     In errorType
        (match errorTypes with
         | Some l => l
         | None => ["NetworkError"; "TimeoutError"; "ServiceUnavailable";
                    "ThrottlingException"; "TooManyRequestsException";
                    "InternalServerError"]
         end) ∧
     (occurs_in errorType (error_name error) ∨
      occurs_in errorType (error_message error))) ∧
  isRetryableError error (Some []) = false.
Proof.
  split; [|reflexivity].
  unfold isRetryableError. rewrite existsb_exists.
  split; intros (t & Hin & H); exists t.
  - split; [by destruct errorTypes|].
    apply orb_true_iff in H. by rewrite <- !includes_occurs_in.
  - split; [by destruct errorTypes|].
    apply orb_true_iff. by rewrite !includes_occurs_in.
Qed.

(** ** Routing and timeouts *)

(** Within the thresholds of size and page count, the estimate of a job
    that is not a malware scan stays under the Lambda timeout. *)
Lemma estimateTaskDuration_small metadata :
  default 0 (md_fileSizeBytes metadata) <= LARGE_FILE_THRESHOLD_BYTES →
  default 0 (md_pageCount metadata) <= LARGE_PAGE_COUNT_THRESHOLD →
  String.eqb (md_jobType metadata) "MALWARE_SCAN" = false →
  (estimateTaskDuration metadata < LAMBDA_TIMEOUT_MS)%Q.
Proof.
  unfold LARGE_FILE_THRESHOLD_BYTES, LARGE_PAGE_COUNT_THRESHOLD,
    estimateTaskDuration, LAMBDA_TIMEOUT_MS.
  intros Hsize Hpages ->.
  generalize dependent (default 0 (md_fileSizeBytes metadata)).
  generalize dependent (default 0 (md_pageCount metadata)).
  intros pages Hpages size Hsize.
  destruct (String.eqb _ "THUMBNAIL"); [|destruct (String.eqb _ "OCR");
    [|destruct (String.eqb _ "PDF_SPLIT")]].
  - apply Q.max_lub_lt; [reflexivity|].
    change (1024 * 1024) with 1048576.
    unfold Qlt, Qdiv, Qmult, Qinv, inject_Z, THUMBNAIL_TIME_PER_MB.
    cbn. lia.
  - apply Q.max_lub_lt; [reflexivity|].
    unfold Qlt, Qmult, inject_Z, OCR_TIME_PER_PAGE. cbn. lia.
  - apply Q.max_lub_lt; [reflexivity|].
    unfold Qlt, Qmult, inject_Z, PDF_SPLIT_TIME_PER_PAGE. cbn. lia.
  - reflexivity.
Qed.

(** X10.  A task goes to Fargate exactly when it is a malware scan, or its
    file is larger than 50 MB, or it has more than 100 pages: the estimated
    duration never sends a task to Fargate on its own, since an estimate at
    or above the Lambda timeout takes a size or a page count beyond these
    thresholds.  A task that goes to Lambda has an estimate under the
    Lambda timeout. *)
Theorem routeTask_fargate_iff (metadata : TaskMetadata) :
  (workerType (routeTask metadata) = FARGATE ↔
   md_jobType metadata = "MALWARE_SCAN" ∨
   50 * 1024 * 1024 < default 0 (md_fileSizeBytes metadata) ∨
   100 < default 0 (md_pageCount metadata)) ∧
  (workerType (routeTask metadata) = LAMBDA →
   (estimatedDurationMs (routeTask metadata) < getWorkerTimeout LAMBDA)%Q).
Proof.
  pose proof (estimateTaskDuration_small metadata) as Hsmall.
  unfold routeTask, LARGE_FILE_THRESHOLD_BYTES, LARGE_PAGE_COUNT_THRESHOLD
    in *.
  destruct (String.eqb (md_jobType metadata) "MALWARE_SCAN") eqn:Hm.
  - apply String.eqb_eq in Hm.
    destruct (Qltb _ _), (_ <? default 0 (md_fileSizeBytes metadata)),
      (_ <? default 0 (md_pageCount metadata));
      cbn [workerType]; (split; [split; auto|discriminate]).
  - assert (Hne : md_jobType metadata ≠ "MALWARE_SCAN")
      by (by apply String.eqb_neq).
    destruct (50 * 1024 * 1024 <? default 0 (md_fileSizeBytes metadata))
      eqn:Hs;
      [apply Z.ltb_lt in Hs|apply Z.ltb_ge in Hs];
      (destruct (100 <? default 0 (md_pageCount metadata)) eqn:Hp;
       [apply Z.ltb_lt in Hp|apply Z.ltb_ge in Hp]).
    + destruct (Qltb _ _); cbn [workerType];
        (split; [split; auto|discriminate]).
    + destruct (Qltb _ _); cbn [workerType];
        (split; [split; auto|discriminate]).
    + destruct (Qltb _ _); cbn [workerType];
        (split; [split; auto|discriminate]).
    + specialize (Hsmall Hs Hp eq_refl).
      pose proof (proj2 (Qltb_lt _ _) Hsmall) as Hq. rewrite Hq.
      cbn [workerType estimatedDurationMs getWorkerTimeout].
      split; [|done]. split; [discriminate|].
      intros [H|[H|H]]; [done|lia|lia].
Qed.

(** X11.  For the record that [createTaskExecutionMetadata] makes for a
    worker, read [elapsed] milliseconds later: [hasTimedOut] holds exactly
    when [elapsed] has reached the timeout of the worker (15 minutes for
    Lambda, 60 for Fargate), which is exactly when [getTimeoutProgress] is
    one; the remaining time is never negative, and before the timeout it
    is the timeout less the elapsed time. *)
Theorem timeout_reached_at_worker_limit (worker : WorkerType)
    (w0 w : World) :
  let elapsed := inject_Z (now w - now w0) in
  let limit := inject_Z (match worker with
                         | LAMBDA => 15 * 60 * 1000
                         | FARGATE => 60 * 60 * 1000
                         end) in
  ∃ metadata remaining progress timedOut,
    createTaskExecutionMetadata worker w0 = (inr metadata, w0) ∧
    getRemainingTime metadata w = (inr remaining, w) ∧
    getTimeoutProgress metadata w = (inr progress, w) ∧
    hasTimedOut metadata w = (inr timedOut, w) ∧
    (timedOut = true ↔ (limit <= elapsed)%Q) ∧
    (timedOut = true ↔ (progress == 1)%Q) ∧
    (0 <= remaining)%Q ∧
    (timedOut = false → (remaining == limit - elapsed)%Q).
Proof.
  cbn zeta. do 4 eexists.
  split; [reflexivity|]. split; [reflexivity|]. split; [reflexivity|].
  split; [reflexivity|].
  cbn [startTime timeoutMs getTimeoutForWorker].
  set (e := now w - now w0).
  assert (Hlimit : getTimeoutForWorker worker =
                   inject_Z (match worker with
                             | LAMBDA => 15 * 60 * 1000
                             | FARGATE => 60 * 60 * 1000
                             end)) by (by destruct worker).
  rewrite Hlimit.
  set (l := match worker with
            | LAMBDA => 15 * 60 * 1000
            | FARGATE => 60 * 60 * 1000
            end).
  assert (Hl : 0 < l) by (by destruct worker).
  assert (Hcases : (inject_Z l <= inject_Z e)%Q ∨ (inject_Z e < inject_Z l)%Q).
  { destruct (Qlt_le_dec (inject_Z e) (inject_Z l)); auto. }
  assert (Hdiff : (inject_Z l - inject_Z e == inject_Z (l - e))%Q).
  { unfold Qminus, Z.sub. by rewrite inject_Z_plus, inject_Z_opp. }
  assert (Hquot : (inject_Z e / inject_Z l == e # Z.to_pos l)%Q).
  { unfold Qeq, Qdiv, Qmult, Qinv, inject_Z. destruct l; try lia.
    cbn. lia. }
  split; [|split; [|split]].
  - rewrite Qeq_bool_iff. rewrite Hdiff. rewrite <- !Zle_Qle.
    split.
    + intros H. destruct (Z_le_gt_dec l e) as [|Hgt]; [done|].
      rewrite Q.max_r in H by (rewrite <- (Zle_Qle 0); lia).
      apply (inject_Z_injective (l - e) 0) in H. lia.
    + intros H. rewrite Q.max_l; [reflexivity|].
      rewrite <- (Zle_Qle _ 0). lia.
  - rewrite Qeq_bool_iff. rewrite Hdiff, Hquot. split.
    + intros H. apply Q.min_l.
      destruct (Z_le_gt_dec l e) as [Hle|Hgt].
      * unfold Qle. cbn. rewrite Z2Pos.id by lia. lia.
      * rewrite Q.max_r in H by (rewrite <- (Zle_Qle 0); lia).
        apply (inject_Z_injective (l - e) 0) in H. lia.
    + intros H.
      destruct (Z_le_gt_dec l e) as [Hle|Hgt].
      * rewrite Q.max_l; [reflexivity|]. rewrite <- (Zle_Qle _ 0). lia.
      * exfalso. rewrite Q.min_r in H.
        -- unfold Qeq in H. cbn in H. rewrite Z2Pos.id in H by lia. lia.
        -- unfold Qle. cbn. rewrite Z2Pos.id by lia. lia.
  - apply Q.le_max_l.
  - intros H. apply not_true_iff_false in H.
    rewrite Qeq_bool_iff in H.
    destruct (Qlt_le_dec 0 (inject_Z l - inject_Z e)) as [Hpos|Hneg].
    + apply Q.max_r. by apply Qlt_le_weak.
    + exfalso. apply H. by apply Q.max_l.
Qed.

(** ** The audit log and the transaction *)

(** X12.  [createAuditLog] never throws, and the caller is not told what
    became of the entry.  For an action that the table allows ([UPLOAD],
    [DOWNLOAD], [DELETE], [PROCESS_START], [PROCESS_COMPLETE],
    [PROCESS_FAILED]) it appends exactly one row (with empty user id,
    document id and address stored as [NULL]) and touches nothing else,
    and when the insertion faults it writes nothing at all.  For
    [LEGAL_HOLD_SET], [LEGAL_HOLD_REMOVED] and [PERMANENT_DELETE] the
    check on the column refuses the row: nothing is written in any
    run. *)
Theorem createAuditLog_never_throws (params : CreateAuditLogParams)
    (w : World) :
  ∃ w',
    createAuditLog params w = (inr tt, w') ∧
    (In (p_action params)
        [UPLOAD; DOWNLOAD; DELETE; PROCESS_START; PROCESS_COMPLETE;
         PROCESS_FAILED] →
     (faults w = [] →
      stores w' =
        set_audit_logs (stores w)
          (audit_logs (stores w) ++ [audit_entry params])) ∧
     (∀ e rest, faults w = Some e :: rest → stores w' = stores w) ∧
     (stores w' = stores w ∨
      stores w' =
        set_audit_logs (stores w)
          (audit_logs (stores w) ++ [audit_entry params]))) ∧
    (In (p_action params)
        [LEGAL_HOLD_SET; LEGAL_HOLD_REMOVED; PERMANENT_DELETE] →
     stores w' = stores w).
Proof.
  destruct (createAuditLog_outcome params w)
    as (w' & Hrun & _ & _ & Hor & Hnf & Hrefused).
  exists w'. split; [done|]. split.
  - intros Hallowed.
    assert (Ha : audit_action_allowed (p_action params) = true).
    { cbn in Hallowed.
      repeat destruct Hallowed as [<-|Hallowed]; try reflexivity.
      destruct Hallowed. }
    split; [by auto|]. split; [|done].
    intros e rest Hf. revert Hrun.
    unfold createAuditLog, try_catch, sql_insert_audit_log.
    cbn [log_action]. rewrite Ha.
    unfold query, bind, external. rewrite Hf.
    by intros [= <-].
  - intros Hin. apply Hrefused. cbn in Hin.
    repeat destruct Hin as [<-|Hin]; try reflexivity.
    destruct Hin.
Qed.

(** X13.  A transaction is all or nothing.  When [withTransaction] throws,
    the four tables hold the rows they held before; when it returns, the
    callback has returned that result from the rows as they were at
    [BEGIN], its writes are the state of the stores, and [COMMIT] is the
    last statement that ran. *)
Theorem withTransaction_all_or_nothing {T} (callback : M T) (w : World) :
  match withTransaction callback w with
  | (inl _, w') => same_tables (stores w) (stores w')
  | (inr result, w') =>
      ∃ w1 w2,
        stores w1 = stores w ∧ callback w1 = (inr result, w2) ∧
        stores w' = stores w2 ∧ head (sql_log w') = Some "COMMIT"
  end.
Proof.
  destruct (withTransaction callback w) as [[e|result] w'] eqn:Hrun.
  { by eapply withTransaction_throws. }
  revert Hrun. unfold withTransaction. unfold bind at 1.
  destruct (external_outcome w) as (r0 & w0 & -> & Hs0 & _).
  destruct r0 as [e0|[]]; [discriminate|].
  unfold bind at 1, get_stores at 1. unfold try_catch.
  unfold bind at 1.
  destruct (external_outcome w0) as (r1 & w1 & -> & Hs1 & _ & _ & _ & Hl1 & _).
  destruct r1 as [e1|[]].
  { (* the handler ends in [throw] *)
    unfold bind at 1, get_stores at 1. unfold bind at 1, put_stores at 1.
    unfold bind at 1.
    match goal with
    | |- context [external ?w2] =>
        destruct (external_outcome w2) as (r2 & w3 & -> & _)
    end.
    destruct r2 as [e2|[]]; discriminate. }
  unfold bind at 1, log_statement at 1. unfold bind at 1.
  match goal with
  | |- context [callback ?wb] => set (wbegin := wb)
  end.
  destruct (callback wbegin) as [[ec|a] w2] eqn:Hcb.
  { unfold bind at 1, get_stores at 1. unfold bind at 1, put_stores at 1.
    unfold bind at 1.
    match goal with
    | |- context [external ?w2] =>
        destruct (external_outcome w2) as (r2 & w3 & -> & _)
    end.
    destruct r2 as [e2|[]]; discriminate. }
  unfold bind at 1.
  destruct (external_outcome w2) as (r3 & w3 & -> & Hs3 & _).
  destruct r3 as [e3|[]].
  { unfold bind at 1, get_stores at 1. unfold bind at 1, put_stores at 1.
    unfold bind at 1.
    match goal with
    | |- context [external ?w4] =>
        destruct (external_outcome w4) as (r4 & w5 & -> & _)
    end.
    destruct r4 as [e4|[]]; discriminate. }
  unfold bind at 1, log_statement at 1, ret. intros [= <- <-].
  exists wbegin, w2. subst wbegin. cbn [stores set_sql_log sql_log head].
  rewrite Hs1, Hs0. by repeat split.
Qed.

(** ** The hard delete worker, again *)

Lemma find_tenant_document_deleted message docs s :
  documents s =
    List.filter
      (fun d => negb (bool_decide (doc_id d = msg_documentId message)))
      docs →
  find_tenant_document s message = None.
Proof.
  intros H. unfold find_tenant_document. rewrite H, filter_filter_and.
  clear H. induction docs as [|d docs IH]; cbn [List.filter]; [done|].
  destruct (bool_decide (doc_id d = msg_documentId message)); cbn; done.
Qed.

(** X14.  A work item that is delivered again after the worker has
    processed it changes nothing, at whatever time and under whatever
    faults the second delivery runs; without faults the worker returns. *)
Theorem hard_delete_redelivery (message : HardDeleteMessage)
    (document : Document) (w : World) :
  faults w = [] →
  ascending (bucket (stores w)) →
  find_tenant_document (stores w) message = Some document →
  doc_status document = DELETING →
  ∃ w1,
    HardDelete.processMessage message w = (inr tt, w1) ∧
    ∀ w2,
      stores w2 = stores w1 →
      stores (snd (HardDelete.processMessage message w2)) = stores w1 ∧
      (faults w2 = [] →
       fst (HardDelete.processMessage message w2) = inr tt).
Proof.
  intros Hf Hasc Hfind Hst.
  destruct (processMessage_deletes message w document Hf Hasc Hfind Hst)
    as (w1 & Hrun & Hs1 & _).
  exists w1. split; [done|]. intros w2 Hs2.
  assert (Hnone : find_tenant_document (stores w2) message = None).
  { apply (find_tenant_document_deleted message (documents (stores w))).
    by rewrite Hs2, Hs1. }
  destruct (processMessage_noop message w2) as [Hsame Hret].
  { intros d Hd. congruence. }
  rewrite <- Hs2. done.
Qed.

(** ** The retention sweep under faults *)

Lemma Forall2_In_impl {A B} (P Q : A -> B -> Prop) (l : list A)
    (k : list B) :
  Forall2 P l k → (∀ x y, In x l → P x y → Q x y) → Forall2 Q l k.
Proof.
  induction 1 as [|x y l k Hxy _ IH]; intros Himp; constructor.
  - apply Himp; [by left|done].
  - apply IH. intros x' y' Hin. apply Himp. by right.
Qed.

Lemma Forall2_diag {A} (R : A -> A -> Prop) (l : list A) :
  (∀ x, R x x) → Forall2 R l l.
Proof. intros HR. induction l; by constructor. Qed.

(** One [UPDATE] of the sweep after the rows were marked in part. *)
Lemma mark_step t (sel : Document -> bool) documentId docs ds :
  (∀ d, doc_id d = documentId → sel d = true) →
  Forall2 (fun d d' => d' = d ∨ (sel d = true ∧
                                 d' = Retention.mark_deleting t d)) docs ds →
  Forall2 (fun d d' => d' = d ∨ (sel d = true ∧
                                 d' = Retention.mark_deleting t d)) docs
    (map (fun d => if bool_decide (doc_id d = documentId)
                   then Retention.mark_deleting t d else d) ds).
Proof.
  intros Hsel. induction 1 as [|d d' docs ds Hd _ IH]; cbn [map];
    constructor; [|done].
  destruct Hd as [->|[Hs ->]].
  - destruct (bool_decide (doc_id d = documentId)) eqn:E; [|by left].
    apply bool_decide_eq_true in E. right. split; [by apply Hsel|done].
  - right. split; [done|]. by destruct (bool_decide _).
Qed.

(** A query whose call does not fault runs its statement, whatever the
    rest of the fault script. *)
Lemma query_not_faulted {R} (statement : Statement R) w :
  (∀ e rest, faults w ≠ Some e :: rest) →
  ∃ w',
    query statement w = (inr (fst (execute statement (stores w) (now w))), w')
    ∧ stores w' = snd (execute statement (stores w) (now w))
    ∧ now w' = now w.
Proof.
  intros Hok. unfold query, bind, external, log_statement, get_stores,
    get_now, put_stores, ret.
  destruct (faults w) as [|[e|] f] eqn:Hf;
    cbn [stores now set_sql_log set_faults].
  - destruct (execute statement (stores w) (now w)) as [rows s'].
    by eexists.
  - by destruct (Hok e f).
  - destruct (execute statement (stores w) (now w)) as [rows s'].
    by eexists.
Qed.

(** The loop of the sweep, whatever the faults: it returns, and every row
    is as before or marked. *)
Lemma retention_loop_any_faults t (sel : Document -> bool) docs
    (L : list Document) :
  (∀ doc d, In doc L → doc_id d = doc_id doc → sel d = true) →
  ∀ w, now w = t →
    Forall2 (fun d d' => d' = d ∨ (sel d = true ∧
                                   d' = Retention.mark_deleting t d))
      docs (documents (stores w)) →
    ∃ w',
      for_each L
        (fun doc =>
           try_catch
             (query (Retention.sql_mark_deleting (doc_id doc)) ;; ret tt)
             (fun _ => ret tt)) w = (inr tt, w') ∧
      stores w' = set_documents (stores w) (documents (stores w')) ∧
      Forall2 (fun d d' => d' = d ∨ (sel d = true ∧
                                     d' = Retention.mark_deleting t d))
        docs (documents (stores w')).
Proof.
  induction L as [|doc L IH]; intros Hsel w Hn Hinv; cbn [for_each].
  - exists w. split; [done|]. split; [by destruct (stores w)|done].
  - unfold bind at 1. unfold try_catch at 1. unfold bind at 1.
    destruct (query_outcome (Retention.sql_mark_deleting (doc_id doc)) w)
      as (r & w1 & -> & Hn1 & _ & Hr).
    assert (Hstep : stores w1 = set_documents (stores w)
                                  (documents (stores w1)) ∧
                    Forall2 (fun d d' => d' = d ∨
                               (sel d = true ∧
                                d' = Retention.mark_deleting t d))
                      docs (documents (stores w1))).
    { destruct r as [e|rows].
      - rewrite Hr. split; [by destruct (stores w)|done].
      - destruct Hr as [_ ->].
        cbn [Retention.sql_mark_deleting execute snd documents
             set_documents]. split; [done|]. rewrite Hn.
        apply mark_step; [|done].
        intros d Hd. apply (Hsel doc); [by left|done]. }
    destruct Hstep as [Hs1 Hinv1].
    destruct (IH (fun doc' d Hin => Hsel doc' d (or_intror Hin)) w1)
      as (w' & Hrun & Hs' & Hinv'); [congruence|done|].
    exists w'.
    destruct r as [e|rows]; unfold ret at 1; rewrite Hrun;
      (split; [done|]); (split; [|done]);
      rewrite Hs', Hs1; by destruct (stores w).
Qed.

(** X15.  The retention sweep under any faults, when document ids are
    unique.  It throws only when its [SELECT] does, and then nothing has
    changed.  Otherwise it returns: an [UPDATE] that fails is skipped and
    the sweep goes on with the next document.  Every row is then as
    before, or it was expired and is now [DELETING]; documents that are
    not expired (under legal hold, not soft deleted, or within their
    retention) are never touched, and no other store is written. *)
Theorem retention_sweep_under_faults (w : World) :
  List.NoDup (map doc_id (documents (stores w))) →
  match faults w with
  | Some e :: rest => Retention.handler w = (inl e, set_faults w rest)
  | _ =>
      ∃ w',
        Retention.handler w = (inr tt, w') ∧
        stores w' = set_documents (stores w) (documents (stores w')) ∧
        Forall2 (kept_or_marked (now w)) (documents (stores w))
          (documents (stores w'))
  end.
Proof.
  intros Hnd.
  assert (Hpass :
    (∀ e rest, faults w ≠ Some e :: rest) →
    ∃ w',
      Retention.handler w = (inr tt, w') ∧
      stores w' = set_documents (stores w) (documents (stores w')) ∧
      Forall2 (kept_or_marked (now w)) (documents (stores w))
        (documents (stores w'))).
  { intros Hok.
    destruct (query_not_faulted Retention.sql_select_expired w Hok)
      as (w0 & Hq & Hs0 & Hn0).
    cbn [Retention.sql_select_expired execute fst snd] in Hq, Hs0.
    unfold Retention.handler. unfold try_catch at 1. unfold bind at 1.
    rewrite Hq.
    set (L := List.filter (Retention.expired (now w)) (documents (stores w))).
    set (sel := fun d : Document =>
                  existsb (fun doc => bool_decide (doc_id d = doc_id doc)) L).
    destruct (retention_loop_any_faults (now w) sel (documents (stores w)) L)
      with (w := w0) as (w' & Hrun & Hs' & Hinv).
    { intros doc d Hin Hid. apply existsb_exists. exists doc.
      split; [done|]. by apply bool_decide_eq_true. }
    { done. }
    { rewrite Hs0. apply Forall2_diag. intros d. by left. }
    assert (Hres : (if (length L =? 0)%nat
                    then ret tt
                    else for_each L
                           (fun doc =>
                              try_catch
                                (query (Retention.sql_mark_deleting
                                          (doc_id doc)) ;; ret tt)
                                (fun _ => ret tt))) w0 = (inr tt, w')).
    { destruct L as [|doc L']; [|exact Hrun].
      cbn [for_each] in Hrun. exact Hrun. }
    rewrite Hres. exists w'. split; [done|]. split.
    { rewrite Hs', Hs0. by destruct (stores w). }
    eapply Forall2_In_impl; [exact Hinv|].
    intros d d' Hd [->|[Hsel ->]]; [by left|right]. split; [|done].
    apply existsb_exists in Hsel as (doc & Hin & Hid).
    apply filter_In in Hin as [Hin Hexp].
    apply bool_decide_eq_true in Hid.
    assert (d = doc) as -> by (by eapply NoDup_map_injective). done. }
  destruct (faults w) as [|[e|] rest] eqn:Hf.
  - apply Hpass. intros e rest. discriminate.
  - unfold Retention.handler, try_catch, bind at 1. unfold query, bind at 1.
    unfold external. by rewrite Hf.
  - apply Hpass. intros e rest'. discriminate.
Qed.

(** The sweep without faults. *)
Lemma retention_handler_no_fault w :
  faults w = [] →
  ∃ w',
    Retention.handler w = (inr tt, w') ∧ faults w' = [] ∧ now w' = now w ∧
    stores w' =
      set_documents (stores w) (swept (now w) (documents (stores w))).
Proof.
  intros Hf. unfold Retention.handler. unfold try_catch at 1.
  unfold bind at 1. rewrite query_no_fault by done.
  cbn [fst snd execute Retention.sql_select_expired]. unfold swept.
  set (L := List.filter (Retention.expired (now w)) (documents (stores w))).
  set (w1 := set_stores _ _).
  destruct (retention_loop L w1) as (w' & Hrun & Hf' & Hn' & Hs'); [done|].
  assert (Hres : (if (length L =? 0)%nat
                  then ret tt
                  else for_each L
                         (fun doc =>
                            try_catch
                              (query (Retention.sql_mark_deleting
                                        (doc_id doc)) ;; ret tt)
                              (fun _ => ret tt))) w1 = (inr tt, w')).
  { destruct L as [|doc L']; [|exact Hrun].
    cbn [for_each] in Hrun. exact Hrun. }
  rewrite Hres. exists w'. split; [done|]. split; [done|]. split; [done|].
  rewrite Hs', mark_each. subst w1. cbn [stores now set_stores set_sql_log].
  by destruct (stores w).
Qed.

Lemma swept_not_expired t docs :
  List.filter (Retention.expired t) (swept t docs) = [].
Proof.
  unfold swept.
  set (L := List.filter (Retention.expired t) docs).
  assert (Hall : ∀ d, In d docs → Retention.expired t d = true →
                      existsb (fun doc => bool_decide (doc_id d = doc_id doc))
                              L = true).
  { intros d Hin Hexp. apply existsb_exists. exists d. split.
    - by apply filter_In.
    - by apply bool_decide_eq_true. }
  clearbody L. induction docs as [|d docs IH]; cbn [map List.filter]; [done|].
  rewrite IH by (intros d' Hin; apply Hall; by right).
  destruct (existsb _ L) eqn:E.
  - reflexivity.
  - destruct (Retention.expired t d) eqn:Hexp; [|done].
    rewrite Hall in E; [done|by left|done].
Qed.

(** X16.  After a sweep without faults, a second sweep at the same time
    finds no expired document and leaves every store as it is: what the
    sweep has marked is [DELETING] and so no longer selected. *)
Theorem retention_sweep_twice (w : World) :
  faults w = [] →
  ∃ w1 w2,
    Retention.handler w = (inr tt, w1) ∧
    Retention.handler w1 = (inr tt, w2) ∧
    stores w2 = stores w1.
Proof.
  intros Hf.
  destruct (retention_handler_no_fault w Hf) as (w1 & Hrun & Hf1 & Hn1 & Hs1).
  exists w1. eexists. split; [done|].
  unfold Retention.handler. unfold try_catch at 1.
  unfold bind at 1. rewrite query_no_fault by done.
  cbn [fst snd execute Retention.sql_select_expired].
  rewrite Hs1, Hn1. cbn [documents set_documents].
  rewrite swept_not_expired. cbn [length Nat.eqb]. unfold ret.
  split; [reflexivity|]. cbn [stores set_stores]. done.
Qed.

(** ** The scheduling job *)













(** ** The delete-document handler under faults *)

Lemma delete_handler_body_outcome event w :
  ∃ r w',
    DeleteDocument.handler_body event w = (r, w') ∧ now w' = now w ∧
    match r with
    | inl _ => stores w' = stores w
    | inr response =>
        ∃ documentId logs,
          response =
            DeleteDocument.mkResult 200
              (DeleteDocument.SoftDeleted documentId (now w)) ∧
          DeleteDocument.pathParameters_id event = Some documentId ∧
          rows_changed (has_id documentId) (row_soft_deleted (now w))
            (documents (stores w)) (documents (stores w')) ∧
          stores w' =
            set_audit_logs
              (set_documents (stores w) (documents (stores w'))) logs ∧
          (logs = audit_logs (stores w) ∨
           ∃ entry, logs = (audit_logs (stores w) ++ [entry])%list)
    end.
Proof.
  unfold DeleteDocument.handler_body, queryOne.
  destruct (DeleteDocument.authentication event) as [e|authContext].
  { by exists (inl e), w. }
  destruct (DeleteDocument.pathParameters_id event) as [documentId|] eqn:Hid.
  2: { by eexists (inl _), w. }
  destruct documentId as [|c documentId'] eqn:Hdoc.
  { by eexists (inl _), w. }
  rewrite <- Hdoc in *. clear Hdoc c documentId'.
  destruct (query_outcome (DeleteDocument.sql_select_document documentId) w)
    as (r & w1 & Hq & Hn1 & _ & Hr).
  cbv [bind ret throw get_now]. rewrite Hq.
  destruct r as [e|rows]; [by eexists (inl e), w1|].
  destruct Hr as [_ Hs1].
  cbn [DeleteDocument.sql_select_document execute snd] in Hs1.
  destruct (head rows) as [document|]; [|by eexists (inl _), w1].
  destruct (negb _); [by eexists (inl _), w1|].
  destruct (js_truthy _); [by eexists (inl _), w1|].
  destruct (_ || _); [by eexists (inl _), w1|].
  destruct (query_outcome
              (DeleteDocument.sql_soft_delete documentId (now w1)) w1)
    as (r2 & w2 & Hq2 & Hn2 & _ & Hr2).
  rewrite Hq2.
  destruct r2 as [e|rows2].
  { eexists (inl e), w2. split; [done|]. split; [congruence|congruence]. }
  destruct Hr2 as [_ Hs2].
  cbn [DeleteDocument.sql_soft_delete execute snd] in Hs2.
  match goal with
  | |- context [createAuditLog ?p w2] =>
      destruct (createAuditLog_outcome p w2)
        as (w3 & Hrun3 & Hn3 & _ & Hor3 & _); rewrite Hrun3;
      generalize dependent (audit_entry p); intros entry Hor3
  end.
  eexists (inr _), w3. split; [reflexivity|]. split; [congruence|].
  assert (Hdocs : documents (stores w3) = documents (stores w2)).
  { destruct Hor3 as [->| ->]; done. }
  exists documentId.
  exists (audit_logs (stores w3)).
  split; [by rewrite Hn3, Hn2, Hn1|]. split; [done|].
  rewrite Hdocs, Hs2, Hs1, Hn1. cbn [documents set_documents].
  split; [|split].
  - apply map_rows_changed. intros d _. by repeat split.
  - destruct Hor3 as [->| ->]; rewrite Hs2, Hs1, Hn1;
      by destruct (stores w).
  - destruct Hor3 as [->| ->]; rewrite Hs2, Hs1;
      cbn [audit_logs set_audit_logs set_documents]; eauto.
Qed.

(** X20.  The delete-document handler never throws, whatever the request
    and whatever the faults.  With an error response no store has
    changed.  With the success response (200 and the deletion time) the
    rows of the document are [DELETED] at the current time, and nothing
    else has changed but for the audit entry; when the insertion of the
    audit entry faults, the request still succeeds, without an entry. *)
Theorem delete_document_never_throws (event : DeleteDocument.Event)
    (w : World) :
  ∃ response w',
    DeleteDocument.handler event w = (inr response, w') ∧
    match DeleteDocument.body response with
    | DeleteDocument.ErrorBody _ _ _ => stores w' = stores w
    | DeleteDocument.SoftDeleted documentId deletedAt =>
        DeleteDocument.statusCode response = 200 ∧
        deletedAt = now w ∧
        DeleteDocument.pathParameters_id event = Some documentId ∧
        rows_changed (has_id documentId) (row_soft_deleted (now w))
          (documents (stores w)) (documents (stores w')) ∧
        ∃ logs,
          stores w' =
            set_audit_logs
              (set_documents (stores w) (documents (stores w'))) logs ∧
          (logs = audit_logs (stores w) ∨
           ∃ entry, logs = (audit_logs (stores w) ++ [entry])%list)
    end.
Proof.
  destruct (delete_handler_body_outcome event w)
    as (r & w' & Hrun & Hn & Hr).
  unfold DeleteDocument.handler, try_catch. rewrite Hrun.
  destruct r as [e|response].
  - unfold bind, get_now, ret. destruct e; by eexists _, w'.
  - destruct Hr as (documentId & logs & -> & Hid & Hrows & Hs & Hlogs).
    exists (DeleteDocument.mkResult 200
              (DeleteDocument.SoftDeleted documentId (now w))), w'.
    split; [done|]. cbn [DeleteDocument.body DeleteDocument.statusCode].
    repeat split; try done. by exists logs.
Qed.

(** ** Authorisation *)

Lemma js_split_nonempty c s : js_split c s ≠ [].
Proof.
  induction s as [|x s IH]; cbn [js_split]; [done|].
  destruct (js_split c s); [done|]. by destruct (Ascii.eqb x c).
Qed.

Lemma js_split_one c s b :
  js_split c s = [b] ↔ s = b ∧ has_char c s = false.
Proof.
  revert b. induction s as [|x s IH]; intros b; cbn [js_split has_char].
  - split; [by intros [= <-]|by intros [<- _]].
  - pose proof (js_split_nonempty c s) as Hne.
    destruct (js_split c s) as [|first others]; [done|].
    destruct (Ascii.eqb x c) eqn:E; cbn [orb].
    + split; [done|]. by intros [_ [=]].
    + split.
      * intros [= <- ->]. destruct (IH first) as [[-> H] _]; done.
      * intros [<- H]. destruct (IH s) as [_ IH']. 
        specialize (IH' (conj eq_refl H)). by injection IH' as -> ->.
Qed.

Lemma js_split_two c s a b :
  js_split c s = [a; b] ↔
  s = a ++ String c b ∧ has_char c a = false ∧ has_char c b = false.
Proof.
  revert a. induction s as [|x s IH]; intros a; cbn [js_split].
  - split; [done|]. intros [H _]. by destruct a.
  - pose proof (js_split_nonempty c s) as Hne.
    pose proof (js_split_one c s) as Hone.
    destruct (js_split c s) as [|first others]; [done|].
    destruct (Ascii.eqb x c) eqn:E.
    + apply Ascii.eqb_eq in E as ->. split.
      * intros [= <- <- ->]. destruct (Hone first) as [[-> H] _]; done.
      * intros (H & Ha & Hb). destruct a as [|y a'].
        -- cbn in H. injection H as ->.
           destruct (Hone b) as [_ H']. specialize (H' (conj eq_refl Hb)).
           by injection H' as -> ->.
        -- cbn in H. injection H as <- _. cbn [has_char] in Ha.
           by rewrite Ascii.eqb_refl in Ha.
    + split.
      * intros [= <- ->]. destruct (IH first) as [[-> [Ha Hb]] _]; [done|].
        cbn [has_char]. by rewrite E.
      * intros (H & Ha & Hb). destruct a as [|y a'].
        -- cbn in H. injection H as -> _. by rewrite Ascii.eqb_refl in E.
        -- cbn in H. injection H as <- ->. cbn [has_char] in Ha.
           rewrite E in Ha. cbn [orb] in Ha.
           destruct (IH a') as [_ IH'].
           specialize (IH' (conj eq_refl (conj Ha Hb))).
           by injection IH' as -> ->.
Qed.

(** X21.  [extractToken] returns a token exactly for the headers
    ["Bearer <token>"] with one space and a token that holds no further
    space (the empty token included); every other header, and a missing
    one, is refused with [UnauthorizedError]. *)
Theorem extractToken_bearer (authHeader : option string) (token : string) :
  (extractToken authHeader = inr token ↔
   authHeader = Some ("Bearer " ++ token) ∧ has_char " " token = false) ∧
  ((∀ t, extractToken authHeader ≠ inr t) →
   ∃ message, extractToken authHeader = inl (UnauthorizedError message)).
Proof.
  split.
  - destruct authHeader as [h|]; [|split; [done|by intros [[=] _]]].
    unfold extractToken.
    pose proof (js_split_two " " h) as Htwo.
    destruct h as [|x h'] eqn:Hh; [split; [done|by intros [[=] _]]|].
    rewrite <- Hh in *. clear Hh x h'.
    destruct (js_split " " h) as [|scheme [|tok [|third rest]]] eqn:Hs.
    + split; [done|]. intros [[= ->] Hsp].
      destruct (Htwo "Bearer" token) as [_ H]. by specialize (H ltac:(done)).
    + split; [done|]. intros [[= ->] Hsp].
      destruct (Htwo "Bearer" token) as [_ H]. by specialize (H ltac:(done)).
    + destruct (Htwo scheme tok) as [[-> [Hsch Htok]] _]; [done|].
      destruct (String.eqb scheme "Bearer") eqn:E; cbn [negb].
      * apply String.eqb_eq in E as ->. split.
        -- by intros [= ->].
        -- intros [[= H] _]. f_equal. exact H.
      * split; [done|]. intros [[= H] Hsp].
        destruct (Htwo "Bearer" token) as [_ H'].
        specialize (H' ltac:(done)).
        injection H' as -> _. by rewrite String.eqb_refl in E.
    + split; [done|]. intros [[= ->] Hsp].
      destruct (Htwo "Bearer" token) as [_ H]. by specialize (H ltac:(done)).
  - intros Hne. unfold extractToken in *.
    destruct authHeader as [[|x h]|]; eauto.
    destruct (js_split " " (String x h)) as [|scheme [|tok [|third rest]]];
      eauto.
    destruct (negb (String.eqb scheme "Bearer")); eauto.
    by destruct (Hne tok).
Qed.

(** X22.  [validateUploadAgentToken] accepts exactly the tokens that carry
    an upload scope (['dms/upload'] or ['upload']) and besides these
    nothing but ['openid']; it refuses every other token with
    [UnauthorizedError], and so every token with the ['admin'] scope. *)
Theorem validateUploadAgentToken_least_privilege
    (authContext : DeleteDocument.AuthContext) :
  (validateUploadAgentToken authContext = inr tt ↔
   (∃ s, In s (DeleteDocument.scopes authContext) ∧
         (s = "dms/upload" ∨ s = "upload")) ∧
   (∀ s, In s (DeleteDocument.scopes authContext) →
         s = "dms/upload" ∨ s = "upload" ∨ s = "openid")) ∧
  (validateUploadAgentToken authContext ≠ inr tt →
   ∃ message, validateUploadAgentToken authContext
              = inl (UnauthorizedError message)) ∧
  (hasAdminRole authContext = true →
   validateUploadAgentToken authContext ≠ inr tt).
Proof.
  assert (Hiff :
    validateUploadAgentToken authContext = inr tt ↔
    (∃ s, In s (DeleteDocument.scopes authContext) ∧
          (s = "dms/upload" ∨ s = "upload")) ∧
    (∀ s, In s (DeleteDocument.scopes authContext) →
          s = "dms/upload" ∨ s = "upload" ∨ s = "openid")).
  { unfold validateUploadAgentToken, hasUploadScope.
    destruct (existsb _ (DeleteDocument.scopes authContext)) eqn:Hup;
      cbn [negb].
    - apply existsb_exists in Hup as (s & Hin & Hs).
      apply orb_true_iff in Hs. rewrite !String.eqb_eq in Hs.
      destruct (existsb (fun scope => negb _)
                  (DeleteDocument.scopes authContext)) eqn:Hdis.
      + split; [done|]. intros [_ Hall].
        apply existsb_exists in Hdis as (s' & Hin' & Hs').
        apply negb_true_iff, bool_decide_eq_false in Hs'.
        destruct Hs'. specialize (Hall s' Hin').
        rewrite !elem_of_cons. tauto.
      + split; [|done]. intros _. split; [by exists s|].
        intros s' Hin'.
        assert (negb (bool_decide
                        (s' ∈ ["dms/upload"; "upload"; "openid"])) = false)
          as Hs'.
        { apply not_true_is_false. intros H.
          assert (existsb
                    (fun scope =>
                       negb (bool_decide
                               (scope ∈ ["dms/upload"; "upload"; "openid"])))
                    (DeleteDocument.scopes authContext) = true) as Hex
            by (apply existsb_exists; by exists s').
          congruence. }
        apply negb_false_iff, bool_decide_eq_true in Hs'.
        rewrite !elem_of_cons in Hs'.
        destruct Hs' as [?|[?|[?|H]]]; auto. by apply elem_of_nil in H.
    - split; [done|]. intros [(s & Hin & Hs) _].
      assert (existsb
                (fun s => String.eqb s "dms/upload" || String.eqb s "upload")
                (DeleteDocument.scopes authContext) = true) as Hex.
      { apply existsb_exists. exists s. split; [done|].
        apply orb_true_iff. by rewrite !String.eqb_eq. }
      congruence. }
  split; [exact Hiff|]. split.
  - unfold validateUploadAgentToken.
    destruct (negb _); [eauto|]. destruct (existsb _ _); [eauto|done].
  - intros Hadmin H. apply Hiff in H as [_ Hall].
    unfold hasAdminRole in Hadmin. apply bool_decide_eq_true in Hadmin.
    apply list_elem_of_In in Hadmin.
    destruct (Hall "admin" Hadmin) as [?|[?|?]]; discriminate.
Qed.

(** ** Legal hold *)

Lemma path_parameter (documentId : string) {A} (k : string -> M A)
    (e : Error) :
  documentId ≠ "" →
  bind (match Some documentId with
        | None | Some "" => throw e
        | Some id => ret id
        end) k = k documentId.
Proof. intros Hne. destruct documentId; [congruence|done]. Qed.

(** X23.  [setLegalHold] for a request with a valid token and a document
    id, when no call faults.  A [legalHold] that is not a boolean is
    answered with 400 before any statement runs.  An unknown document is
    answered with 404.  Every existing document is answered with 403,
    "Cannot modify document from different tenant", also a document of
    the caller's tenant: the row of the database carries the tenant as
    [tenant_id], and the handler compares its property [tenantId], which
    is [undefined].  In each case nothing is written: no hold changes and
    no audit entry is appended. *)
Theorem set_legal_hold_outcomes (event : LegalHold.Event)
    (authContext : DeleteDocument.AuthContext) (documentId : string)
    (w : World) :
  LegalHold.authentication event = inr authContext →
  LegalHold.pathParameters_id event = Some documentId →
  documentId ≠ "" →
  faults w = [] →
  (LegalHold.body_legalHold event = NotABoolean →
   LegalHold.setLegalHold event w =
     (inr (LegalHold.mkResult 400
             (LegalHold.ErrorBody "BAD_REQUEST"
                "legalHold must be a boolean value" (now w))), w)) ∧
  (∀ legalHold,
     LegalHold.body_legalHold event = Boolean legalHold →
     ((∀ d, In d (documents (stores w)) → doc_id d ≠ documentId) →
      ∃ w',
        LegalHold.setLegalHold event w =
          (inr (LegalHold.mkResult 404
                  (LegalHold.ErrorBody "NOT_FOUND" "Document not found"
                     (now w))), w') ∧
        stores w' = stores w) ∧
     ((∃ d, In d (documents (stores w)) ∧ doc_id d = documentId) →
      ∃ w',
        LegalHold.setLegalHold event w =
          (inr (LegalHold.mkResult 403
                  (LegalHold.ErrorBody "FORBIDDEN"
                     "Cannot modify document from different tenant"
                     (now w))), w') ∧
        stores w' = stores w)).
Proof.
  intros Hauth Hid Hne Hf. split.
  - intros Hbody.
    unfold LegalHold.setLegalHold, LegalHold.setLegalHold_body.
    rewrite Hauth, Hid, Hbody. unfold try_catch at 1.
    unfold bind at 1, ret at 1. rewrite path_parameter by done.
    reflexivity.
  - intros legalHold Hbody.
    split; [intros Hnone|intros (d & Hin & Hd)];
      unfold LegalHold.setLegalHold, LegalHold.setLegalHold_body;
      rewrite Hauth, Hid, Hbody; unfold try_catch at 1;
      unfold bind at 1, ret at 1; rewrite path_parameter by done;
      unfold bind at 1, ret at 1; unfold bind at 1;
      rewrite queryOne_no_fault by done;
      cbn [execute fst snd LegalHold.sql_select_document];
      rewrite head_map_filter.
    + rewrite head_filter_None.
      * eexists. split; [reflexivity|]. done.
      * intros d Hd. apply bool_decide_eq_false. by apply Hnone.
    + destruct (head_filter_In
                  (fun d => bool_decide (doc_id d = documentId))
                  (documents (stores w)) d Hin) as [row ->].
      { by apply bool_decide_eq_true. }
      cbn [fmap option_fmap option_map]. rewrite pg_row_tenantId.
      eexists. split; [reflexivity|]. done.
Qed.

(** ** Permanent deletion *)

(** X24.  The permanent delete handler.  A token without the [admin]
    scope is answered with 403 before anything else is looked at, and a
    body that does not carry [confirm: true] with 400; in both cases no
    call has left the process.  For a confirmed request of an
    administrator, when no call faults: an unknown document is answered
    with 404, and every existing document with 403, "Cannot delete
    document from different tenant", also a document of the
    administrator's tenant: the row of the database carries the tenant as
    [tenant_id], and the handler compares its property [tenantId], which
    is [undefined].  In each case nothing is written: no document is set
    to [DELETING], nothing is enqueued and no audit entry is appended. *)
Theorem permanent_delete_outcomes (event : PermanentDelete.Event)
    (authContext : DeleteDocument.AuthContext) (documentId : string)
    (w : World) :
  PermanentDelete.authentication event = inr authContext →
  PermanentDelete.pathParameters_id event = Some documentId →
  documentId ≠ "" →
  ("admin" ∉ DeleteDocument.scopes authContext →
   PermanentDelete.handler event w =
     (inr (PermanentDelete.mkResult 403
             (PermanentDelete.ErrorBody "FORBIDDEN"
                "Admin role required for permanent deletion" (now w))),
      w)) ∧
  ("admin" ∈ DeleteDocument.scopes authContext →
   PermanentDelete.body_confirm event = NotABoolean ∨
   PermanentDelete.body_confirm event = Boolean false →
   PermanentDelete.handler event w =
     (inr (PermanentDelete.mkResult 400
             (PermanentDelete.ErrorBody "BAD_REQUEST"
                "Explicit confirmation required: set confirm to true"
                (now w))),
      w)) ∧
  ("admin" ∈ DeleteDocument.scopes authContext →
   PermanentDelete.body_confirm event = Boolean true →
   faults w = [] →
   ((∀ d, In d (documents (stores w)) → doc_id d ≠ documentId) →
    ∃ w',
      PermanentDelete.handler event w =
        (inr (PermanentDelete.mkResult 404
                (PermanentDelete.ErrorBody "NOT_FOUND" "Document not found"
                   (now w))), w') ∧
      stores w' = stores w) ∧
   ((∃ d, In d (documents (stores w)) ∧ doc_id d = documentId) →
    ∃ w',
      PermanentDelete.handler event w =
        (inr (PermanentDelete.mkResult 403
                (PermanentDelete.ErrorBody "FORBIDDEN"
                   "Cannot delete document from different tenant"
                   (now w))), w') ∧
      stores w' = stores w)).
Proof.
  intros Hauth Hid Hne. split; [|split].
  - intros Hadmin.
    unfold PermanentDelete.handler, PermanentDelete.handler_body.
    rewrite Hauth. unfold try_catch at 1. unfold bind at 1, ret at 1.
    unfold hasAdminRole. rewrite bool_decide_false by done. reflexivity.
  - intros Hadmin Hbody.
    unfold PermanentDelete.handler, PermanentDelete.handler_body.
    rewrite Hauth, Hid. unfold try_catch at 1. unfold bind at 1, ret at 1.
    unfold hasAdminRole. rewrite bool_decide_true by done.
    cbn [negb]. rewrite path_parameter by done.
    by destruct Hbody as [-> | ->].
  - intros Hadmin Hbody Hf.
    split; [intros Hnone|intros (d & Hin & Hd)];
      unfold PermanentDelete.handler, PermanentDelete.handler_body;
      rewrite Hauth, Hid, Hbody; unfold try_catch at 1;
      unfold bind at 1, ret at 1; unfold hasAdminRole;
      rewrite bool_decide_true by done; cbn [negb];
      rewrite path_parameter by done;
      unfold bind at 1, ret at 1; unfold bind at 1;
      rewrite queryOne_no_fault by done;
      cbn [execute fst snd PermanentDelete.sql_select_document];
      rewrite head_map_filter.
    + rewrite head_filter_None.
      * eexists. split; [reflexivity|]. done.
      * intros d Hd. apply bool_decide_eq_false. by apply Hnone.
    + destruct (head_filter_In
                  (fun d => bool_decide (doc_id d = documentId))
                  (documents (stores w)) d Hin) as [row ->].
      { by apply bool_decide_eq_true. }
      cbn [fmap option_fmap option_map]. rewrite pg_row_tenantId.
      eexists. split; [reflexivity|]. done.
Qed.

(** ** Idempotency checks and thumbnails *)

Lemma checkS3ObjectExists_no_fault bucketName key w :
  faults w = [] →
  checkS3ObjectExists bucketName key w =
    (inr (bool_decide (key ∈ bucket (stores w))), w).
Proof.
  intros Hf. unfold checkS3ObjectExists, s3_HeadObject, try_catch, bind,
    external, get_stores. rewrite Hf.
  by destruct (bool_decide (key ∈ bucket (stores w))).
Qed.

Lemma checkArtifactsExist_loop_no_fault bucketName keys :
  ∀ existingKeys w,
    faults w = [] →
    checkArtifactsExist_loop bucketName keys existingKeys w =
      (inr (existingKeys ++
            List.filter (fun key => bool_decide (key ∈ bucket (stores w)))
                        keys)%list, w).
Proof.
  induction keys as [|key keys IH]; intros existingKeys w Hf;
    cbn [checkArtifactsExist_loop List.filter].
  - unfold ret. by rewrite app_nil_r.
  - unfold bind. rewrite checkS3ObjectExists_no_fault by done.
    rewrite IH by done.
    destruct (bool_decide (key ∈ bucket (stores w))); [|done].
    by rewrite <- app_assoc.
Qed.

Lemma filter_length_all {A} (p : A -> bool) (l : list A) :
  length (List.filter p l) = length l ↔ ∀ x, In x l → p x = true.
Proof.
  induction l as [|x l IH]; cbn [List.filter length In]; [done|].
  pose proof (filter_length_le p l) as Hle.
  destruct (p x) eqn:E; cbn [length].
  - split.
    + intros H y [<-|Hy]; [done|]. apply IH; [lia|done].
    + intros H. f_equal. apply IH. intros y Hy. apply H. by right.
  - split; [lia|]. intros H. specialize (H x (or_introl eq_refl)).
    congruence.
Qed.

Lemma checkArtifactsExist_no_fault bucketName keys w :
  faults w = [] →
  ∃ allExist,
    checkArtifactsExist bucketName keys w =
      (inr (allExist,
            List.filter (fun key => bool_decide (key ∈ bucket (stores w)))
                        keys), w) ∧
    (allExist = true ↔ ∀ key, In key keys → key ∈ bucket (stores w)).
Proof.
  intros Hf. unfold checkArtifactsExist, bind.
  rewrite checkArtifactsExist_loop_no_fault by done. unfold ret.
  eexists. split; [reflexivity|]. cbn [app].
  rewrite Nat.eqb_eq, filter_length_all.
  split; intros H key Hin; specialize (H key Hin).
  - by apply bool_decide_eq_true in H.
  - by apply bool_decide_eq_true.
Qed.

(** X29.  [checkArtifactsExist] without faults writes nothing and reports
    the keys that the bucket holds, in the order asked; [allExist] is
    [true] exactly when the bucket holds every key asked for, so also for
    no keys at all.  A failure of the first look-up that is not a
    [NotFound] (permissions, network) is thrown on to the caller. *)
Theorem checkArtifactsExist_reports (bucketName : string)
    (keys : list string) (w : World) :
  (faults w = [] →
   ∃ allExist,
     checkArtifactsExist bucketName keys w =
       (inr (allExist,
             List.filter (fun key => bool_decide (key ∈ bucket (stores w)))
                         keys), w) ∧
     (allExist = true ↔ ∀ key, In key keys → key ∈ bucket (stores w))) ∧
  (∀ e rest key keys',
     faults w = Some e :: rest → error_name e ≠ "NotFound" →
     keys = key :: keys' →
     checkArtifactsExist bucketName keys w = (inl e, set_faults w rest)).
Proof.
  split; [apply checkArtifactsExist_no_fault|].
  intros e rest key keys' Hf Hname ->.
  unfold checkArtifactsExist, bind at 1. cbn [checkArtifactsExist_loop].
  unfold bind at 1.
  unfold checkS3ObjectExists, s3_HeadObject, try_catch, bind, external.
  rewrite Hf. apply String.eqb_neq in Hname. by rewrite Hname.
Qed.

Lemma insert_key_elem_of key k keys :
  k ∈ insert_key key keys ↔ k = key ∨ k ∈ keys.
Proof.
  induction keys as [|x keys IH]; cbn [insert_key].
  - rewrite list_elem_of_singleton, elem_of_nil. tauto.
  - destruct (String.eqb key x) eqn:E.
    + apply String.eqb_eq in E as ->. rewrite elem_of_cons. tauto.
    + destruct (String.ltb key x).
      * rewrite !elem_of_cons. tauto.
      * rewrite !elem_of_cons, IH. tauto.
Qed.

Lemma generate_each_no_fault event existingKeys sizes :
  (∀ size, In size sizes → 0 < size) →
  ∀ thumbnails w,
    faults w = [] →
    (∀ key, key ∈ existingKeys → key ∈ bucket (stores w)) →
    ∃ w',
      Thumbnail.generate_each event existingKeys sizes thumbnails w =
        (inr (thumbnails ++
              map (fun size => (size, Thumbnail.thumbnail_key event size))
                  sizes)%list, w') ∧
      ∀ key,
        key ∈ bucket (stores w') ↔
        key ∈ bucket (stores w) ∨
        ∃ size, In size sizes ∧ key = Thumbnail.thumbnail_key event size.
Proof.
  induction sizes as [|size sizes IH]; intros Hpos thumbnails w Hf Hex;
    cbn [Thumbnail.generate_each map].
  - exists w. unfold ret. rewrite app_nil_r. split; [done|].
    intros key. split; [by left|]. by intros [?|(? & [] & _)].
  - assert (Hsize : (0 <? size) = true)
      by (apply Z.ltb_lt, Hpos; by left).
    assert (Hrest : ∀ size', In size' sizes → 0 < size')
      by (intros size' Hin; apply Hpos; by right).
    specialize (IH Hrest).
    destruct (bool_decide (Thumbnail.thumbnail_key event size ∈ existingKeys))
      eqn:E.
    + apply bool_decide_eq_true in E.
      destruct (IH (thumbnails ++
                    [(size, Thumbnail.thumbnail_key event size)])%list
                  w Hf Hex) as (w' & Hrun & Hb).
      exists w'. rewrite Hrun, <- app_assoc. split; [done|].
      intros key. rewrite Hb. split.
      * intros [?|(s & Hs & ->)]; [by left|right]. exists s. split; [by right|done].
      * intros [?|(s & [<-|Hs] & ->)]; [by left|left; by apply Hex|].
        right. by exists s.
    + unfold bind at 1. unfold Thumbnail.generateThumbnail.
      rewrite Hsize. unfold external at 1.
      rewrite Hf. unfold bind at 1.
      unfold Thumbnail.uploadThumbnail, s3_PutObject, bind at 1,
        external at 1. rewrite Hf.
      unfold bind at 1, get_stores at 1, put_stores at 1.
      match goal with
      | |- context [Thumbnail.generate_each _ _ _ ?t ?w1] =>
          destruct (IH t w1) as (w' & Hrun & Hb); [done| |]
      end.
      { intros key Hkey. cbn [stores set_stores bucket set_bucket].
        apply insert_key_elem_of. right. by apply Hex. }
      exists w'. rewrite Hrun, <- app_assoc. split; [done|].
      intros key. rewrite Hb. cbn [stores set_stores bucket set_bucket].
      rewrite insert_key_elem_of. split.
      * intros [[->|?]|(s & Hs & ->)]; [right|by left|right].
        -- exists size. split; [by left|done].
        -- exists s. split; [by right|done].
      * intros [?|(s & [<-|Hs] & ->)]; [left; by right|left; by left|].
        right. by exists s.
Qed.

(** [resize] refuses a size that is not positive before anything leaves
    the process. *)
Lemma generateThumbnail_not_positive size w :
  size <= 0 →
  Thumbnail.generateThumbnail size w =
    (inl (JsError "Error"
            ("Expected positive integer for width but received "
               ++ pretty size ++ " of type number")), w).
Proof.
  intros Hsize. unfold Thumbnail.generateThumbnail.
  replace (0 <? size) with false; [done|].
  symmetry. apply Z.ltb_ge. exact Hsize.
Qed.

(** X30.  The thumbnail handler is idempotent.  Without faults, with
    the source object in the bucket and for sizes that are positive, it
    returns one thumbnail per requested size, in the order of the sizes,
    and the bucket then holds what it held before and the thumbnail keys,
    nothing else.  A second run on these stores returns the same result
    and changes nothing: it neither downloads the source nor generates or
    uploads a thumbnail. *)
Theorem thumbnail_handler_idempotent (event : Thumbnail.ThumbnailEvent)
    (w : World) :
  faults w = [] →
  Thumbnail.s3Key event ∈ bucket (stores w) →
  (∀ size, In size (Thumbnail.sizes event) → 0 < size) →
  let result :=
    Thumbnail.mkThumbnailResult (Thumbnail.documentId event)
      (Thumbnail.versionId event)
      (map (fun size => (size, Thumbnail.thumbnail_key event size))
           (Thumbnail.sizes event)) in
  ∃ w1,
    Thumbnail.handler event w = (inr result, w1) ∧
    (∀ key,
       key ∈ bucket (stores w1) ↔
       key ∈ bucket (stores w) ∨
       ∃ size, In size (Thumbnail.sizes event) ∧
               key = Thumbnail.thumbnail_key event size) ∧
    ∀ w2,
      stores w2 = stores w1 → faults w2 = [] →
      Thumbnail.handler event w2 = (inr result, w2).
Proof.
  intros Hf Hsrc Hpos. cbn zeta.
  assert (Hall : ∀ w0,
    faults w0 = [] →
    (∀ size, In size (Thumbnail.sizes event) →
             Thumbnail.thumbnail_key event size ∈ bucket (stores w0)) →
    Thumbnail.handler event w0 =
      (inr (Thumbnail.mkThumbnailResult (Thumbnail.documentId event)
              (Thumbnail.versionId event)
              (map (fun size => (size, Thumbnail.thumbnail_key event size))
                   (Thumbnail.sizes event))), w0)).
  { intros w0 Hf0 Hkeys. unfold Thumbnail.handler, try_catch, bind at 1.
    destruct (checkArtifactsExist_no_fault (Thumbnail.s3Bucket event)
                (map (Thumbnail.thumbnail_key event) (Thumbnail.sizes event))
                w0 Hf0) as (allExist & -> & Hiff).
    replace allExist with true; [done|]. symmetry. apply Hiff.
    intros key Hin. apply in_map_iff in Hin as (size & <- & Hin).
    by apply Hkeys. }
  destruct (checkArtifactsExist_no_fault (Thumbnail.s3Bucket event)
              (map (Thumbnail.thumbnail_key event) (Thumbnail.sizes event))
              w Hf) as (allExist & Hcheck & Hiff).
  destruct allExist.
  - (* every thumbnail is there already *)
    assert (Hkeys : ∀ size, In size (Thumbnail.sizes event) →
              Thumbnail.thumbnail_key event size ∈ bucket (stores w)).
    { intros size Hin. apply Hiff; [done|]. by apply in_map. }
    exists w. split; [by apply Hall|]. split.
    + intros key. split; [by left|]. intros [?|(size & Hin & ->)]; [done|].
      by apply Hkeys.
    + intros w2 Hs2 Hf2. apply Hall; [done|]. by rewrite Hs2.
  - destruct (generate_each_no_fault event
                (List.filter
                   (fun key => bool_decide (key ∈ bucket (stores w)))
                   (map (Thumbnail.thumbnail_key event)
                        (Thumbnail.sizes event)))
                (Thumbnail.sizes event) Hpos [] w Hf) as (w1 & Hrun & Hb).
    { intros key Hkey. apply list_elem_of_In, filter_In in Hkey as [_ Hkey].
      by apply bool_decide_eq_true in Hkey. }
    exists w1. split; [|split; [done|]].
    + unfold Thumbnail.handler, try_catch, bind at 1. rewrite Hcheck.
      unfold bind at 1. unfold Thumbnail.downloadFile, s3_GetObject,
        bind at 1, external at 1. rewrite Hf.
      unfold bind at 1, get_stores at 1.
      rewrite bool_decide_true by done. unfold ret at 1.
      unfold bind at 1. by rewrite Hrun.
    + intros w2 Hs2 Hf2. apply Hall; [done|].
      intros size Hin. rewrite Hs2. apply Hb. right. by exists size.
Qed.

(** ** The further properties at concrete inputs *)

Lemma acquire_until_limit_witness :
  ∃ w',
    acquire_repeatedly 3 "tenant-1" (Some 3) empty_world =
      ([inr (status_of "tenant-1" 1 3); inr (status_of "tenant-1" 2 3);
        inr (status_of "tenant-1" 3 3)], w') ∧
    slot_is w' "tenant-1" 3 3 ∧
    acquireConcurrencySlot "tenant-1" (Some 3) w' =
      (inl (ConcurrencyLimitExceededError
              (limit_reached_message "tenant-1" 3) "tenant-1" 3 3), w').
Proof.
  apply (acquire_until_limit "tenant-1" (Some 3) empty_world);
    [reflexivity|reflexivity|cbn; lia].
Defined.

Lemma withConcurrencyControl_outcome_witness :
  fst (withConcurrencyControl "tenant-1" (throw (A := unit) database_error)
         None (tenant_world 1 2 [])) = inl database_error ∧
  slot_is (snd (withConcurrencyControl "tenant-1"
                  (throw (A := unit) database_error) None
                  (tenant_world 1 2 []))) "tenant-1" 1 2.
Proof.
  destruct (withConcurrencyControl_outcome "tenant-1" None
              (throw (A := unit) database_error) 1 2 (tenant_world 1 2 []))
    as [H _].
  - exists None. reflexivity.
  - lia.
  - reflexivity.
  - intros w1 Hf. split; [exact Hf|reflexivity].
  - apply H. lia.
Defined.

Lemma wrapper_at_limit_does_not_run_witness :
  ∃ w' j',
    (∀ operation : M unit,
       executeWithConcurrencyEnforcement sample_request operation
         (stage_world 2 2) =
         (inl (ConcurrencyLimitExceededError
                 "Tenant concurrency limit reached (2). Task will retry."
                 "tenant-1" 0 0), w')) ∧
    dynamo (stores w') = dynamo (stores (stage_world 2 2)) ∧
    processing_jobs (stores w') = [j'; thumbnail_job] ∧
    job_status j' = PENDING ∧ job_attempts j' = 1.
Proof.
  destruct (wrapper_at_limit_does_not_run (T := unit) sample_request 2 2
              (stage_world 2 2))
    as (w' & Hrun & Hdynamo & Hrows);
    [exists None; reflexivity|lia|reflexivity|].
  destruct (rows_updated_two
              (is_job_of "doc-1" "ver-1" OCR) row_pending
              sample_job thumbnail_job (processing_jobs (stores w')))
    as (j' & Hjobs & _ & Hstatus & Hattempts).
  - repeat split.
  - intros (_ & _ & H). discriminate H.
  - exact Hrows.
  - exists w', j'. split; [exact Hrun|]. split; [exact Hdynamo|].
    split; [exact Hjobs|]. split; [exact Hstatus|exact Hattempts].
Defined.

Lemma wrapper_below_limit_accounts_witness :
  ∃ w' j',
    executeWithConcurrencyEnforcement sample_request
      (throw (A := unit) database_error) (stage_world 1 2)
      = (inl database_error, w') ∧
    slot_is w' "tenant-1" 1 2 ∧
    processing_jobs (stores w') = [j'; thumbnail_job] ∧
    job_status j' = FAILED ∧ job_startedAt j' = Some 1000 ∧
    job_completedAt j' = Some 1000 ∧
    job_errorMessage j' = Some "Database error".
Proof.
  destruct (wrapper_below_limit_accounts sample_request
              (throw (A := unit) database_error) (inl database_error) 1 2
              (stage_world 1 2))
    as (w' & Hrun & Hslot & Hrows).
  - exists None. reflexivity.
  - lia.
  - reflexivity.
  - intros w0 Hf. exists w0. repeat split; done.
  - assert (Hjob : is_job_of "doc-1" "ver-1" OCR sample_job)
      by (repeat split).
    assert (Hother : ¬ is_job_of "doc-1" "ver-1" OCR thumbnail_job)
      by (intros (_ & _ & H); discriminate H).
    destruct (rows_updated_two _ _ _ _ _ Hjob Hother Hrows)
      as (j' & Hjobs & (_ & Hstatus & Hstarted & Hcompleted & _) & Hmessage).
    exists w', j'. split; [exact Hrun|]. split; [exact Hslot|].
    split; [exact Hjobs|]. split; [exact Hstatus|].
    split; [exact Hstarted|]. split; [exact Hcompleted|exact Hmessage].
Defined.

Lemma retry_ends_at_first_settled_witness :
  retryWithExponentialBackoff flaky_operation no_config empty_world =
    flaky_operation
      (world_before_attempt flaky_operation (merge_config no_config) 1 2
         empty_world).
Proof.
  apply (retry_ends_at_first_settled flaky_operation no_config 2
           empty_world).
  - cbn. lia.
  - intros [|[|j]] Hj; [reflexivity|reflexivity|lia].
  - reflexivity.
Defined.

Lemma retry_sleeps_between_attempts_witness :
  timers (snd (retryWithExponentialBackoff flaky_operation no_config
                 empty_world)) =
    (backoff_delays (merge_config no_config) 1 2 ++ [])%list ∧
  (length (backoff_delays (merge_config no_config) 1 2) < 5)%nat.
Proof.
  apply (retry_sleeps_between_attempts flaky_operation no_config 2
           empty_world).
  - intros w0. unfold flaky_operation.
    by destruct (length (timers w0) <? 2)%nat.
  - cbn. lia.
  - intros [|[|j]] Hj; [reflexivity|reflexivity|lia].
  - left. reflexivity.
Defined.

Lemma retry_without_attempts_witness :
  retryWithExponentialBackoff flaky_operation no_attempts empty_world =
    (inl (JsError "Error" "Retry failed with unknown error"), empty_world).
Proof.
  apply (retry_without_attempts flaky_operation no_attempts empty_world).
  cbn. lia.
Defined.

Lemma calculateExponentialBackoff_bounds_witness :
  (0 <= calculateExponentialBackoff 5 1000 (Some 16000%Q))%Q ∧
  (calculateExponentialBackoff 5 1000 (Some 16000%Q) <= 16000)%Q ∧
  (calculateExponentialBackoff 5 1000 (Some 16000%Q)
   <= calculateExponentialBackoff (5 + 1) 1000 (Some 16000%Q))%Q ∧
  (calculateExponentialBackoff (5 + 1) 1000 None
   == 2 * calculateExponentialBackoff 5 1000 None)%Q ∧
  (calculateExponentialBackoff 1 1000 None == 1000)%Q.
Proof.
  apply (calculateExponentialBackoff_bounds 5 1000 16000);
    [lia|discriminate|reflexivity].
Defined.

Lemma createAuditLog_never_throws_witness :
  (∃ w',
     createAuditLog
       (mkCreateAuditLogParams "tenant-1" DELETE (Some "user-1")
          (Some "doc-1") (Some "") None) empty_world = (inr tt, w') ∧
     audit_logs (stores w') =
       [mkAuditLog "tenant-1" (Some "user-1") DELETE (Some "doc-1") None
          None]) ∧
  (∃ w',
     createAuditLog
       (mkCreateAuditLogParams "tenant-1" PERMANENT_DELETE (Some "admin-1")
          (Some "doc-1") None None) empty_world = (inr tt, w') ∧
     audit_logs (stores w') = []).
Proof.
  split.
  - destruct (createAuditLog_never_throws
                (mkCreateAuditLogParams "tenant-1" DELETE (Some "user-1")
                   (Some "doc-1") (Some "") None) empty_world)
      as (w' & Hrun & Hallowed & _).
    destruct Hallowed as (Hs & _); [right; right; left; reflexivity|].
    exists w'. split; [exact Hrun|]. rewrite Hs; reflexivity.
  - destruct (createAuditLog_never_throws
                (mkCreateAuditLogParams "tenant-1" PERMANENT_DELETE
                   (Some "admin-1") (Some "doc-1") None None) empty_world)
      as (w' & Hrun & _ & Hrefused).
    exists w'. split; [exact Hrun|]. rewrite Hrefused; [reflexivity|].
    right; right; left; reflexivity.
Defined.

Lemma hard_delete_redelivery_witness :
  ∃ w1,
    HardDelete.processMessage hard_delete_message (hard_delete_world [])
      = (inr tt, w1) ∧
    stores (snd (HardDelete.processMessage hard_delete_message w1))
      = stores w1 ∧
    fst (HardDelete.processMessage hard_delete_message
           (set_faults w1 [])) = inr tt.
Proof.
  destruct (hard_delete_redelivery hard_delete_message
              (mkDocument "doc-1" "tenant-1" "a.pdf" "user-1" DELETING
                 false (Some 0) 30 0 0) (hard_delete_world []))
    as (w1 & Hrun & Hagain).
  - reflexivity.
  - repeat constructor.
  - reflexivity.
  - reflexivity.
  - exists w1. split; [exact Hrun|]. split.
    + apply (Hagain w1). reflexivity.
    + apply (Hagain (set_faults w1 [])); reflexivity.
Defined.

Lemma retention_sweep_under_faults_witness :
  ∃ w',
    Retention.handler retention_faulty_world = (inr tt, w') ∧
    stores w' =
      set_documents (stores retention_faulty_world) (documents (stores w')) ∧
    Forall2 (kept_or_marked (now retention_faulty_world))
      (documents (stores retention_faulty_world)) (documents (stores w')).
Proof.
  apply (retention_sweep_under_faults retention_faulty_world).
  cbn. constructor; [|constructor; [|constructor]].
  - intros [H|[]]. discriminate.
  - intros [].
Defined.

Lemma retention_sweep_twice_witness :
  ∃ w1 w2,
    Retention.handler retention_world = (inr tt, w1) ∧
    Retention.handler w1 = (inr tt, w2) ∧
    stores w2 = stores w1.
Proof. apply (retention_sweep_twice retention_world). reflexivity. Defined.




Lemma set_legal_hold_outcomes_witness :
  doc_tenantId ready_document = DeleteDocument.tenantId user_context ∧
  ∃ w',
    LegalHold.setLegalHold hold_event (ready_world []) =
      (inr (LegalHold.mkResult 403
              (LegalHold.ErrorBody "FORBIDDEN"
                 "Cannot modify document from different tenant" 1000)),
       w') ∧
    stores w' = stores (ready_world []).
Proof.
  split; [reflexivity|].
  destruct (set_legal_hold_outcomes hold_event user_context "doc-1"
              (ready_world [])) as [_ H];
    [reflexivity|reflexivity|discriminate|reflexivity|].
  destruct (H true eq_refl) as [_ Hfound].
  apply Hfound. exists ready_document.
  split; [left; reflexivity|reflexivity].
Defined.

Lemma permanent_delete_outcomes_witness :
  doc_tenantId ready_document = DeleteDocument.tenantId admin_context ∧
  doc_legalHold ready_document = false ∧
  ∃ w',
    PermanentDelete.handler (permanent_delete_event "doc-1") (ready_world [])
      = (inr (PermanentDelete.mkResult 403
                (PermanentDelete.ErrorBody "FORBIDDEN"
                   "Cannot delete document from different tenant" 1000)),
         w') ∧
    stores w' = stores (ready_world []).
Proof.
  split; [reflexivity|]. split; [reflexivity|].
  destruct (permanent_delete_outcomes (permanent_delete_event "doc-1")
              admin_context "doc-1" (ready_world [])) as (_ & _ & H);
    [reflexivity|reflexivity|discriminate|].
  destruct H as [_ Hfound]; [constructor|reflexivity|reflexivity|].
  apply Hfound. exists ready_document.
  split; [left; reflexivity|reflexivity].
Defined.

Lemma thumbnail_handler_idempotent_witness :
  ∃ w1,
    Thumbnail.handler thumbnail_event thumbnail_world =
      (inr (Thumbnail.mkThumbnailResult "doc-1" "ver-1"
              [(128, "tenant-1/derived/doc-1/ver-1/thumbnails/128x128.jpg");
               (256, "tenant-1/derived/doc-1/ver-1/thumbnails/256x256.jpg")]),
       w1) ∧
    Thumbnail.handler thumbnail_event w1 =
      (inr (Thumbnail.mkThumbnailResult "doc-1" "ver-1"
              [(128, "tenant-1/derived/doc-1/ver-1/thumbnails/128x128.jpg");
               (256, "tenant-1/derived/doc-1/ver-1/thumbnails/256x256.jpg")]),
       w1).
Proof.
  destruct (thumbnail_handler_idempotent thumbnail_event thumbnail_world)
    as (w1 & Hrun & _ & Hagain).
  - reflexivity.
  - apply list_elem_of_In. right. left. reflexivity.
  - intros size [<-|[<-|[]]]; reflexivity.
  - assert (Hf1 : faults w1 = []).
    { pose proof (f_equal (fun x => faults (snd x)) Hrun) as H.
      cbn [snd] in H. rewrite <- H. reflexivity. }
    exists w1. split; [exact Hrun|].
    apply (Hagain w1); [reflexivity|exact Hf1].
Defined.
